(** * ShreejiFoods: variant resolver and catalog store

    A shallow embedding of
    - the variant ordering / display resolver that is written out three
      times in the front end ([src/pages/Index.tsx],
      [src/pages/AdminDashboard.tsx], [src/components/ProductDetailDialog.tsx]);
    - the public dashboard's [fetchStoreStatus];
    - the catalog of the public page (what it fetches, its search box and
      its stored selection), the handlers, the store switch and the timers
      of the admin dashboard, and the product and category forms;
    - the catalog schema, triggers, sequence and row-level-security policies
      of [supabase/migrations/20251029034905_create_inventory_system.sql],
      together with the statements the front end sends to it.

    Conventions.
    - A JavaScript string is a [string] (a sequence of 8-bit characters);
      [toLowerCase] folds the letters A-Z.
    - A JavaScript number that is not NaN is the exact rational it denotes
      ([Q], kept reduced); binary64 rounding is not modelled.  Every number
      the resolver builds is a decimal literal times a decimal constant.
    - [number | null] is [option Q]; NaN only occurs as a result of
      [parseFloat] and is filtered at once, as in the source.
    - A uuid is a [string]; [gen_random_uuid()] and [now()] are arguments of
      the statement that evaluates them. *)

From Stdlib Require Import ZArith QArith List String Ascii Bool Lia Lqa.
From Stdlib Require Import DecimalString.
From Stdlib Require Import DecimalPos Sorting.Sorted.
From Stdlib Require Qcanon.
From stdpp Require Import base list strings gmap.

Local Open Scope string_scope.
Local Open Scope Z_scope.

(** ** JavaScript strings *)

Module Js.

(** [\d] of a JavaScript regular expression: the ten ASCII digits. *)
Definition isDigit (c : ascii) : bool :=
  let n := nat_of_ascii c in (48 <=? n)%nat && (n <=? 57)%nat.

Definition digitValue (c : ascii) : Z := Z.of_nat (nat_of_ascii c) - 48.

Definition isDot (c : ascii) : bool := Ascii.eqb c ".".

Definition toLowerChar (c : ascii) : ascii :=
  let n := nat_of_ascii c in
  if (65 <=? n)%nat && (n <=? 90)%nat then ascii_of_nat (n + 32) else c.

(** [String.prototype.toLowerCase]. *)
Fixpoint toLowerCase (s : string) : string :=
  match s with
  | EmptyString => EmptyString
  | String c t => String (toLowerChar c) (toLowerCase t)
  end.

(** [String.prototype.includes]: [sub] occurs somewhere in [s]. *)
Fixpoint includes (s sub : string) : bool :=
  String.prefix sub s
  || match s with
     | EmptyString => false
     | String _ t => includes t sub
     end.

(** The greedy run [\d+] (or [\d*]) at the head of [s], and what follows it. *)
Fixpoint digitRun (s : string) : string * string :=
  match s with
  | EmptyString => (EmptyString, EmptyString)
  | String c t =>
      if isDigit c
      then let '(d, r) := digitRun t in (String c d, r)
      else (EmptyString, s)
  end.

(** The text matched by [\d+(?:\.\d+)?] anchored at the head of [s]. *)
Definition decimalAt (s : string) : option string :=
  match digitRun s with
  | (EmptyString, _) => None
  | (ip, String c r) =>
      if isDot c
      then match digitRun r with
           | (EmptyString, _) => Some ip
           | (fp, _) => Some (ip +:+ "." +:+ fp)
           end
      else Some ip
  | (ip, EmptyString) => Some ip
  end.

(** [s.match(/(\d+(?:\.\d+)?)/)]: the leftmost match, capture group 1. *)
Fixpoint matchDecimal (s : string) : option string :=
  match decimalAt s with
  | Some m => Some m
  | None =>
      match s with
      | EmptyString => None
      | String _ t => matchDecimal t
      end
  end.

(** The greedy run [[^\d]*] at the head of [s] is skipped. *)
Fixpoint skipNonDigits (s : string) : string :=
  match s with
  | EmptyString => EmptyString
  | String c t => if isDigit c then s else skipNonDigits t
  end.

(** [s.match(/[^\d]*(\d+(?:\.\d+)?)/)], capture group 1.  The match is tried
    at index 0 first, where [[^\d]*] takes every leading non-digit; a later
    start index or a shorter prefix meets the same first digit (or none). *)
Definition matchSkipDecimal (s : string) : option string :=
  decimalAt (skipNonDigits s).

(** The greedy run [[\d\.]+] at the head of [s]. *)
Fixpoint digitDotRun (s : string) : string :=
  match s with
  | EmptyString => EmptyString
  | String c t =>
      if isDigit c || isDot c then String c (digitDotRun t) else EmptyString
  end.

(** [s.match(/[\d\.]+/)]: the leftmost match, element 0. *)
Fixpoint matchDigitDots (s : string) : option string :=
  match s with
  | EmptyString => None
  | String c t =>
      if isDigit c || isDot c then Some (digitDotRun s) else matchDigitDots t
  end.

(** A JavaScript number as [parseFloat] returns it. *)
Inductive number : Type :=
  | NaN
  | Num (q : Q).

Fixpoint digitsValue (acc : Z) (s : string) : Z :=
  match s with
  | EmptyString => acc
  | String c t => digitsValue (10 * acc + digitValue c) t
  end.

(** [Number.parseFloat] on a text made of digits and dots, which is all the
    resolver ever passes: the longest prefix of the form [d+], [d+.d*] or
    [.d+] is the value, and NaN when there is none. *)
Definition parseFloat (s : string) : number :=
  let '(ip, r) := digitRun s in
  let fp := match r with
            | String c r' => if isDot c then fst (digitRun r') else EmptyString
            | EmptyString => EmptyString
            end in
  match ip, fp with
  | EmptyString, EmptyString => NaN
  | _, _ =>
      Num (Qred (digitsValue 0 (ip +:+ fp)
                 # Z.to_pos (10 ^ Z.of_nat (String.length fp))))
  end.

(** [Number.isNaN(numeric) ? null : numeric]. *)
Definition nullIfNaN (n : number) : option Q :=
  match n with
  | NaN => None
  | Num q => Some q
  end.

(** A collation to evaluate the resolver with: the comparison of the
    case-folded strings character by character, giving -1, 0 or 1.  The
    collation of [a.localeCompare(b, undefined, { sensitivity: 'base' })]
    belongs to the runtime and its locale, and is another one (it puts "A-"
    before "A+" and takes an accented letter for its base letter); what
    depends on it is stated for [compareVariantsWith] and every collation. *)
Definition localeCompareBase (a b : string) : Z :=
  match String.compare (toLowerCase a) (toLowerCase b) with
  | Lt => -1
  | Eq => 0
  | Gt => 1
  end.

(** [Array.prototype.sort(cmp)] on a copy: a stable sort, here by insertion;
    on a comparator that is a consistent ordering every stable sort returns
    this list. *)
Section Sort.
Context {A : Type} (cmp : A -> A -> Q).

Fixpoint insertSorted (x : A) (l : list A) : list A :=
  match l with
  | [] => [x]
  | y :: l' =>
      if Qle_bool (cmp x y) 0 then x :: y :: l' else y :: insertSorted x l'
  end.

Fixpoint sort (l : list A) : list A :=
    match l with
    | [] => []
    | x :: l' => insertSorted x (sort l')
    end.
End Sort.

End Js.

(** ** Rows shared by the front end and the schema *)

Definition uuid := string.
Definition timestamp := Z.

Inductive VariantType : Type := weight | pcs | price | flavor | size.

Definition VariantType_eqb (a b : VariantType) : bool :=
  match a, b with
  | weight, weight | pcs, pcs | price, price | flavor, flavor | size, size => true
  | _, _ => false
  end.

(** [ProductVariant] of [lib/supabase] and a row of [public.product_variants]. *)
Record ProductVariant : Type := mkVariant {
  v_id : uuid;
  v_product_id : uuid;
  v_sku : string;
  v_variant_type : VariantType;
  v_variant_value : string;
  v_price : Z;
  v_quantity : Z;
  v_last_updated : timestamp;
  v_updated_by : option uuid
}.

(** ** The resolver *)

Section Resolver.
(** The two parsers are the only part in which the three copies differ. *)
Variables (parseWeightInGrams parseNumericValue : string -> option Q).

(** The comparator passed to [sort] in [sortVariants]; [localeCompare a b]
    is [a.localeCompare(b, undefined, { sensitivity: 'base' })]. *)
Definition compareVariantsWith (localeCompare : string -> string -> Z)
    (a b : ProductVariant) : Q :=
  let isWeightVariant :=
    VariantType_eqb (v_variant_type a) weight
    || VariantType_eqb (v_variant_type b) weight in
  let aValue := if isWeightVariant
                then parseWeightInGrams (v_variant_value a)
                else parseNumericValue (v_variant_value a) in
  let bValue := if isWeightVariant
                then parseWeightInGrams (v_variant_value b)
                else parseNumericValue (v_variant_value b) in
  let fallback :=
    inject_Z (localeCompare (v_variant_value a) (v_variant_value b)) in
  match aValue, bValue with
  | Some x, Some y => if negb (Qeq_bool x y) then (x - y)%Q else fallback
  | Some _, None => (-1)%Q
  | None, Some _ => 1%Q
  | None, None =>
      if negb (v_price a =? v_price b)
      then inject_Z (v_price a - v_price b)
      else fallback
  end.

Definition sortVariantsWith (localeCompare : string -> string -> Z)
    (variants : list ProductVariant) : list ProductVariant :=
  Js.sort (compareVariantsWith localeCompare) variants.

(** The comparator and the sort with [Js.localeCompareBase] for the
    collation. *)
Definition compareVariants : ProductVariant -> ProductVariant -> Q :=
  compareVariantsWith Js.localeCompareBase.

Definition sortVariants (variants : list ProductVariant) : list ProductVariant :=
  Js.sort compareVariants variants.

(** [sortedVariants.find((variant) => variant.id === currentId)]. *)
Definition findById (currentId : uuid) (l : list ProductVariant)
  : option ProductVariant :=
  List.find (fun v => String.eqb (v_id v) currentId) l.

(** [(currentId && sortedVariants.find(...)) || sortedVariants[0] || null];
    [currentId] is [undefined] when the map has no entry, and the empty
    string is falsy as well. *)
Definition selectActive (currentId : option uuid) (sorted : list ProductVariant)
  : option ProductVariant :=
  let found := match currentId with
               | None => None
               | Some i => if String.eqb i "" then None else findById i sorted
               end in
  match found with
  | Some v => Some v
  | None => head sorted
  end.

End Resolver.

(** [parseWeightInGrams], identical in the three files. *)
Definition parseWeightInGrams (value : string) : option Q :=
  let lowerValue := Js.toLowerCase value in
  match Js.matchDecimal lowerValue with
  | None => None
  | Some numMatch =>
      match Js.parseFloat numMatch with
      | Js.NaN => None
      | Js.Num num =>
          if Js.includes lowerValue "kg" then Some (Qred (num * 1000))
          else if Js.includes lowerValue "g" && negb (Js.includes lowerValue "kg")
          then Some num
          else if Js.includes lowerValue "mg" then Some (Qred (num / 1000))
          else if Js.includes lowerValue "lb" || Js.includes lowerValue "pound"
          then Some (Qred (num * (453592 # 1000)))
          else if Js.includes lowerValue "oz" || Js.includes lowerValue "ounce"
          then Some (Qred (num * (283495 # 10000)))
          else Some num
      end
  end.

(** A product as the pages hold it after [fetchItems]. *)
Record Product : Type := mkProductView {
  pv_id : uuid;
  pv_has_variants : bool;
  pv_variants : list ProductVariant
}.

(** [src/pages/Index.tsx] *)
Module Index.

Definition parseNumericValue (value : string) : option Q :=
  match Js.matchDigitDots value with
  | None => None
  | Some m => Js.nullIfNaN (Js.parseFloat m)
  end.

Definition parseWeightInGrams := parseWeightInGrams.

Definition sortVariants := sortVariants parseWeightInGrams parseNumericValue.

(** The comparator of [sortVariants]. *)
Definition comparator := compareVariants parseWeightInGrams parseNumericValue.

Definition getVariantsForItem (selectedVariants : gmap string string)
    (item : Product) : list ProductVariant * option ProductVariant :=
  let sortedVariants := sortVariants (pv_variants item) in
  let currentId := selectedVariants !! pv_id item in
  (sortedVariants, selectActive currentId sortedVariants).

End Index.

(** [src/pages/AdminDashboard.tsx] *)
Module AdminDashboard.

Definition parseNumericValue (value : string) : option Q :=
  match Js.matchSkipDecimal value with
  | None => None
  | Some m => Js.nullIfNaN (Js.parseFloat m)
  end.

Definition parseWeightInGrams := parseWeightInGrams.

Definition sortVariants := sortVariants parseWeightInGrams parseNumericValue.

(** The comparator of [sortVariants]. *)
Definition comparator := compareVariants parseWeightInGrams parseNumericValue.

Definition getVariantsForItem (selectedVariantsMap : gmap string string)
    (item : Product) : list ProductVariant * option ProductVariant :=
  if negb (pv_has_variants item) then ([], None)
  else
    let sortedVariants := sortVariants (pv_variants item) in
    let currentId := selectedVariantsMap !! pv_id item in
    (sortedVariants, selectActive currentId sortedVariants).

End AdminDashboard.

(** [src/components/ProductDetailDialog.tsx] *)
Module ProductDetailDialog.

Definition parseNumericValue (value : string) : option Q :=
  match Js.matchDigitDots value with
  | None => None
  | Some m => Js.nullIfNaN (Js.parseFloat m)
  end.

Definition parseWeightInGrams := parseWeightInGrams.

Definition sortVariants := sortVariants parseWeightInGrams parseNumericValue.

(** The comparator of [sortVariants]. *)
Definition comparator := compareVariants parseWeightInGrams parseNumericValue.

(** [selectedVariantId ? sortedVariants.find(...) || defaultVariant
                       : defaultVariant]. *)
Definition activeVariant (selectedVariantId : option uuid)
    (item : Product) : list ProductVariant * option ProductVariant :=
  let sortedVariants := sortVariants (pv_variants item) in
  (sortedVariants, selectActive selectedVariantId sortedVariants).

End ProductDetailDialog.

(** ** The catalog store *)

Module Pg.

(** Errors a statement can end with. *)
Inductive pg_error : Type :=
  | insufficient_privilege (tbl : string)
      (* new row violates row-level security policy for table [tbl] *)
  | unique_violation (constraint : string)
  | foreign_key_violation (constraint : string)
  | raise_exception (message : string)
  | sequence_limit.

Record Category : Type := mkCategory {
  c_id : uuid;
  c_name : string;
  c_description : option string
}.

Record ProductRow : Type := mkProduct {
  p_id : uuid;
  p_name : string;
  p_description : option string;
  p_category : option string;
  p_is_visible : bool;
  p_image_url : option string;
  p_last_updated : timestamp;
  p_updated_by : option uuid
}.

Record AdminUser : Type := mkAdmin {
  a_id : uuid;
  a_user_id : uuid
}.

Record StoreStatus : Type := mkStoreStatus {
  s_id : uuid;
  s_is_open : bool;
  s_updated_at : option timestamp;
  s_updated_by : option uuid
}.

#[global] Instance VariantType_eq_dec : EqDecision VariantType.
Proof. solve_decision. Defined.
#[global] Instance ProductVariant_eq_dec : EqDecision ProductVariant.
Proof. solve_decision. Defined.
#[global] Instance Category_eq_dec : EqDecision Category.
Proof. solve_decision. Defined.
#[global] Instance ProductRow_eq_dec : EqDecision ProductRow.
Proof. solve_decision. Defined.
#[global] Instance StoreStatus_eq_dec : EqDecision StoreStatus.
Proof. solve_decision. Defined.

(** The tables and the sequence; [sku_sequence] is the value the next
    [nextval('public.sku_sequence')] returns. *)
Record DB : Type := mkDB {
  category : list Category;
  product : list ProductRow;
  product_variants : list ProductVariant;
  admin_users : list AdminUser;
  store_status : list StoreStatus;
  sku_sequence : Z
}.

Definition set_category (l : list Category) (db : DB) : DB :=
  mkDB l (product db) (product_variants db) (admin_users db)
       (store_status db) (sku_sequence db).
Definition set_product (l : list ProductRow) (db : DB) : DB :=
  mkDB (category db) l (product_variants db) (admin_users db)
       (store_status db) (sku_sequence db).
Definition set_product_variants (l : list ProductVariant) (db : DB) : DB :=
  mkDB (category db) (product db) l (admin_users db)
       (store_status db) (sku_sequence db).
Definition set_store_status (l : list StoreStatus) (db : DB) : DB :=
  mkDB (category db) (product db) (product_variants db) (admin_users db)
       l (sku_sequence db).
Definition set_sku_sequence (n : Z) (db : DB) : DB :=
  mkDB (category db) (product db) (product_variants db) (admin_users db)
       (store_status db) n.

(** The database right after the migration; who is an admin is decided
    outside the application. *)
Definition init (admins : list AdminUser) : DB := mkDB [] [] [] admins [] 1.

(** *** Row-level security *)

Inductive table : Type :=
  t_category | t_product | t_product_variants | t_admin_users | t_store_status.

Inductive command : Type := SELECT | INSERT | UPDATE | DELETE.

Inductive policy_for : Type := FOR_ALL | FOR (c : command).

Inductive policy_expr : Type := call_is_admin | lit_true.

Record policy : Type := mkPolicy {
  pol_name : string;
  pol_table : table;
  pol_for : policy_for;
  pol_using : policy_expr;
  pol_with_check : option policy_expr
}.

Definition policies : list policy :=
  [ mkPolicy "Admins can manage product" t_product FOR_ALL
             call_is_admin (Some call_is_admin);
    mkPolicy "Users can view product" t_product (FOR SELECT) lit_true None;
    mkPolicy "Admins can manage product variants" t_product_variants FOR_ALL
             call_is_admin (Some call_is_admin);
    mkPolicy "Users can view product variants" t_product_variants (FOR SELECT)
             lit_true None;
    mkPolicy "Admins can view admin_users" t_admin_users (FOR SELECT)
             call_is_admin None;
    mkPolicy "Admins can manage admin_users" t_admin_users FOR_ALL
             call_is_admin (Some call_is_admin);
    mkPolicy "Admins can manage category" t_category FOR_ALL
             call_is_admin (Some call_is_admin);
    mkPolicy "Users can view category" t_category (FOR SELECT) lit_true None;
    mkPolicy "Users can view store status" t_store_status (FOR SELECT)
             lit_true None;
    mkPolicy "Admins can manage store status" t_store_status FOR_ALL
             call_is_admin (Some call_is_admin) ].

Definition table_eqb (a b : table) : bool :=
  match a, b with
  | t_category, t_category | t_product, t_product
  | t_product_variants, t_product_variants
  | t_admin_users, t_admin_users | t_store_status, t_store_status => true
  | _, _ => false
  end.

Definition command_eqb (a b : command) : bool :=
  match a, b with
  | SELECT, SELECT | INSERT, INSERT | UPDATE, UPDATE | DELETE, DELETE => true
  | _, _ => false
  end.

(** [public.is_admin()]; [auth.uid()] is null for an anonymous caller. *)
Definition is_admin (db : DB) (uid : option uuid) : bool :=
  match uid with
  | None => false
  | Some u => existsb (fun a => String.eqb (a_user_id a) u) (admin_users db)
  end.

Definition eval_expr (db : DB) (uid : option uuid) (e : policy_expr) : bool :=
  match e with
  | call_is_admin => is_admin db uid
  | lit_true => true
  end.

Definition applies (t : table) (c : command) (p : policy) : bool :=
  table_eqb (pol_table p) t
  && match pol_for p with
     | FOR_ALL => true
     | FOR c' => command_eqb c' c
     end.

(** The permissive policies of a command are combined with OR; with no
    applicable policy nothing is allowed. *)
Definition using_of (db : DB) (uid : option uuid) (t : table) (c : command) : bool :=
  existsb (fun p => applies t c p && eval_expr db uid (pol_using p)) policies.

Definition with_check_of (db : DB) (uid : option uuid) (t : table) (c : command) : bool :=
  existsb (fun p => applies t c p
                    && eval_expr db uid (match pol_with_check p with
                                         | Some e => e
                                         | None => pol_using p
                                         end)) policies.

(** Rows a [SELECT] returns. *)
Definition can_select db uid t : bool := using_of db uid t SELECT.

(** Rows an [UPDATE ... WHERE] or [DELETE ... WHERE] may touch: the row must
    pass the command's policies and, since the statement reads the row, the
    [SELECT] policies. *)
Definition can_modify db uid t (c : command) : bool :=
  using_of db uid t c && using_of db uid t SELECT.

(** *** Transactions

    A statement runs in a transaction of its own: it either commits or is
    rolled back as a whole.  Sequences are not transactional. *)

Definition Tx (A : Type) : Type := DB -> (pg_error + A) * DB.

Definition ret {A} (x : A) : Tx A := fun db => (inr x, db).

Definition bind {A B} (m : Tx A) (k : A -> Tx B) : Tx B :=
  fun db => match m db with
            | (inl e, db') => (inl e, db')
            | (inr x, db') => k x db'
            end.

Definition fail {A} (e : pg_error) : Tx A := fun db => (inl e, db).

Definition get : Tx DB := fun db => (inr db, db).

Definition modify (f : DB -> DB) : Tx unit := fun db => (inr tt, f db).

Definition guard (b : bool) (e : pg_error) : Tx unit :=
  if b then ret tt else fail e.

Notation "'let*' x ':=' m 'in' k" := (bind m (fun x => k))
  (at level 10, x binder, m at level 100, k at level 200).

Inductive outcome : Type :=
  | Committed (db : DB)
  | RolledBack (e : pg_error) (db : DB).

Definition run (tx : Tx unit) (db : DB) : outcome :=
  match tx db with
  | (inr _, db') => Committed db'
  | (inl e, db') => RolledBack e (set_sku_sequence (sku_sequence db') db)
  end.

Definition state_of (o : outcome) : DB :=
  match o with
  | Committed db => db
  | RolledBack _ db => db
  end.

(** *** The SKU sequence *)

Definition bigint_max : Z := 2 ^ 63 - 1.

(** [nextval('public.sku_sequence')]: START 1, INCREMENT 1. *)
Definition nextval : Tx Z :=
  fun db =>
    let n := sku_sequence db in
    if n <=? bigint_max
    then (inr n, set_sku_sequence (n + 1) db)
    else (inl sequence_limit, db).

(** [next_val::text]. *)
Definition text_of_bigint (n : Z) : string :=
  NilZero.string_of_int (Z.to_int n).

Fixpoint fill_chars (fuel : nat) (fill cur : string) (n : nat) : string :=
  match n with
  | O => EmptyString
  | S n' =>
      match cur with
      | String c cur' => String c (fill_chars fuel fill cur' n')
      | EmptyString =>
          match fuel, fill with
          | S fuel', String c cur' => String c (fill_chars fuel' fill cur' n')
          | _, _ => EmptyString
          end
      end
  end.

(** [lpad(s, len, fill)]: [s] filled on the left up to [len] characters; a
    string that is already longer is cut to its first [len] characters. *)
Definition lpad (s : string) (len : Z) (fill : string) : string :=
  let l := Z.to_nat len in
  if (l <=? String.length s)%nat
  then String.substring 0 l s
  else fill_chars l fill fill (l - String.length s) +:+ s.

Definition sku_of (next_val : Z) : string :=
  "SF-" +:+ lpad (text_of_bigint next_val) 4 "0".

(** [public.generate_sku()]. *)
Definition generate_sku : Tx string :=
  let* next_val := nextval in
  ret (sku_of next_val).

(** *** Triggers, constraints and row operations *)

Fixpoint for_each {A} (f : A -> Tx unit) (l : list A) : Tx unit :=
  match l with
  | [] => ret tt
  | x :: l' => let* _ := f x in for_each f l'
  end.

Definition variants_of (pid : uuid) (l : list ProductVariant) : list ProductVariant :=
  filter (fun v => v_product_id v = pid) l.

(** [trg_nullify_empty_category_name], BEFORE INSERT OR UPDATE ON product. *)
Definition nullify_empty_category_name (NEW : ProductRow) : ProductRow :=
  match p_category NEW with
  | Some c =>
      if String.eqb c ""
      then mkProduct (p_id NEW) (p_name NEW) (p_description NEW) None
                     (p_is_visible NEW) (p_image_url NEW) (p_last_updated NEW)
                     (p_updated_by NEW)
      else NEW
  | None => NEW
  end.

(** [trg_update_product_last_updated], BEFORE UPDATE ON product. *)
Definition update_product_last_updated (now : timestamp) (NEW : ProductRow) : ProductRow :=
  mkProduct (p_id NEW) (p_name NEW) (p_description NEW) (p_category NEW)
            (p_is_visible NEW) (p_image_url NEW) now (p_updated_by NEW).

(** [trg_update_last_updated_variant], BEFORE UPDATE ON product_variants. *)
Definition update_last_updated (now : timestamp) (NEW : ProductVariant) : ProductVariant :=
  mkVariant (v_id NEW) (v_product_id NEW) (v_sku NEW) (v_variant_type NEW)
            (v_variant_value NEW) (v_price NEW) (v_quantity NEW) now
            (v_updated_by NEW).

(** [trg_prevent_last_variant_delete], BEFORE DELETE ON product_variants,
    FOR EACH ROW.  The count is taken on the table as it is when the row is
    about to go: rows the same statement removed before are not counted. *)
Definition prevent_last_variant_delete (OLD : ProductVariant) : Tx unit :=
  let* db := get in
  guard (negb (length (variants_of (v_product_id OLD) (product_variants db)) <=? 1)%nat)
        (raise_exception "A product must have at least one variant").

(** [DELETE] of the rows [targets] of product_variants, one row at a time:
    the BEFORE DELETE trigger, then the removal.  Both a [DELETE] sent by a
    client and the delete that [ON DELETE CASCADE] issues go through here. *)
Definition delete_variant_row (OLD : ProductVariant) : Tx unit :=
  let* _ := prevent_last_variant_delete OLD in
  modify (fun db =>
    set_product_variants
      (filter (fun v => v <> OLD) (product_variants db)) db).

Definition delete_variant_rows (targets : list ProductVariant) : Tx unit :=
  for_each delete_variant_row targets.

(** The constraints of product_variants on a new row, then the row itself,
    then the foreign key to product (checked when the statement ends). *)
Definition same_variant_key (a b : ProductVariant) : Prop :=
  v_product_id a = v_product_id b
  /\ v_variant_type a = v_variant_type b
  /\ v_variant_value a = v_variant_value b.

#[global] Instance same_variant_key_dec a b : Decision (same_variant_key a b).
Proof. unfold same_variant_key. apply _. Defined.

Definition insert_variant_row (NEW : ProductVariant) : Tx unit :=
  let* db := get in
  let rows := product_variants db in
  let* _ := guard (bool_decide (v_id NEW ∉ map v_id rows))
                  (unique_violation "product_variants_pkey") in
  let* _ := guard (bool_decide (v_sku NEW ∉ map v_sku rows))
                  (unique_violation "product_variants_sku_key") in
  let* _ := guard (bool_decide (Forall (fun v => ~ same_variant_key v NEW) rows))
                  (unique_violation "unique_variant_per_product") in
  let* _ := modify (set_product_variants (rows ++ [NEW])) in
  guard (bool_decide (v_product_id NEW ∈ map p_id (product db)))
        (foreign_key_violation "product_variants_product_id_fkey").

(** [create_default_variant], AFTER INSERT ON product, SECURITY DEFINER: the
    insert is not subject to the caller's policies. *)
Definition create_default_variant (NEW : ProductRow)
    (variant_id : uuid) (now : timestamp) : Tx unit :=
  let* sku := generate_sku in
  insert_variant_row
    (mkVariant variant_id (p_id NEW) sku pcs "default" 0 0 now (p_updated_by NEW)).

Definition category_fkey (db : DB) (row : ProductRow) : bool :=
  match p_category row with
  | None => true
  | Some c => bool_decide (c ∈ map c_name (category db))
  end.

(** *** Statements *)

Record ProductPatch : Type := mkProductPatch {
  pp_name : option string;
  pp_description : option (option string);
  pp_category : option (option string);
  pp_is_visible : option bool;
  pp_image_url : option (option string);
  pp_last_updated : option timestamp;
  pp_updated_by : option (option uuid)
}.

Record VariantPatch : Type := mkVariantPatch {
  vp_sku : option string;
  vp_variant_type : option VariantType;
  vp_variant_value : option string;
  vp_price : option Z;
  vp_quantity : option Z;
  vp_updated_by : option (option uuid)
}.

Record CategoryPatch : Type := mkCategoryPatch {
  cp_name : option string;
  cp_description : option (option string)
}.

Record StoreStatusPatch : Type := mkStoreStatusPatch {
  sp_is_open : option bool;
  sp_updated_by : option (option uuid)
}.

(** No update sent by the front end assigns a key column ([id],
    [product_id]); a patch carries the other columns. *)
Definition apply_product_patch (q : ProductPatch) (r : ProductRow) : ProductRow :=
  mkProduct (p_id r)
            (default (p_name r) (pp_name q))
            (default (p_description r) (pp_description q))
            (default (p_category r) (pp_category q))
            (default (p_is_visible r) (pp_is_visible q))
            (default (p_image_url r) (pp_image_url q))
            (default (p_last_updated r) (pp_last_updated q))
            (default (p_updated_by r) (pp_updated_by q)).

Definition apply_variant_patch (q : VariantPatch) (r : ProductVariant) : ProductVariant :=
  mkVariant (v_id r) (v_product_id r)
            (default (v_sku r) (vp_sku q))
            (default (v_variant_type r) (vp_variant_type q))
            (default (v_variant_value r) (vp_variant_value q))
            (default (v_price r) (vp_price q))
            (default (v_quantity r) (vp_quantity q))
            (v_last_updated r)
            (default (v_updated_by r) (vp_updated_by q)).

Definition apply_category_patch (q : CategoryPatch) (r : Category) : Category :=
  mkCategory (c_id r)
             (default (c_name r) (cp_name q))
             (default (c_description r) (cp_description q)).

Definition apply_store_status_patch (q : StoreStatusPatch) (r : StoreStatus) : StoreStatus :=
  mkStoreStatus (s_id r)
                (default (s_is_open r) (sp_is_open q))
                (s_updated_at r)
                (default (s_updated_by r) (sp_updated_by q)).

Inductive statement : Type :=
  | InsertProduct (row : ProductRow) (variant_id : uuid) (now : timestamp)
  | UpdateProduct (id : uuid) (patch : ProductPatch) (now : timestamp)
  | DeleteProduct (id : uuid)
  | InsertVariant (row : ProductVariant)
  | UpdateVariant (id : uuid) (patch : VariantPatch) (now : timestamp)
  | DeleteVariant (id : uuid)
  | InsertCategory (row : Category)
  | UpdateCategory (id : uuid) (patch : CategoryPatch)
  | DeleteCategory (id : uuid) (now : timestamp)
  | InsertStoreStatus (row : StoreStatus)
  | UpdateStoreStatus (id : uuid) (patch : StoreStatusPatch)
  | DeleteStoreStatus (id : uuid)
  | RpcGenerateSku.

Section Statements.
(** [auth.uid()] of the caller. *)
Variable uid : option uuid.

(** [supabase.from('product').insert([row])]; [row] carries the column
    defaults already ([id], [last_updated]), [variant_id] is the id the
    default variant draws. *)
Definition insert_product (row : ProductRow) (variant_id : uuid)
    (now : timestamp) : Tx unit :=
  let NEW := nullify_empty_category_name row in
  let* db := get in
  let* _ := guard (with_check_of db uid t_product INSERT)
                  (insufficient_privilege "product") in
  let* _ := guard (bool_decide (p_id NEW ∉ map p_id (product db)))
                  (unique_violation "product_pkey") in
  let* _ := modify (set_product (product db ++ [NEW])) in
  let* _ := guard (category_fkey db NEW)
                  (foreign_key_violation "product_category_fkey") in
  create_default_variant NEW variant_id now.

Definition update_product_row (patch : ProductPatch) (now : timestamp)
    (OLD : ProductRow) : Tx unit :=
  let NEW := update_product_last_updated now
               (nullify_empty_category_name (apply_product_patch patch OLD)) in
  let* db := get in
  let* _ := guard (with_check_of db uid t_product UPDATE)
                  (insufficient_privilege "product") in
  let* _ := modify (set_product
              (map (fun p => if bool_decide (p = OLD) then NEW else p)
                   (product db))) in
  guard (category_fkey db NEW) (foreign_key_violation "product_category_fkey").

(** [supabase.from('product').update(patch).eq('id', id)]. *)
Definition update_product (id : uuid) (patch : ProductPatch)
    (now : timestamp) : Tx unit :=
  let* db := get in
  if can_modify db uid t_product UPDATE
  then for_each (update_product_row patch now)
                (filter (fun p => p_id p = id) (product db))
  else ret tt.

(** One row of product goes, and [ON DELETE CASCADE] deletes the rows of
    product_variants that reference it. *)
Definition delete_product_row (OLD : ProductRow) : Tx unit :=
  let* _ := modify (fun db =>
              set_product (filter (fun p => p <> OLD) (product db)) db) in
  let* db := get in
  delete_variant_rows (variants_of (p_id OLD) (product_variants db)).

(** [supabase.from('product').delete().eq('id', id)]. *)
Definition delete_product (id : uuid) : Tx unit :=
  let* db := get in
  if can_modify db uid t_product DELETE
  then for_each delete_product_row (filter (fun p => p_id p = id) (product db))
  else ret tt.

(** [supabase.from('product_variants').insert(row)]. *)
Definition insert_variant (row : ProductVariant) : Tx unit :=
  let* db := get in
  let* _ := guard (with_check_of db uid t_product_variants INSERT)
                  (insufficient_privilege "product_variants") in
  insert_variant_row row.

Definition update_variant_row (patch : VariantPatch) (now : timestamp)
    (OLD : ProductVariant) : Tx unit :=
  let NEW := update_last_updated now (apply_variant_patch patch OLD) in
  let* db := get in
  let others := filter (fun v => v <> OLD) (product_variants db) in
  let* _ := guard (with_check_of db uid t_product_variants UPDATE)
                  (insufficient_privilege "product_variants") in
  let* _ := guard (bool_decide (v_sku NEW ∉ map v_sku others))
                  (unique_violation "product_variants_sku_key") in
  let* _ := guard (bool_decide (Forall (fun v => ~ same_variant_key v NEW) others))
                  (unique_violation "unique_variant_per_product") in
  modify (set_product_variants
            (map (fun v => if bool_decide (v = OLD) then NEW else v)
                 (product_variants db))).

(** [supabase.from('product_variants').update(patch).eq('id', id)]. *)
Definition update_variant (id : uuid) (patch : VariantPatch)
    (now : timestamp) : Tx unit :=
  let* db := get in
  if can_modify db uid t_product_variants UPDATE
  then for_each (update_variant_row patch now)
                (filter (fun v => v_id v = id) (product_variants db))
  else ret tt.

(** [supabase.from('product_variants').delete().eq('id', id)]. *)
Definition delete_variant (id : uuid) : Tx unit :=
  let* db := get in
  if can_modify db uid t_product_variants DELETE
  then delete_variant_rows (filter (fun v => v_id v = id) (product_variants db))
  else ret tt.

(** [supabase.from('category').insert([row])]. *)
Definition insert_category (row : Category) : Tx unit :=
  let* db := get in
  let* _ := guard (with_check_of db uid t_category INSERT)
                  (insufficient_privilege "category") in
  let* _ := guard (bool_decide (c_id row ∉ map c_id (category db)))
                  (unique_violation "category_pkey") in
  let* _ := guard (bool_decide (c_name row ∉ map c_name (category db)))
                  (unique_violation "category_name_key") in
  modify (set_category (category db ++ [row])).

Definition update_category_row (patch : CategoryPatch) (OLD : Category) : Tx unit :=
  let NEW := apply_category_patch patch OLD in
  let* db := get in
  let others := filter (fun c => c <> OLD) (category db) in
  let* _ := guard (with_check_of db uid t_category UPDATE)
                  (insufficient_privilege "category") in
  let* _ := guard (bool_decide (c_name NEW ∉ map c_name others))
                  (unique_violation "category_name_key") in
  let* _ := modify (set_category
              (map (fun c => if bool_decide (c = OLD) then NEW else c)
                   (category db))) in
  guard (bool_decide (c_name NEW = c_name OLD)
         || bool_decide (Forall (fun p => p_category p <> Some (c_name OLD))
                                (product db)))
        (foreign_key_violation "product_category_fkey").

Definition update_category (id : uuid) (patch : CategoryPatch) : Tx unit :=
  let* db := get in
  if can_modify db uid t_category UPDATE
  then for_each (update_category_row patch)
                (filter (fun c => c_id c = id) (category db))
  else ret tt.

(** One row of category goes; [ON DELETE SET NULL] updates the products
    that name it, which fires the BEFORE UPDATE triggers of product. *)
Definition delete_category_row (now : timestamp) (OLD : Category) : Tx unit :=
  let* _ := modify (fun db =>
              set_category (filter (fun c => c <> OLD) (category db)) db) in
  modify (fun db =>
    set_product
      (map (fun p =>
              if bool_decide (p_category p = Some (c_name OLD))
              then update_product_last_updated now
                     (mkProduct (p_id p) (p_name p) (p_description p) None
                                (p_is_visible p) (p_image_url p)
                                (p_last_updated p) (p_updated_by p))
              else p)
           (product db)) db).

(** [supabase.from('category').delete().eq('id', id)]. *)
Definition delete_category (id : uuid) (now : timestamp) : Tx unit :=
  let* db := get in
  if can_modify db uid t_category DELETE
  then for_each (delete_category_row now)
                (filter (fun c => c_id c = id) (category db))
  else ret tt.

(** [supabase.from('store_status').insert(row)]. *)
Definition insert_store_status (row : StoreStatus) : Tx unit :=
  let* db := get in
  let* _ := guard (with_check_of db uid t_store_status INSERT)
                  (insufficient_privilege "store_status") in
  let* _ := guard (bool_decide (s_id row ∉ map s_id (store_status db)))
                  (unique_violation "store_status_pkey") in
  modify (set_store_status (store_status db ++ [row])).

Definition update_store_status_row (patch : StoreStatusPatch)
    (OLD : StoreStatus) : Tx unit :=
  let NEW := apply_store_status_patch patch OLD in
  let* db := get in
  let* _ := guard (with_check_of db uid t_store_status UPDATE)
                  (insufficient_privilege "store_status") in
  modify (set_store_status
            (map (fun r => if bool_decide (r = OLD) then NEW else r)
                 (store_status db))).

(** [supabase.from('store_status').update(patch).eq('id', id)]. *)
Definition update_store_status (id : uuid) (patch : StoreStatusPatch) : Tx unit :=
  let* db := get in
  if can_modify db uid t_store_status UPDATE
  then for_each (update_store_status_row patch)
                (filter (fun r => s_id r = id) (store_status db))
  else ret tt.

Definition delete_store_status (id : uuid) : Tx unit :=
  let* db := get in
  if can_modify db uid t_store_status DELETE
  then modify (set_store_status
                 (filter (fun r => s_id r <> id) (store_status db)))
  else ret tt.

Definition exec (st : statement) : Tx unit :=
  match st with
  | InsertProduct row variant_id now => insert_product row variant_id now
  | UpdateProduct id patch now => update_product id patch now
  | DeleteProduct id => delete_product id
  | InsertVariant row => insert_variant row
  | UpdateVariant id patch now => update_variant id patch now
  | DeleteVariant id => delete_variant id
  | InsertCategory row => insert_category row
  | UpdateCategory id patch => update_category id patch
  | DeleteCategory id now => delete_category id now
  | InsertStoreStatus row => insert_store_status row
  | UpdateStoreStatus id patch => update_store_status id patch
  | DeleteStoreStatus id => delete_store_status id
  | RpcGenerateSku => let* _ := generate_sku in ret tt
  end.

(** One request of the front end. *)
Definition request (st : statement) (db : DB) : outcome := run (exec st) db.

(** The rows a [select] of the caller sees. *)
Definition select_product (db : DB) : list ProductRow :=
    if can_select db uid t_product then product db else [].
Definition select_product_variants (db : DB) : list ProductVariant :=
    if can_select db uid t_product_variants then product_variants db else [].
Definition select_category (db : DB) : list Category :=
    if can_select db uid t_category then category db else [].
Definition select_store_status (db : DB) : list StoreStatus :=
    if can_select db uid t_store_status then store_status db else [].
End Statements.

(** The operations of the catalog store, as the front end performs them. *)
Definition createProduct uid row variant_id now := request uid (InsertProduct row variant_id now).
Definition deleteProduct uid id := request uid (DeleteProduct id).
Definition deleteVariant uid id := request uid (DeleteVariant id).
Definition generateSku uid := request uid RpcGenerateSku.

(** States the store can be in. *)
Inductive reachable : DB -> Prop :=
  | reachable_init admins : reachable (init admins)
  | reachable_step db uid st :
      reachable db -> reachable (state_of (request uid st db)).

End Pg.


(** ** The public dashboard's store status *)

Module UserDashboard.

(** [{ data, error }] of a query. *)
Record response : Type := mkResponse {
    data : option (list bool);
    error : option string
  }.

(** [ORDER BY updated_at DESC]: a null sorts as larger than every value,
    so it comes first. *)
Definition updated_at_le (a b : option timestamp) : bool :=
  match a, b with
  | _, None => true
  | None, Some _ => false
  | Some x, Some y => x <=? y
  end.

(** [ORDER BY updated_at DESC LIMIT 1]: a row no other row is above. *)
Fixpoint newest (rows : list Pg.StoreStatus) : option Pg.StoreStatus :=
  match rows with
  | [] => None
  | r :: rows' =>
      match newest rows' with
      | None => Some r
      | Some m =>
          if updated_at_le (Pg.s_updated_at m) (Pg.s_updated_at r)
          then Some r else Some m
      end
  end.

(** [supabase.from('store_status').select('is_open')
      .order('updated_at', { ascending: false }).limit(1)], answered. *)
Definition query_store_status (uid : option uuid) (db : Pg.DB) : response :=
  mkResponse
    (Some (map Pg.s_is_open (option_list (newest (Pg.select_store_status uid db)))))
    None.

(** The value [fetchStoreStatus] passes to [setStoreStatus]. *)
Definition fetchStoreStatus (r : response) : bool :=
  match error r with
  | Some _ => true
  | None =>
      match data r with
      | Some (is_open :: _) => is_open
      | _ => true
      end
  end.

Definition effectiveStoreStatus (uid : option uuid) (db : Pg.DB) : bool :=
  fetchStoreStatus (query_store_status uid db).

End UserDashboard.

(** ** Sample data *)

Module Sample.

Definition variant (id : uuid) (ty : VariantType) (value : string) (p : Z)
  : ProductVariant :=
  mkVariant id "p1" ("SKU-" +:+ id) ty value p 0 0 None.

Definition values (l : list ProductVariant) : list string := map v_variant_value l.

Definition kg1 := variant "a" weight "1kg" 10.
Definition g500 := variant "b" pcs "500g" 10.
Definition kg2 := variant "c" pcs "2kg" 10.

Definition rs50 := variant "a" price "Rs.50" 50.
Definition rs6 := variant "b" price "Rs.6" 6.
Definition priced := mkProductView "p1" true [rs50; rs6].

Definition admin : option uuid := Some "u1".
Definition visitor : option uuid := Some "u2".
Definition db0 : Pg.DB := Pg.init [Pg.mkAdmin "a1" "u1"].
Definition product_row (id : uuid) : Pg.ProductRow :=
    Pg.mkProduct id "Gulab Jamun" None None true None 0 None.
Definition db1 : Pg.DB :=
    Pg.state_of (Pg.createProduct admin (product_row "p1") "v1" 5 db0).
Definition extra : ProductVariant :=
    mkVariant "v2" "p1" "SF-0002" weight "250g" 120 4 6 admin.
Definition db2 : Pg.DB :=
    Pg.state_of (Pg.request admin (Pg.InsertVariant extra) db1).

End Sample.

(** ** Notions used to state the resolver's properties *)

(** [compareVariants] with one parser for both modes. *)
Definition compareBy (parse : string -> option Q)
  : ProductVariant -> ProductVariant -> Q :=
  compareVariants parse parse.

Definition precedes (parse : string -> option Q) (a b : ProductVariant) : Prop :=
  (compareBy parse a b <= 0)%Q.

(** What ECMAScript asks of [localeCompare], taken as a function of two
    strings: to be a consistent comparator that defines a total ordering of
    the strings.  Only the sign of a result counts. *)
Definition consistent_comparator (localeCompare : string -> string -> Z) : Prop :=
  (forall a b, localeCompare a b < 0 <-> 0 < localeCompare b a)
  /\ (forall a b c, localeCompare a b <= 0 -> localeCompare b c <= 0 ->
                    localeCompare a c <= 0).

(** [compareVariantsWith] with one parser for both modes. *)
Definition compareByWith (localeCompare : string -> string -> Z)
    (parse : string -> option Q) : ProductVariant -> ProductVariant -> Q :=
  compareVariantsWith parse parse localeCompare.

Definition is_weight (v : ProductVariant) : Prop := v_variant_type v = weight.

#[global] Instance is_weight_dec v : Decision (is_weight v).
Proof. unfold is_weight. apply _. Defined.

(** The parser a comparison of [a] with [b] uses. *)
Definition pairParser (parseNumericValue : string -> option Q)
    (a b : ProductVariant) : string -> option Q :=
  if bool_decide (is_weight a \/ is_weight b)
  then parseWeightInGrams else parseNumericValue.

(** The reading of the spec: one parser for the whole list, the weight
    normalizer as soon as one variant of the list has type weight. *)
Definition parsed_per_set (cmp : ProductVariant -> ProductVariant -> Q)
    (parseNumericValue : string -> option Q) (l : list ProductVariant) : Prop :=
  forall a b, a ∈ l -> b ∈ l ->
    (cmp a b == compareBy (if bool_decide (Exists is_weight l)
                           then parseWeightInGrams
                           else parseNumericValue) a b)%Q.

Definition transitive_on (cmp : ProductVariant -> ProductVariant -> Q)
    (l : list ProductVariant) : Prop :=
  forall a b c, a ∈ l -> b ∈ l -> c ∈ l ->
    (cmp a b <= 0)%Q -> (cmp b c <= 0)%Q -> (cmp a c <= 0)%Q.

(** ** Notions used to state the store's properties *)

Module Integrity.
Import Pg.

(** The spec's error kinds, as the errors of the store surface. *)
Inductive error_kind : Type :=
  | NotAuthorized | UniquenessViolation | ReferentialError
  | InvariantViolation | StoreError.

Definition kind_of (e : pg_error) : error_kind :=
  match e with
  | insufficient_privilege _ => NotAuthorized
  | unique_violation _ => UniquenessViolation
  | foreign_key_violation _ => ReferentialError
  | raise_exception _ => InvariantViolation
  | sequence_limit => StoreError
  end.

(** What the integrity of products and variants depends on. *)
Definition keys (db : DB) : list uuid * list uuid * list uuid :=
  (map p_id (product db),
   map v_id (product_variants db),
   map v_product_id (product_variants db)).

(** Primary keys are unique, every variant references a product, and every
    product is referenced by a variant. *)
Record wf (db : DB) : Prop := mkWf {
  wf_product_pkey : NoDup (map p_id (product db));
  wf_variant_pkey : NoDup (map v_id (product_variants db));
  wf_variant_fkey :
    forall pid, pid ∈ map v_product_id (product_variants db) ->
                pid ∈ map p_id (product db);
  wf_nonempty :
    forall pid, pid ∈ map p_id (product db) ->
                pid ∈ map v_product_id (product_variants db)
}.

Definition mutates_rows (st : statement) : bool :=
  match st with
  | RpcGenerateSku => false
  | _ => true
  end.

Definition is_insert (st : statement) : bool :=
  match st with
  | InsertProduct _ _ _ | InsertVariant _ | InsertCategory _
  | InsertStoreStatus _ => true
  | _ => false
  end.

Definition table_name (t : table) : string :=
  match t with
  | t_category => "category"
  | t_product => "product"
  | t_product_variants => "product_variants"
  | t_admin_users => "admin_users"
  | t_store_status => "store_status"
  end.

Definition target_table (st : statement) : table :=
  match st with
  | InsertProduct _ _ _ | UpdateProduct _ _ _ | DeleteProduct _ => t_product
  | InsertVariant _ | UpdateVariant _ _ _ | DeleteVariant _
  | RpcGenerateSku => t_product_variants
  | InsertCategory _ | UpdateCategory _ _ | DeleteCategory _ _ => t_category
  | InsertStoreStatus _ | UpdateStoreStatus _ _ | DeleteStoreStatus _ =>
      t_store_status
  end.

Definition default_variant (row : ProductRow) (variant_id : uuid)
    (now : timestamp) (next_val : Z) : ProductVariant :=
  mkVariant variant_id (p_id row) (sku_of next_val) pcs "default" 0 0 now
            (p_updated_by row).

Definition touches_keys (st : statement) : bool :=
  match st with
  | InsertProduct _ _ _ | DeleteProduct _ | InsertVariant _ | DeleteVariant _ =>
      true
  | _ => false
  end.

Definition last_variant_message : string :=
  "A product must have at least one variant".

End Integrity.

(** ** Notions used to state further properties *)

(** Either every variant has type weight or none has. *)
Definition uniform (l : list ProductVariant) : Prop :=
  Forall is_weight l \/ Forall (fun v => ~ is_weight v) l.

(** ** The stored selection of the catalog page *)

Module IndexPage.

(** Whether [next[item.id]] is truthy: [undefined] and the empty string are
    not. *)
Definition truthy (x : option string) : bool :=
  match x with
  | Some s => negb (String.eqb s "")
  | None => false
  end.

(** [Object.keys(next).forEach(...)]: the entries of products that are no
    longer listed are deleted; the flag is [changed]. *)
Definition dropUnknown (itemIds : gset string) (prev : gmap string string)
  : gmap string string * bool :=
  (filter (fun kv => kv.1 ∈ itemIds) prev,
   negb (bool_decide (dom prev ⊆ itemIds))).

(** The body of [items.forEach((item) => ...)] on [next] and [changed]. *)
Definition reconcileItem (st : gmap string string * bool) (item : Product)
  : gmap string string * bool :=
  let '(next, changed) := st in
  let sorted := Index.sortVariants (pv_variants item) in
  match sorted with
  | [] =>
      if truthy (next !! pv_id item)
      then (delete (pv_id item) next, true)
      else (next, changed)
  | first :: _ =>
      let current := next !! pv_id item in
      let exists_ :=
        match current with
        | Some c =>
            if truthy current
            then existsb (fun variant => String.eqb (v_id variant) c) sorted
            else false
        | None => false
        end in
      if exists_ then (next, changed)
      else (<[pv_id item := v_id first]> next, true)
  end.

(** The updater passed to [setSelectedVariants] in the effect on [items]. *)
Definition reconcile (items : list Product) (prev : gmap string string)
  : gmap string string :=
  let itemIds : gset string := list_to_set (map pv_id items) in
  let '(next, changed) := foldl reconcileItem (dropUnknown itemIds prev) items in
  if changed then next else prev.

(** [handleVariantSelect]. *)
Definition handleVariantSelect (itemId variantId : string)
    (prev : gmap string string) : gmap string string :=
  <[itemId := variantId]> prev.

End IndexPage.

(** The entry the effect leaves for an item whose sorted variants are
    [sorted] and whose entry was [x]. *)
Definition settled (sorted : list ProductVariant) (x : option string)
  : option string :=
  match sorted with
  | [] => if IndexPage.truthy x then None else x
  | first :: _ =>
      match x with
      | Some c =>
          if IndexPage.truthy x
             && existsb (fun variant => String.eqb (v_id variant) c) sorted
          then x else Some (v_id first)
      | None => Some (v_id first)
      end
  end.

(** ** The declared constraints of the schema *)

Module Constraints.
Import Pg.

(** The columns of [unique_variant_per_product]. *)
Definition variant_key (v : ProductVariant) : uuid * VariantType * string :=
  (v_product_id v, v_variant_type v, v_variant_value v).

(** [sku text not null unique] and [unique (product_id, variant_type,
    variant_value)]. *)
Definition variants_ok (vs : list ProductVariant) : Prop :=
  NoDup (map v_sku vs) /\ NoDup (map variant_key vs).

(** [id uuid primary key] and [name text not null unique] of category. *)
Definition categories_ok (cs : list Category) : Prop :=
  NoDup (map c_id cs) /\ NoDup (map c_name cs).

(** [category text references public.category(name)], and no empty string
    as a category. *)
Definition products_ok (cs : list Category) (ps : list ProductRow) : Prop :=
  forall p, p ∈ ps ->
    p_category p <> Some ""
    /\ forall c, p_category p = Some c -> c ∈ map c_name cs.

(** [id uuid primary key] of store_status. *)
Definition statuses_ok (ss : list StoreStatus) : Prop := NoDup (map s_id ss).

Record holds (db : DB) : Prop := mkHolds {
  holds_variants : variants_ok (product_variants db);
  holds_categories : categories_ok (category db);
  holds_products : products_ok (category db) (product db);
  holds_statuses : statuses_ok (store_status db)
}.

End Constraints.

(** What the text of the SKU of counter [k] is checked for: seven
    characters, the prefix, and digits that give [k] back. *)
Definition sku_checked (k : nat) : bool :=
  let n := Z.of_nat k in
  let s := Pg.sku_of n in
  (String.length s =? 7)%nat
  && String.eqb (String.substring 0 3 s) "SF-"
  && (Js.digitsValue 0 (String.substring 3 4 s) =? n).


(** ** Texts and numbers of the forms *)

Module JsText.

(** White space and line terminators of ECMAScript, within ASCII: tab, line
    feed, vertical tab, form feed, carriage return and the space. *)
Definition isWhiteSpace (c : ascii) : bool :=
  let n := nat_of_ascii c in
  ((9 <=? n)%nat && (n <=? 13)%nat) || (n =? 32)%nat.

Fixpoint trimStart (s : string) : string :=
  match s with
  | EmptyString => EmptyString
  | String c t => if isWhiteSpace c then trimStart t else s
  end.

Fixpoint trimEnd (s : string) : string :=
  match s with
  | EmptyString => EmptyString
  | String c t =>
      match trimEnd t with
      | EmptyString =>
          if isWhiteSpace c then EmptyString else String c EmptyString
      | t' => String c t'
      end
  end.

(** [String.prototype.trim]. *)
Definition trim (s : string) : string := trimEnd (trimStart s).

(** [Number.prototype.toString()] of an integer of magnitude below 10^21,
    as every value of an integer column is: its decimal digits, with a minus
    sign below zero. *)
Definition toString (n : Z) : string := NilZero.string_of_int (Z.to_int n).

(** [parseInt(s, 10)]: leading white space is skipped, then a sign, then
    the longest run of digits is read and whatever follows is ignored; [None]
    is NaN, the result when there is no digit.  The value is exact up to
    2^53. *)
Definition parseInt (s : string) : option Z :=
  let s1 := trimStart s in
  let '(sign, s2) :=
    match s1 with
    | String "-"%char t => (-1, t)
    | String "+"%char t => (1, t)
    | _ => (1, s1)
    end in
  match fst (Js.digitRun s2) with
  | EmptyString => None
  | ds => Some (sign * Js.digitsValue 0 ds)
  end.

Definition toUpperChar (c : ascii) : ascii :=
  let n := nat_of_ascii c in
  if (97 <=? n)%nat && (n <=? 122)%nat then ascii_of_nat (n - 32) else c.

End JsText.

(** ** Actions of the admin dashboard on single rows
    ([src/pages/AdminDashboard.tsx]) *)

Module AdminActions.
Import Pg.

(** What a handler did: it stopped at its own validation, or it sent the
    request and got the outcome. *)
Inductive result : Type :=
  | Invalid
  | Sent (o : outcome).

(** [{ is_visible: isVisible, updated_by: profile?.id ?? null }]. *)
Definition visibilityPatch (isVisible : bool) (profile : option uuid) : ProductPatch :=
  mkProductPatch None None None (Some isVisible) None None (Some profile).

(** [handleVisibilityToggle(item, isVisible)]. *)
Definition handleVisibilityToggle (uid profile : option uuid) (item_id : uuid)
    (isVisible : bool) (now : timestamp) (db : DB) : outcome :=
  request uid (UpdateProduct item_id (visibilityPatch isVisible profile) now) db.

(** [openQuantityDialog(item, variant)] on a variant: the text the dialog
    starts with. *)
Definition openQuantityDialog (variant : ProductVariant) : string :=
  JsText.toString (v_quantity variant).

(** [{ quantity: qty, updated_by: profile?.id ?? null }]. *)
Definition quantityPatch (qty : Z) (profile : option uuid) : VariantPatch :=
  mkVariantPatch None None None None (Some qty) (Some profile).

(** [handleQuantityUpdate] with a variant in [quantityEditItem]. *)
Definition handleQuantityUpdate (uid profile : option uuid)
    (variant : ProductVariant) (newQuantity : string) (now : timestamp)
    (db : DB) : result :=
  match JsText.parseInt newQuantity with
  | None => Invalid
  | Some qty =>
      if qty <? 0 then Invalid
      else Sent (request uid (UpdateVariant (v_id variant)
                                (quantityPatch qty profile) now) db)
  end.

(** [handleRemoveCategory] with [selectedCategoryId] set. *)
Definition handleRemoveCategory (uid : option uuid) (selectedCategoryId : uuid)
    (now : timestamp) (db : DB) : outcome :=
  request uid (DeleteCategory selectedCategoryId now) db.

End AdminActions.

(** ** The catalog of the public page: what is fetched and what a search
    keeps ([src/pages/Index.tsx]) *)

Module IndexItems.
Import Pg.

(** An element of [items]: a row of product with its [variants]. *)
Record Item : Type := mkItem {
  item_row : ProductRow;
  item_variants : list ProductVariant
}.

(** The item as the resolver and the selection see it; the query selects no
    [has_variants]. *)
Definition view (item : Item) : Product :=
  mkProductView (p_id (item_row item)) false (item_variants item).

Section FetchItems.
(** [.order('name', { ascending: true })] and [.order('variant_value',
    { referencedTable: 'product_variants', ascending: true })]: the order is
    that of the database's collation. *)
Variable order_name : list ProductRow -> list ProductRow.
Variable order_value : list ProductVariant -> list ProductVariant.

(** The answer to the query, every product with its embedded variants,
    mapped to [normalizedItems]. *)
Definition normalizedItems (uid : option uuid) (db : DB) : list Item :=
  map (fun p =>
         mkItem p (order_value
                     (variants_of (p_id p) (select_product_variants uid db))))
      (order_name (select_product uid db)).

(** What [fetchItems] passes to [setItems] and [setFilteredItems]. *)
Definition fetchItems (uid : option uuid) (db : DB) : list Item :=
  List.filter (fun item => p_is_visible (item_row item)) (normalizedItems uid db).

End FetchItems.

(** The text of a [variant_type]. *)
Definition variant_type_text (t : VariantType) : string :=
  match t with
  | weight => "weight"
  | pcs => "pcs"
  | price => "price"
  | flavor => "flavor"
  | size => "size"
  end.

(** [x && x.toLowerCase().includes(query)] on a nullable text. *)
Definition textMatches (query : string) (x : option string) : bool :=
  match x with
  | Some s => negb (String.eqb s "") && Js.includes (Js.toLowerCase s) query
  | None => false
  end.

Definition matchesItem (query : string) (item : Item) : bool :=
  Js.includes (Js.toLowerCase (p_name (item_row item))) query
  || textMatches query (p_category (item_row item))
  || textMatches query (p_description (item_row item)).

Definition matchesVariant (query : string) (variant : ProductVariant) : bool :=
  let value := Js.toLowerCase (v_variant_value variant) in
  let sku := Js.toLowerCase (v_sku variant) in
  let type := Js.toLowerCase (variant_type_text (v_variant_type variant)) in
  Js.includes value query
  || Js.includes sku query
  || Js.includes type query
  || Js.includes (JsText.toString (v_price variant)) query
  || Js.includes (JsText.toString (v_quantity variant)) query.

(** The effect on [searchQuery] and [items]: what it passes to
    [setFilteredItems]. *)
Definition filteredItems (searchQuery : string) (items : list Item) : list Item :=
  if String.eqb (JsText.trim searchQuery) ""
  then items
  else
    let query := Js.toLowerCase searchQuery in
    List.filter
      (fun item =>
         matchesItem query item
         || existsb (matchesVariant query) (item_variants item))
      items.

End IndexItems.

(** A text made of white space only. *)
Definition blank (s : string) : Prop := JsText.trim s = "".

(** A text of ASCII characters: on these the folding of letters and the
    white space of [Js] and [JsText] are those of JavaScript. *)
Definition ascii_text (s : string) : Prop :=
  Forall (fun c => (nat_of_ascii c < 128)%nat) (list_ascii_of_string s).

(** A row that [ORDER BY updated_at DESC LIMIT 1] may return: a row of the
    table that no row is above. *)
Definition may_come_first (rows : list Pg.StoreStatus) (m : Pg.StoreStatus) : Prop :=
  m ∈ rows
  /\ forall r, r ∈ rows ->
       UserDashboard.updated_at_le (Pg.s_updated_at r) (Pg.s_updated_at m) = true.

(** ** The daily opening and closing timers
    ([scheduleStoreUpdates] of [src/pages/AdminDashboard.tsx])

    A [Date] is its local time in milliseconds, counted from a local
    midnight; the clock of the browser is taken to keep one offset from UTC
    (no daylight saving change between [now] and the target). *)

Module Schedule.

Definition msPerMinute : Z := 60000.
Definition msPerHour : Z := 3600000.
Definition msPerDay : Z := 86400000.

Definition getHours (d : Z) : Z := (d mod msPerDay) / msPerHour.
Definition getMinutes (d : Z) : Z := (d mod msPerHour) / msPerMinute.

(** [d.setHours(h, m, 0, 0)]. *)
Definition setHours (h m : Z) (d : Z) : Z :=
  d - d mod msPerDay + h * msPerHour + m * msPerMinute.

(** [d.setDate(d.getDate() + 1)]. *)
Definition nextDate (d : Z) : Z := d + msPerDay.

(** [msUntilOpen] and [msUntilClose]: the same computation on the open and on
    the close time. *)
Definition msUntil (hour minute : Z) (now : Z) : Z :=
  let currentHour := getHours now in
  let currentMinute := getMinutes now in
  if (currentHour <? hour)
     || ((currentHour =? hour) && (currentMinute <? minute))
  then setHours hour minute now - now
  else setHours hour minute (nextDate now) - now.

Definition openHour : Z := 8.
Definition openMinute : Z := 35.
Definition closeHour : Z := 21.
Definition closeMinute : Z := 35.

(** The delays of the two timers, [(msUntilOpen, msUntilClose)]. *)
Definition scheduleStoreUpdates (now : Z) : Z * Z :=
  (msUntil openHour openMinute now, msUntil closeHour closeMinute now).

(** The time of day of [d], in milliseconds. *)
Definition timeOfDay (d : Z) : Z := d mod msPerDay.

End Schedule.

(** ** The store status on the admin dashboard
    ([fetchStoreStatus] and [handleStoreStatusToggle] of
    [src/pages/AdminDashboard.tsx]) *)

Module AdminStore.
Import Pg.

(** [storeStatusId] and [storeStatus]. *)
Record view : Type := mkView {
  storeStatusId : option uuid;
  storeStatus : option bool
}.

(** [supabase.from('store_status').insert({ is_open, updated_by })
      .select('id, is_open').single()]; [new_id] and [now] are the defaults
    of [id] and [updated_at]. *)
Definition insertStatus (uid profile : option uuid) (new_id : uuid)
    (now : timestamp) (is_open : bool) : DB -> outcome :=
  request uid (InsertStoreStatus (mkStoreStatus new_id is_open (Some now) profile)).

(** [fetchStoreStatus]: the newest row is shown, and when there is none a
    row that says open is inserted; on an error the view stays. *)
Definition fetchStoreStatus (uid profile : option uuid) (new_id : uuid)
    (now : timestamp) (s : view) (db : DB) : view * DB :=
  match UserDashboard.newest (select_store_status uid db) with
  | Some row => (mkView (Some (s_id row)) (Some (s_is_open row)), db)
  | None =>
      match insertStatus uid profile new_id now true db with
      | Committed db' => (mkView (Some new_id) (Some true), db')
      | RolledBack _ db' => (s, db')
      end
  end.

(** [handleStoreStatusToggle(nextState)]. *)
Definition handleStoreStatusToggle (uid profile : option uuid) (new_id : uuid)
    (now : timestamp) (nextState : bool) (s : view) (db : DB) : view * DB :=
  let previousState := default false (storeStatus s) in
  let failed db' := (mkView (storeStatusId s) (Some previousState), db') in
  match storeStatusId s with
  | Some id =>
      if IndexPage.truthy (Some id)
      then
        match request uid
                (UpdateStoreStatus id
                   (mkStoreStatusPatch (Some nextState) (Some profile))) db with
        | Committed db' => (mkView (storeStatusId s) (Some nextState), db')
        | RolledBack _ db' => failed db'
        end
      else
        match insertStatus uid profile new_id now nextState db with
        | Committed db' => (mkView (Some new_id) (Some nextState), db')
        | RolledBack _ db' => failed db'
        end
  | None =>
      match insertStatus uid profile new_id now nextState db with
      | Committed db' => (mkView (Some new_id) (Some nextState), db')
      | RolledBack _ db' => failed db'
      end
  end.

End AdminStore.

(** ** The forms *)

(** [CategoryForm]: the name that [onSubmit] stores. *)
Module CategoryForm.

Definition nameOf (name : string) : string := Js.toLowerCase name.

End CategoryForm.

(** [src/components/InventoryForm.tsx] *)
Module InventoryForm.

(** [str.split(' ')]. *)
Fixpoint split (s : string) : list string :=
  match s with
  | EmptyString => [EmptyString]
  | String c t =>
      if Ascii.eqb c " "
      then EmptyString :: split t
      else match split t with
           | w :: ws => String c w :: ws
           | [] => [String c EmptyString]
           end
  end.

(** [word.charAt(0).toUpperCase() + word.slice(1)]. *)
Definition capitalize (word : string) : string :=
  match word with
  | EmptyString => EmptyString
  | String c t => String (JsText.toUpperChar c) t
  end.

(** [words.join(' ')]. *)
Fixpoint join (words : list string) : string :=
  match words with
  | [] => EmptyString
  | [w] => w
  | w :: ws => w +:+ String " " (join ws)
  end.

Definition toTitleCase (str : string) : string :=
  join (map capitalize (split (Js.toLowerCase str))).

End InventoryForm.

(** [ProductForm], the form behind "Add New Product" and "Edit Product". *)
Module ProductForm.
Import Pg.

(** The characters before which [/(?:^|\s|-|\()([a-z])/g] finds a letter. *)
Definition isBoundary (c : ascii) : bool :=
  JsText.isWhiteSpace c || Ascii.eqb c "-" || Ascii.eqb c "(".

Definition isLowerLetter (c : ascii) : bool :=
  let n := nat_of_ascii c in (97 <=? n)%nat && (n <=? 122)%nat.

(** [s.replace(/(?:^|\s|-|\()([a-z])/g, (match) => match.toUpperCase())]:
    [atBoundary] tells that the text starts here or that the character
    before is one of the three kinds.  A match ends with its letter, so no
    match takes the character another one needs. *)
Fixpoint replaceInitials (atBoundary : bool) (s : string) : string :=
  match s with
  | EmptyString => EmptyString
  | String c t =>
      String (if atBoundary && isLowerLetter c then JsText.toUpperChar c else c)
             (replaceInitials (isBoundary c) t)
  end.

Definition toTitleCase (str : string) : string :=
  replaceInitials true (Js.toLowerCase str).

(** [typeof x === 'string' ? x.trim() : ''], then [null] for the empty
    text. *)
Definition trimmedOrNull (x : option string) : option string :=
  let value := match x with
               | Some s => JsText.trim s
               | None => EmptyString
               end in
  if String.eqb value "" then None else Some value.

(** [category] of [productData]. *)
Definition categoryOf (category : option string) : option string :=
  option_map Js.toLowerCase (trimmedOrNull category).

(** An element of [data.variants], as [variantSchema] lets it through. *)
Record VariantInput : Type := mkVariantInput {
  in_variant_type : VariantType;
  in_variant_value : string;
  in_price : Z;
  in_quantity : Z
}.

(** [ProductFormData]; [productSchema] asks for one variant at least:
    [fd_first] is [data.variants[0]] and [fd_more] is
    [data.variants.slice(1)]. *)
Record ProductFormData : Type := mkProductFormData {
  fd_name : string;
  fd_description : option string;
  fd_category : option string;
  fd_is_visible : bool;
  fd_image_url : option string;
  fd_first : VariantInput;
  fd_more : list VariantInput
}.

(** What the database draws while the form is saved: the ids
    ([gen_random_uuid()]) and the times ([now()]) of its statements. *)
Record Draws : Type := mkDraws {
  new_product_id : uuid;
  default_variant_id : uuid;
  variant_id_at : nat -> uuid;
  now_insert : timestamp;
  now_update : timestamp;
  now_at : nat -> timestamp
}.

(** [productData], with the defaults of [id] and [last_updated]. *)
Definition productData (profile : option uuid) (data : ProductFormData)
    (draws : Draws) : ProductRow :=
  mkProduct (new_product_id draws)
            (toTitleCase (JsText.trim (fd_name data)))
            (trimmedOrNull (fd_description data))
            (categoryOf (fd_category data))
            (fd_is_visible data)
            (trimmedOrNull (fd_image_url data))
            (now_insert draws)
            profile.

(** Why saving stopped: an error of the database, or [.single()] on a
    result that is not one row. *)
Inductive failure : Type :=
  | Rejected (e : pg_error)
  | NotOneRow.

(** How [onSubmit] ends, and the state it leaves: the toast 'Success', or
    the toast 'Error'. *)
Inductive saved : Type :=
  | Done (db : DB)
  | Failed (f : failure) (db : DB).

Definition state_after (r : saved) : DB :=
  match r with
  | Done db => db
  | Failed _ db => db
  end.

(** [.single()]. *)
Definition single {A} (rows : list A) : option A :=
  match rows with
  | [row] => Some row
  | _ => None
  end.

(** The row that the insert of [variant] asks for. *)
Definition variantRow (profile : option uuid) (draws : Draws)
    (product_id : uuid) (k : nat) (skuData : string) (variant : VariantInput)
  : ProductVariant :=
  mkVariant (variant_id_at draws k) product_id skuData
            (in_variant_type variant) (in_variant_value variant)
            (in_price variant) (in_quantity variant)
            (now_at draws k) profile.

(** [for (const variant of data.variants.slice(1))]: a call of
    [generate_sku], in a transaction of its own, then the insert. *)
Fixpoint insertMore (uid profile : option uuid) (draws : Draws)
    (product_id : uuid) (k : nat) (more : list VariantInput) (db : DB) : saved :=
  match more with
  | [] => Done db
  | variant :: more' =>
      match generate_sku db with
      | (inl e, db1) => Failed (Rejected e) db1
      | (inr skuData, db1) =>
          match request uid
                  (InsertVariant
                     (variantRow profile draws product_id k skuData variant))
                  db1 with
          | RolledBack e db2 => Failed (Rejected e) db2
          | Committed db2 =>
              insertMore uid profile draws product_id (S k) more' db2
          end
      end
  end.

(** The patch that turns the default variant into [data.variants[0]]. *)
Definition firstPatch (profile : option uuid) (variant : VariantInput) : VariantPatch :=
  mkVariantPatch None
                 (Some (in_variant_type variant))
                 (Some (in_variant_value variant))
                 (Some (in_price variant))
                 (Some (in_quantity variant))
                 (Some profile).

(** [onSubmit] without an [item]: the product is created. *)
Definition onSubmit (uid profile : option uuid) (draws : Draws)
    (data : ProductFormData) (db : DB) : saved :=
  let productRow := productData profile data draws in
  match request uid
          (InsertProduct productRow (default_variant_id draws)
             (now_insert draws)) db with
  | RolledBack e db1 => Failed (Rejected e) db1
  | Committed db1 =>
      match single (variants_of (p_id productRow)
                      (select_product_variants uid db1)) with
      | None => Failed NotOneRow db1
      | Some autoVariant =>
          match request uid
                  (UpdateVariant (v_id autoVariant)
                     (firstPatch profile (fd_first data))
                     (now_update draws)) db1 with
          | RolledBack e db2 => Failed (Rejected e) db2
          | Committed db2 =>
              insertMore uid profile draws (p_id productRow) 0
                (fd_more data) db2
          end
      end
  end.

(** The variants the form asks for, as rows: the first one in the place
    of the default variant, with the SKU of counter [n], the others with the
    SKUs of the counters that follow. *)
Fixpoint moreRows (profile : option uuid) (draws : Draws) (product_id : uuid)
    (k : nat) (n : Z) (more : list VariantInput) : list ProductVariant :=
  match more with
  | [] => []
  | variant :: more' =>
      variantRow profile draws product_id k (sku_of n) variant
      :: moreRows profile draws product_id (S k) (n + 1) more'
  end.

Definition firstRow (profile : option uuid) (draws : Draws) (n : Z)
    (variant : VariantInput) : ProductVariant :=
  mkVariant (default_variant_id draws) (new_product_id draws) (sku_of n)
            (in_variant_type variant) (in_variant_value variant)
            (in_price variant) (in_quantity variant)
            (now_update draws) profile.

Definition formRows (profile : option uuid) (draws : Draws) (n : Z)
    (data : ProductFormData) : list ProductVariant :=
  firstRow profile draws n (fd_first data)
  :: moreRows profile draws (new_product_id draws) 0 (n + 1) (fd_more data).

(** The numbers of a variant fit the integer columns. *)
Definition fits (variant : VariantInput) : Prop :=
  0 <= in_price variant <= 2147483647
  /\ 0 <= in_quantity variant <= 2147483647.

End ProductForm.

(** A form with two variants, and what the database draws for it. *)
Module SampleForm.

Definition draws : ProductForm.Draws :=
  ProductForm.mkDraws "p2" "v7" (fun _ => "v8") 10 11 (fun _ => 12).

Definition data : ProductForm.ProductFormData :=
  ProductForm.mkProductFormData " kaju katli" None None true None
    (ProductForm.mkVariantInput weight "250g" 120 5)
    [ProductForm.mkVariantInput weight "500g" 230 3].

(** The same form with the second variant equal to the first. *)
Definition twice : ProductForm.ProductFormData :=
  ProductForm.mkProductFormData " kaju katli" None None true None
    (ProductForm.mkVariantInput weight "250g" 120 5)
    [ProductForm.mkVariantInput weight "250g" 120 5].

End SampleForm.

(** A store with two categories, a product filed under one of them, a
    product that was sent with an empty category, and two status rows. *)
Module SampleStore.
Import Pg.

Definition sweets : Category := mkCategory "c1" "sweets" None.
Definition namkeen : Category := mkCategory "c2" "namkeen" None.
Definition barfi : ProductRow :=
  mkProduct "p3" "Barfi" None (Some "sweets") true None 0 None.
Definition sev_sent : ProductRow :=
  mkProduct "p4" "Sev" None (Some "") true None 0 None.
Definition sev : ProductRow :=
  mkProduct "p4" "Sev" None None true None 0 None.
Definition opened : StoreStatus := mkStoreStatus "s1" true (Some 3) Sample.admin.
Definition closed : StoreStatus := mkStoreStatus "s2" false (Some 4) Sample.admin.

Definition requests : list statement :=
  [InsertCategory sweets; InsertCategory namkeen;
   InsertProduct barfi "v3" 7; InsertProduct sev_sent "v4" 8;
   InsertStoreStatus opened; InsertStoreStatus closed].

Definition db : DB :=
  foldl (fun d st => state_of (request Sample.admin st d)) Sample.db1 requests.

(** A stock below zero, which the integer column takes: the variant of
    [Sample.db2] after an update sent to the table directly. *)
Definition owed : ProductVariant :=
  mkVariant "v2" "p1" "SF-0002" weight "250g" 120 (-3) 9 Sample.admin.
Definition db_owed : DB :=
  state_of (request Sample.admin
              (UpdateVariant "v2" (AdminActions.quantityPatch (-3) Sample.admin) 9)
              Sample.db2).

End SampleStore.

(** * Properties of the resolver *)

(** ** Strings *)

Lemma ascii_compare_refl (a : ascii) : Ascii.compare a a = Eq.
Proof. unfold Ascii.compare. apply N.compare_refl. Qed.

Lemma ascii_compare_lt_trans (a b c : ascii) :
  Ascii.compare a b = Lt -> Ascii.compare b c = Lt -> Ascii.compare a c = Lt.
Proof.
  unfold Ascii.compare. rewrite !N.compare_lt_iff. apply N.lt_trans.
Qed.

Lemma string_compare_lt_trans (s t u : string) :
  String.compare s t = Lt -> String.compare t u = Lt -> String.compare s u = Lt.
Proof.
  revert t u. induction s as [|a s IH]; intros [|b t] [|c u]; simpl; try done.
  destruct (Ascii.compare a b) eqn:E1; destruct (Ascii.compare b c) eqn:E2;
    try done; intros H1 H2.
  - apply Ascii.compare_eq_iff in E1, E2. subst.
    rewrite ascii_compare_refl. eauto.
  - apply Ascii.compare_eq_iff in E1. subst. by rewrite E2.
  - apply Ascii.compare_eq_iff in E2. subst. by rewrite E1.
  - by rewrite (ascii_compare_lt_trans a b c).
Qed.

Lemma string_compare_refl (s : string) : String.compare s s = Eq.
Proof. induction s; simpl; [done|]. by rewrite ascii_compare_refl. Qed.

Lemma localeCompareBase_antisym (a b : string) :
  Js.localeCompareBase b a = - Js.localeCompareBase a b.
Proof.
  unfold Js.localeCompareBase.
  rewrite (String.compare_antisym (Js.toLowerCase b)).
  by destruct (String.compare (Js.toLowerCase a) (Js.toLowerCase b)).
Qed.

Lemma localeCompareBase_zero (a b : string) :
  Js.localeCompareBase a b = 0 <-> Js.toLowerCase a = Js.toLowerCase b.
Proof.
  unfold Js.localeCompareBase. split.
  - destruct (String.compare _ _) eqn:E; try done.
    intros _. by apply String.compare_eq_iff.
  - intros ->. by rewrite string_compare_refl.
Qed.

Lemma localeCompareBase_trans (a b c : string) :
  Js.localeCompareBase a b <= 0 -> Js.localeCompareBase b c <= 0 ->
  Js.localeCompareBase a c <= 0.
Proof.
  unfold Js.localeCompareBase.
  destruct (String.compare (Js.toLowerCase a) (Js.toLowerCase b)) eqn:E1;
    [apply String.compare_eq_iff in E1; by rewrite E1| |lia].
  destruct (String.compare (Js.toLowerCase b) (Js.toLowerCase c)) eqn:E2;
    [apply String.compare_eq_iff in E2; by rewrite <- E2, E1| |lia].
  by rewrite (string_compare_lt_trans _ _ _ E1 E2).
Qed.

Lemma includes_mg_g (s : string) :
  Js.includes s "mg" = true -> Js.includes s "g" = true.
Proof.
  induction s as [|c s IH]; [done|].
  cbn [Js.includes]. rewrite !orb_true_iff. intros [H|H].
  - right. cbn [String.prefix] in H.
    destruct (ascii_dec "m" c); [|done].
    destruct s; cbn [Js.includes]; by rewrite H.
  - right. by apply IH.
Qed.

(** ** The comparator with one parser for both sides *)

Ltac order_cases :=
  repeat match goal with
  | |- context [Qeq_bool ?x ?y] =>
      let E := fresh "E" in
      destruct (Qeq_bool x y) eqn:E;
      [apply Qeq_bool_iff in E | apply Qeq_bool_neq in E]
  | |- context [Z.eqb ?x ?y] =>
      let E := fresh "E" in destruct (Z.eqb_spec x y) as [E|E]
  | H : context [Qeq_bool ?x ?y] |- _ =>
      let E := fresh "E" in
      destruct (Qeq_bool x y) eqn:E;
      [apply Qeq_bool_iff in E | apply Qeq_bool_neq in E]
  | H : context [Z.eqb ?x ?y] |- _ =>
      let E := fresh "E" in destruct (Z.eqb_spec x y) as [E|E]
  end;
  cbn [negb] in *.

Section FixedParser.
Variable parse : string -> option Q.

Lemma compareBy_unfold a b :
    compareBy parse a b =
    let fallback :=
      inject_Z (Js.localeCompareBase (v_variant_value a) (v_variant_value b)) in
    match parse (v_variant_value a), parse (v_variant_value b) with
    | Some x, Some y => if negb (Qeq_bool x y) then (x - y)%Q else fallback
    | Some _, None => (-1)%Q
    | None, Some _ => 1%Q
    | None, None =>
        if negb (v_price a =? v_price b)
        then inject_Z (v_price a - v_price b)
        else fallback
    end.
  Proof.
    unfold compareBy, compareVariants, compareVariantsWith.
    by destruct (VariantType_eqb (v_variant_type a) weight
                 || VariantType_eqb (v_variant_type b) weight).
  Qed.

Lemma inject_Z_nonpos (z : Z) : (inject_Z z <= 0)%Q <-> z <= 0.
  Proof. change 0%Q with (inject_Z 0). by rewrite <- Zle_Qle. Qed.

Lemma precedes_total a b : precedes parse a b \/ precedes parse b a.
  Proof.
    unfold precedes. rewrite !compareBy_unfold. cbn zeta.
    pose proof (localeCompareBase_antisym (v_variant_value a) (v_variant_value b)) as L.
    destruct (parse (v_variant_value a)) as [x|], (parse (v_variant_value b)) as [y|];
      order_cases; rewrite ?inject_Z_nonpos;
      try (left; lra); try (right; lra); try lia;
      try (exfalso; lra).
    all: try (destruct (Qlt_le_dec x y); [left|right]; lra).
  Qed.

Lemma precedes_trans a b c : precedes parse a b -> precedes parse b c -> precedes parse a c.
  Proof.
    unfold precedes. rewrite !compareBy_unfold. cbn zeta.
    pose proof (localeCompareBase_trans (v_variant_value a) (v_variant_value b)
                  (v_variant_value c)) as L.
    destruct (parse (v_variant_value a)) as [x|], (parse (v_variant_value b)) as [y|],
      (parse (v_variant_value c)) as [z|];
      order_cases; rewrite ?inject_Z_nonpos; intros H1 H2;
      try lra; try lia; try (exfalso; lra); try (exfalso; lia); auto.
  Qed.

Lemma precedes_antisym a b :
    precedes parse a b -> precedes parse b a ->
    Js.toLowerCase (v_variant_value a) = Js.toLowerCase (v_variant_value b).
  Proof.
    unfold precedes. rewrite !compareBy_unfold. cbn zeta.
    pose proof (localeCompareBase_antisym (v_variant_value a) (v_variant_value b)) as L.
    pose proof (proj1 (localeCompareBase_zero (v_variant_value a) (v_variant_value b))) as Z0.
    destruct (parse (v_variant_value a)) as [x|], (parse (v_variant_value b)) as [y|];
      order_cases; rewrite ?inject_Z_nonpos; intros H1 H2;
      try (exfalso; lra); try (exfalso; lia); try (apply Z0; lia).
  Qed.
End FixedParser.

(** ** The same with the collation of the runtime *)

Lemma localeCompareBase_consistent : consistent_comparator Js.localeCompareBase.
Proof.
  split.
  - intros a b. rewrite (localeCompareBase_antisym a b). lia.
  - apply localeCompareBase_trans.
Qed.

Section AnyCollation.
Variable localeCompare : string -> string -> Z.
Variable parse : string -> option Q.

Lemma compareByWith_unfold a b :
  compareByWith localeCompare parse a b =
  let fallback :=
    inject_Z (localeCompare (v_variant_value a) (v_variant_value b)) in
  match parse (v_variant_value a), parse (v_variant_value b) with
  | Some x, Some y => if negb (Qeq_bool x y) then (x - y)%Q else fallback
  | Some _, None => (-1)%Q
  | None, Some _ => 1%Q
  | None, None =>
      if negb (v_price a =? v_price b)
      then inject_Z (v_price a - v_price b)
      else fallback
  end.
Proof.
  unfold compareByWith, compareVariantsWith.
  by destruct (VariantType_eqb (v_variant_type a) weight
               || VariantType_eqb (v_variant_type b) weight).
Qed.

Hypothesis consistent : consistent_comparator localeCompare.

Lemma compareByWith_total a b :
  (compareByWith localeCompare parse a b <= 0)%Q
  \/ (compareByWith localeCompare parse b a <= 0)%Q.
Proof.
  rewrite !compareByWith_unfold. cbn zeta.
  pose proof (proj1 consistent (v_variant_value a) (v_variant_value b)) as L1.
  pose proof (proj1 consistent (v_variant_value b) (v_variant_value a)) as L2.
  destruct (parse (v_variant_value a)) as [x|], (parse (v_variant_value b)) as [y|];
    order_cases; rewrite ?inject_Z_nonpos;
    try (left; lra); try (right; lra); try lia;
    try (exfalso; lra).
  all: try (destruct (Qlt_le_dec x y); [left|right]; lra).
Qed.

Lemma compareByWith_trans a b c :
  (compareByWith localeCompare parse a b <= 0)%Q ->
  (compareByWith localeCompare parse b c <= 0)%Q ->
  (compareByWith localeCompare parse a c <= 0)%Q.
Proof.
  rewrite !compareByWith_unfold. cbn zeta.
  pose proof (proj2 consistent (v_variant_value a) (v_variant_value b)
                (v_variant_value c)) as L.
  destruct (parse (v_variant_value a)) as [x|], (parse (v_variant_value b)) as [y|],
    (parse (v_variant_value c)) as [z|];
    order_cases; rewrite ?inject_Z_nonpos; intros H1 H2;
    try lra; try lia; try (exfalso; lra); try (exfalso; lia); auto.
Qed.

Lemma compareByWith_antisym a b :
  (compareByWith localeCompare parse a b <= 0)%Q ->
  (compareByWith localeCompare parse b a <= 0)%Q ->
  localeCompare (v_variant_value a) (v_variant_value b) = 0
  /\ compareByWith localeCompare parse a b = 0%Q.
Proof.
  rewrite !compareByWith_unfold. cbn zeta.
  pose proof (proj1 consistent (v_variant_value a) (v_variant_value b)) as L1.
  pose proof (proj1 consistent (v_variant_value b) (v_variant_value a)) as L2.
  destruct (parse (v_variant_value a)) as [x|], (parse (v_variant_value b)) as [y|];
    order_cases; rewrite ?inject_Z_nonpos; intros H1 H2;
    try (exfalso; lra); try (exfalso; lia).
  all: assert (localeCompare (v_variant_value a) (v_variant_value b) = 0) as ->
         by lia; done.
Qed.

End AnyCollation.

(** ** What the comparator parses with *)

Lemma VariantType_eqb_weight v :
  VariantType_eqb (v_variant_type v) weight = bool_decide (is_weight v).
Proof.
  destruct (bool_decide_reflect (is_weight v)) as [H|H]; unfold is_weight in H.
  - by rewrite H.
  - by destruct (v_variant_type v).
Qed.

Lemma compareVariants_pair pn a b :
  compareVariants parseWeightInGrams pn a b = compareBy (pairParser pn a b) a b.
Proof.
  unfold pairParser, compareBy, compareVariants, compareVariantsWith.
  rewrite !VariantType_eqb_weight.
  destruct (bool_decide_reflect (is_weight a)), (bool_decide_reflect (is_weight b));
    cbn [orb]; (rewrite bool_decide_eq_true_2 by tauto)
               || (rewrite bool_decide_eq_false_2 by tauto); done.
Qed.

Lemma compareVariantsWith_pair lc pn a b :
  compareVariantsWith parseWeightInGrams pn lc a b
  = compareByWith lc (pairParser pn a b) a b.
Proof.
  unfold pairParser, compareByWith, compareVariantsWith.
  rewrite !VariantType_eqb_weight.
  destruct (bool_decide_reflect (is_weight a)), (bool_decide_reflect (is_weight b));
    cbn [orb]; (rewrite bool_decide_eq_true_2 by tauto)
               || (rewrite bool_decide_eq_false_2 by tauto); done.
Qed.

Lemma pairParser_weight pn a b :
  is_weight a \/ is_weight b -> pairParser pn a b = parseWeightInGrams.
Proof. intros H. unfold pairParser. by rewrite bool_decide_eq_true_2. Qed.

Lemma pairParser_numeric pn a b :
  ~ is_weight a -> ~ is_weight b -> pairParser pn a b = pn.
Proof. intros Ha Hb. unfold pairParser. rewrite bool_decide_eq_false_2; tauto. Qed.

Lemma pairParser_uniform pn l a b :
  Forall is_weight l \/ Forall (fun v => ~ is_weight v) l ->
  a ∈ l -> b ∈ l ->
  pairParser pn a b =
  if bool_decide (Exists is_weight l) then parseWeightInGrams else pn.
Proof.
  intros [H|H] Ha Hb; rewrite Forall_forall in H.
  - rewrite pairParser_weight by (left; auto).
    rewrite bool_decide_eq_true_2; [done|]. apply Exists_exists. eauto.
  - rewrite pairParser_numeric by auto.
    rewrite bool_decide_eq_false_2; [done|].
    rewrite Exists_exists. intros (v & Hv & Hw). by apply (H v).
Qed.

Lemma Qeq_bool_false (x y : Q) : ~ (x == y)%Q -> Qeq_bool x y = false.
Proof.
  intros H. destruct (Qeq_bool x y) eqn:E; [|done].
  by apply Qeq_bool_iff in E.
Qed.

(** The ['mg'] branch of [parseWeightInGrams] is never taken: a value that
    contains "mg" contains "g". *)
Lemma mg_branch_unreachable (value : string) :
  Js.includes (Js.toLowerCase value) "mg" = true ->
  parseWeightInGrams value =
  match Js.matchDecimal (Js.toLowerCase value) with
  | None => None
  | Some m =>
      match Js.parseFloat m with
      | Js.NaN => None
      | Js.Num num =>
          if Js.includes (Js.toLowerCase value) "kg"
          then Some (Qred (num * 1000)) else Some num
      end
  end.
Proof.
  intros H. unfold parseWeightInGrams.
  destruct (Js.matchDecimal _); [|done]. destruct (Js.parseFloat _); [done|].
  destruct (Js.includes (Js.toLowerCase value) "kg"); [done|].
  by rewrite (includes_mg_g _ H).
Qed.

(** * The claims about the resolver *)

(** C5. The weight normalizer multiplies the first decimal number by 1000 for
    "kg", by 1 for "g", by 453.592 for "lb" and by 28.3495 for "oz", returns
    the raw number without a unit and no value without a number; on "5mg" it
    returns 5, not 5/1000: the "g" test comes first and takes every value
    that contains "mg". *)
Theorem C5_parseWeightInGrams_mg_is_grams :
  parseWeightInGrams "2kg" = Some 2000%Q
  /\ parseWeightInGrams "250g" = Some 250%Q
  /\ parseWeightInGrams "2lb" = Some (Qred (2 * (453592 # 1000)))
  /\ parseWeightInGrams "2 Ounce" = Some (Qred (2 * (283495 # 10000)))
  /\ parseWeightInGrams "12" = Some 12%Q
  /\ parseWeightInGrams "Small" = None
  /\ parseWeightInGrams "5mg" = Some 5%Q
  /\ ~ (5 == 5 / 1000)%Q.
Proof. repeat split; try reflexivity. intros H. vm_compute in H. discriminate. Qed.




(** C7, as stated, fails: the list holds a variant of type weight, yet 500g
    and 2kg, both of type pcs, are compared as the plain numbers 500 and 2,
    not as 500 and 2000 grams; 2kg counts 2000 against 1kg and 2 against
    500g. *)
Lemma C7_mode_not_per_set :
  ~ parsed_per_set Index.comparator Index.parseNumericValue
      [Sample.kg1; Sample.g500; Sample.kg2].
Proof.
  intros H.
  assert (Sample.g500 ∈ [Sample.kg1; Sample.g500; Sample.kg2]) as Hb
    by (apply list_elem_of_In; right; left; reflexivity).
  assert (Sample.kg2 ∈ [Sample.kg1; Sample.g500; Sample.kg2]) as Hc
    by (apply list_elem_of_In; right; right; left; reflexivity).
  specialize (H _ _ Hb Hc). vm_compute in H. discriminate.
Qed.

(** C7, amended.  The parsing mode is chosen per compared pair: when one of
    the two variants has type weight both values go through the weight
    normalizer, otherwise both are parsed as plain numbers.  So on a list
    whose variants all have type weight, or of which none has, one parser
    serves every comparison of the sort and a value gets the same number each
    time. *)
Theorem C7_mode_per_pair (parseNumericValue : string -> option Q) :
  let cmp := compareVariants parseWeightInGrams parseNumericValue in
  (forall a b,
     (is_weight a \/ is_weight b ->
      cmp a b = compareBy parseWeightInGrams a b)
     /\ (~ is_weight a -> ~ is_weight b ->
         cmp a b = compareBy parseNumericValue a b))
  /\ (forall l,
        Forall is_weight l \/ Forall (fun v => ~ is_weight v) l ->
        parsed_per_set cmp parseNumericValue l).
Proof.
  intros cmp. subst cmp. split.
  - intros a b. split.
    + intros H. by rewrite compareVariants_pair, pairParser_weight.
    + intros Ha Hb. by rewrite compareVariants_pair, pairParser_numeric.
  - intros l Hl a b Ha Hb.
    by rewrite compareVariants_pair, (pairParser_uniform _ l).
Qed.

Lemma C7_mode_per_pair_witness :
  (is_weight Sample.kg1 \/ is_weight Sample.g500)
  /\ Index.comparator Sample.kg1 Sample.g500
     = compareBy parseWeightInGrams Sample.kg1 Sample.g500.
Proof.
  assert (is_weight Sample.kg1 \/ is_weight Sample.g500) as H
    by (left; reflexivity).
  split; [exact H|].
  exact (proj1 (proj1 (C7_mode_per_pair Index.parseNumericValue)
                  Sample.kg1 Sample.g500) H).
Defined.

(** C8.  The catalog page and the detail dialog resolve alike on every
    input, but the admin dashboard does not: its [parseNumericValue] reads
    "Rs.50" as 50 where the other two read 0.5, so the variants Rs.50 and
    Rs.6 are listed in the opposite order and another one is active. *)
Theorem C8_admin_resolver_differs :
  (forall value, Index.parseNumericValue value
                 = ProductDetailDialog.parseNumericValue value)
  /\ (forall selected item,
        Index.getVariantsForItem selected item
        = ProductDetailDialog.activeVariant (selected !! pv_id item) item)
  /\ Index.parseNumericValue "Rs.50" = Some (1 # 2)
  /\ ProductDetailDialog.parseNumericValue "Rs.50" = Some (1 # 2)
  /\ AdminDashboard.parseNumericValue "Rs.50" = Some 50%Q
  /\ Index.getVariantsForItem ∅ Sample.priced
     = ([Sample.rs50; Sample.rs6], Some Sample.rs50)
  /\ ProductDetailDialog.activeVariant None Sample.priced
     = ([Sample.rs50; Sample.rs6], Some Sample.rs50)
  /\ AdminDashboard.getVariantsForItem ∅ Sample.priced
     = ([Sample.rs6; Sample.rs50], Some Sample.rs6).
Proof. repeat split; vm_compute; reflexivity. Qed.

(** * Properties of the catalog store *)

Module PgFacts.
Import Pg Integrity.

(** ** Row-level security *)

Lemma with_check_admin db uid t c :
  is_admin db uid = true -> with_check_of db uid t c = true.
Proof.
  intros H. unfold with_check_of, policies, applies, eval_expr. cbn.
  rewrite H. by destruct t, c.
Qed.

Lemma can_modify_admin db uid t c :
  is_admin db uid = true -> can_modify db uid t c = true.
Proof.
  intros H. unfold can_modify, using_of, policies, applies, eval_expr. cbn.
  rewrite H. by destruct t, c.
Qed.

Lemma with_check_visitor db uid t c :
  is_admin db uid = false -> c <> SELECT -> with_check_of db uid t c = false.
Proof.
  intros H Hc. unfold with_check_of, policies, applies, eval_expr. cbn.
  rewrite H. by destruct t, c.
Qed.

Lemma can_modify_visitor db uid t c :
  is_admin db uid = false -> c <> SELECT -> can_modify db uid t c = false.
Proof.
  intros H Hc. unfold can_modify, using_of, policies, applies, eval_expr. cbn.
  rewrite H. by destruct t, c.
Qed.

Lemma can_select_all db uid t :
  t <> t_admin_users -> can_select db uid t = true.
Proof.
  intros Ht. unfold can_select, using_of, policies, applies, eval_expr. cbn.
  destruct t; try done; by rewrite ?orb_true_r.
Qed.

(** ** Transactions *)

Lemma set_sku_sequence_same db : set_sku_sequence (sku_sequence db) db = db.
Proof. by destruct db. Qed.

Lemma for_each_inv {A} (I : DB -> Prop) (f : A -> Tx unit) (l : list A) :
  (forall x db r db', I db -> f x db = (r, db') -> I db') ->
  forall db r db', I db -> for_each f l db = (r, db') -> I db'.
Proof.
  intros Hf. induction l as [|x l IH]; intros db r db' HI; cbn [for_each].
  - unfold ret. by intros [= <- <-].
  - unfold bind. destruct (f x db) as [[e|[]] db1] eqn:E.
    + intros [= <- <-]. eauto.
    + intros H. eapply IH; [|exact H]. eauto.
Qed.

Lemma visitor_exec db uid st :
  is_admin db uid = false -> mutates_rows st = true ->
  exec uid st db =
  (if is_insert st
   then inl (insufficient_privilege (table_name (target_table st)))
   else inr tt, db).
Proof.
  intros H Hm.
  destruct st; try discriminate Hm; cbn;
    unfold insert_product, update_product, delete_product, insert_variant,
      update_variant, delete_variant, insert_category, update_category,
      delete_category, insert_store_status, update_store_status,
      delete_store_status, bind, get, guard, ret, fail;
    rewrite ?(with_check_visitor _ _ _ _ H), ?(can_modify_visitor _ _ _ _ H).
  all: try done.
  all: by rewrite H.
Qed.

(** ** Lists of rows *)

Lemma filter_key_nil {A} (key : A -> uuid) (l : list A) (x : uuid) :
  x ∉ map key l -> filter (fun a => key a = x) l = [].
Proof.
  induction l as [|a l IH]; [done|]. cbn [map]. rewrite not_elem_of_cons.
  intros [Hx Hl]. rewrite filter_cons_False by done. auto.
Qed.

Lemma filter_key_NoDup {A} (key : A -> uuid) (l : list A) (x : uuid) :
  NoDup (map key l) ->
  filter (fun a => key a = x) l = []
  \/ exists a, filter (fun a => key a = x) l = [a] /\ a ∈ l /\ key a = x.
Proof.
  induction l as [|a l IH]; [by left|]. cbn [map]. rewrite NoDup_cons.
  intros [Ha Hl]. destruct (decide (key a = x)) as [E|E].
  - right. exists a. rewrite filter_cons_True by done.
    rewrite filter_key_nil by (by rewrite <- E).
    split; [done|]. split; [left|done].
  - rewrite filter_cons_False by done.
    destruct (IH Hl) as [H|(b & H & Hb & Hk)]; [by left|].
    right. exists b. split; [done|]. split; [by right|done].
Qed.

Lemma key_inj_NoDup {A} (key : A -> uuid) (l : list A) (a b : A) :
  NoDup (map key l) -> a ∈ l -> b ∈ l -> key a = key b -> a = b.
Proof.
  induction l as [|c l IH]; [by intros _ ?%elem_of_nil|].
  cbn [map]. rewrite NoDup_cons.
  intros [Hc Hl]. rewrite !elem_of_cons. intros [->|Ha] [->|Hb] E; auto.
  - exfalso. apply Hc. rewrite E. by apply list_elem_of_fmap_2.
  - exfalso. apply Hc. rewrite <- E. by apply list_elem_of_fmap_2.
Qed.

Lemma map_replace_key {A} `{EqDecision A} (key : A -> uuid) (NEW OLD : A)
    (l : list A) :
  key NEW = key OLD ->
  map key (map (fun a => if bool_decide (a = OLD) then NEW else a) l)
  = map key l.
Proof.
  intros E. induction l as [|a l IH]; [done|]. cbn [map]. rewrite IH. f_equal.
  case_bool_decide; congruence.
Qed.

Lemma variants_of_elem pid vs v :
  v ∈ variants_of pid vs <-> v_product_id v = pid /\ v ∈ vs.
Proof. unfold variants_of. by rewrite list_elem_of_filter. Qed.

Lemma variants_of_nonempty pid vs :
  pid ∈ map v_product_id vs <-> (1 <= length (variants_of pid vs))%nat.
Proof.
  split.
  - intros (v & -> & Hv)%list_elem_of_fmap.
    assert (v ∈ variants_of (v_product_id v) vs) as H
      by (by apply variants_of_elem).
    destruct (variants_of (v_product_id v) vs);
      [by apply elem_of_nil in H|cbn; lia].
  - destruct (variants_of pid vs) as [|v l] eqn:E; [cbn; lia|]. intros _.
    assert (v ∈ variants_of pid vs) as [<- Hv]%variants_of_elem
      by (rewrite E; left).
    by apply list_elem_of_fmap_2.
Qed.

Lemma p_id_nullify r : p_id (nullify_empty_category_name r) = p_id r.
Proof.
  unfold nullify_empty_category_name.
  destruct (p_category r) as [c|]; [|done]. by destruct (String.eqb c "").
Qed.

(** ** Statements that leave the keys alone *)

Ltac tx_unfold := unfold bind, get, guard, modify, ret, fail in *.

Ltac tx_cases H :=
  tx_unfold;
  repeat (cbn beta iota zeta in H;
          match type of H with
          | context [if ?b then _ else _] =>
              let E := fresh "E" in destruct b eqn:E
          end);
  cbn beta iota zeta in H; simplify_eq.

Lemma update_product_row_keys uid patch now OLD db r db' :
  update_product_row uid patch now OLD db = (r, db') -> keys db' = keys db.
Proof.
  unfold update_product_row. intros H. tx_cases H; try done.
  all: unfold keys; cbn; rewrite map_replace_key; [done|];
    cbn; by rewrite p_id_nullify.
Qed.

Lemma update_variant_row_keys uid patch now OLD db r db' :
  update_variant_row uid patch now OLD db = (r, db') -> keys db' = keys db.
Proof.
  unfold update_variant_row. intros H. tx_cases H; try done.
  unfold keys; cbn. by rewrite (map_replace_key v_id), (map_replace_key v_product_id).
Qed.

Lemma update_category_row_keys uid patch OLD db r db' :
  update_category_row uid patch OLD db = (r, db') -> keys db' = keys db.
Proof. unfold update_category_row. intros H. by tx_cases H. Qed.

Lemma delete_category_row_keys now OLD db r db' :
  delete_category_row now OLD db = (r, db') -> keys db' = keys db.
Proof.
  unfold delete_category_row. intros H. tx_cases H.
  unfold keys; cbn. f_equal. f_equal. clear.
  induction (product db) as [|p l IH]; [done|].
  cbn [map]. rewrite IH. f_equal. by case_bool_decide.
Qed.

Lemma update_store_status_row_keys uid patch OLD db r db' :
  update_store_status_row uid patch OLD db = (r, db') -> keys db' = keys db.
Proof. unfold update_store_status_row. intros H. by tx_cases H. Qed.

Lemma exec_keys_stable uid st db r db' :
  touches_keys st = false -> exec uid st db = (r, db') -> keys db' = keys db.
Proof.
  intros Ht. destruct st; try discriminate Ht; cbn [exec].
  - unfold update_product. intros H. tx_cases H; [|done].
    eapply (for_each_inv (fun d => keys d = keys db)); [|done|exact H].
    intros x d r' d' Hd Hx. rewrite <- Hd. by eapply update_product_row_keys.
  - unfold update_variant. intros H. tx_cases H; [|done].
    eapply (for_each_inv (fun d => keys d = keys db)); [|done|exact H].
    intros x d r' d' Hd Hx. rewrite <- Hd. by eapply update_variant_row_keys.
  - unfold insert_category. intros H. by tx_cases H.
  - unfold update_category. intros H. tx_cases H; [|done].
    eapply (for_each_inv (fun d => keys d = keys db)); [|done|exact H].
    intros x d r' d' Hd Hx. rewrite <- Hd. by eapply update_category_row_keys.
  - unfold delete_category. intros H. tx_cases H; [|done].
    eapply (for_each_inv (fun d => keys d = keys db)); [|done|exact H].
    intros x d r' d' Hd Hx. rewrite <- Hd. by eapply delete_category_row_keys.
  - unfold insert_store_status. intros H. by tx_cases H.
  - unfold update_store_status. intros H. tx_cases H; [|done].
    eapply (for_each_inv (fun d => keys d = keys db)); [|done|exact H].
    intros x d r' d' Hd Hx. rewrite <- Hd.
    by eapply update_store_status_row_keys.
  - unfold delete_store_status. intros H. by tx_cases H.
  - unfold generate_sku, nextval. intros H. by tx_cases H.
Qed.

Lemma wf_of_keys db db' : keys db' = keys db -> wf db -> wf db'.
Proof.
  unfold keys. intros [= E1 E2 E3] [H1 H2 H3 H4].
  split; rewrite ?E1, ?E2, ?E3; done.
Qed.

Lemma keys_set_sku_sequence n db : keys (set_sku_sequence n db) = keys db.
Proof. done. Qed.

(** ** Deleting variants *)

Lemma filter_neq_id {A} `{EqDecision A} (a : A) (l : list A) :
  a ∉ l -> filter (fun x => x <> a) l = l.
Proof.
  induction l as [|x l IH]; [done|]. rewrite not_elem_of_cons.
  intros [Hx Hl]. rewrite filter_cons_True by done. by rewrite IH.
Qed.

Lemma filter_swap {A} (P Q : A -> Prop)
    `{!forall x, Decision (P x), !forall x, Decision (Q x)} (l : list A) :
  filter P (filter Q l) = filter Q (filter P l).
Proof. rewrite !list_filter_filter. apply list_filter_iff. tauto. Qed.

Lemma variants_of_remove pid OLD rest vs :
  NoDup vs -> variants_of pid vs = OLD :: rest ->
  variants_of pid (filter (fun v => v <> OLD) vs) = rest.
Proof.
  intros Hnd E. unfold variants_of in *.
  rewrite filter_swap, E.
  rewrite filter_cons_False by (intros H; by apply H).
  apply filter_neq_id.
  assert (NoDup (OLD :: rest)) as Hnd' by (rewrite <- E; by apply NoDup_filter).
  by apply NoDup_cons in Hnd' as [? _].
Qed.

(** Deleting every variant of a product row by row always trips the
    trigger, at the last row at the latest. *)
Lemma delete_variant_rows_blocked pid targets :
  forall db,
    NoDup (product_variants db) ->
    targets = variants_of pid (product_variants db) ->
    targets <> [] ->
    exists db',
      delete_variant_rows targets db
      = (inl (raise_exception last_variant_message), db')
      /\ sku_sequence db' = sku_sequence db.
Proof.
  induction targets as [|OLD rest IH]; intros db Hnd Ht Hne; [done|].
  assert (v_product_id OLD = pid) as Hpid.
  { assert (OLD ∈ variants_of pid (product_variants db)) as H
      by (rewrite <- Ht; left).
    by apply variants_of_elem in H as [? _]. }
  unfold delete_variant_rows. cbn [for_each].
  unfold delete_variant_row, prevent_last_variant_delete.
  tx_unfold. rewrite Hpid, <- Ht. cbn [length].
  destruct rest as [|v2 rest'].
  - cbn. eauto.
  - cbn -[for_each filter].
    destruct (IH (set_product_variants
                    (filter (fun v => v <> OLD) (product_variants db)) db))
      as (db' & E & Hs).
    + cbn. by apply NoDup_filter.
    + cbn. symmetry. by apply variants_of_remove.
    + done.
    + exists db'. split; [exact E|]. by rewrite Hs.
Qed.

Lemma NoDup_two_other {A} `{EqDecision A} (l : list A) (v : A) :
  NoDup l -> (2 <= length l)%nat -> exists u, u ∈ l /\ u <> v.
Proof.
  destruct l as [|a [|b l]]; cbn; try lia. intros Hnd _.
  apply NoDup_cons in Hnd as [Ha _].
  destruct (decide (a = v)) as [->|Hav].
  - exists b. split; [right; left|]. intros ->. apply Ha. left.
  - exists a. split; [left|done].
Qed.

Lemma wf_NoDup_variants db : wf db -> NoDup (product_variants db).
Proof. intros H. eapply NoDup_fmap_1, wf_variant_pkey, H. Qed.

Lemma wf_NoDup_products db : wf db -> NoDup (product db).
Proof. intros H. eapply NoDup_fmap_1, wf_product_pkey, H. Qed.

Lemma delete_variant_targets db v :
  wf db -> v ∈ product_variants db ->
  filter (fun u => v_id u = v_id v) (product_variants db) = [v].
Proof.
  intros Hwf Hv.
  destruct (filter_key_NoDup v_id (product_variants db) (v_id v)
              (wf_variant_pkey _ Hwf)) as [E|(a & E & Ha & Hk)].
  - exfalso. eapply (filter_nil_not_elem_of _ _ v E); done.
  - by rewrite E, (key_inj_NoDup v_id _ a v (wf_variant_pkey _ Hwf)).
Qed.

Lemma delete_product_targets db p :
  wf db -> p ∈ product db ->
  filter (fun q => p_id q = p_id p) (product db) = [p].
Proof.
  intros Hwf Hp.
  destruct (filter_key_NoDup p_id (product db) (p_id p)
              (wf_product_pkey _ Hwf)) as [E|(a & E & Ha & Hk)].
  - exfalso. eapply (filter_nil_not_elem_of _ _ p E); done.
  - by rewrite E, (key_inj_NoDup p_id _ a p (wf_product_pkey _ Hwf)).
Qed.

(** What [DELETE FROM product_variants WHERE id = ...] does for an admin. *)
Lemma delete_variant_admin db uid v :
  wf db -> is_admin db uid = true -> v ∈ product_variants db ->
  delete_variant uid (v_id v) db =
  if (length (variants_of (v_product_id v) (product_variants db)) <=? 1)%nat
  then (inl (raise_exception last_variant_message), db)
  else (inr tt,
        set_product_variants
          (filter (fun u => u <> v) (product_variants db)) db).
Proof.
  intros Hwf Ha Hv. unfold delete_variant. tx_unfold.
  rewrite (can_modify_admin _ _ _ _ Ha), (delete_variant_targets _ _ Hwf Hv).
  unfold delete_variant_rows. cbn [for_each].
  unfold delete_variant_row, prevent_last_variant_delete. tx_unfold.
  by destruct (length _ <=? 1)%nat.
Qed.

Lemma wf_delete_variant db v :
  wf db -> v ∈ product_variants db ->
  (2 <= length (variants_of (v_product_id v) (product_variants db)))%nat ->
  wf (set_product_variants (filter (fun u => u <> v) (product_variants db)) db).
Proof.
  intros Hwf Hv Hn. pose proof (wf_NoDup_variants _ Hwf) as Hnd.
  destruct Hwf as [H1 H2 H3 H4]. split; cbn.
  - done.
  - apply (NoDup_fmap_2_strong v_id); [|by apply NoDup_filter].
    intros x y [_ Hx]%list_elem_of_filter [_ Hy]%list_elem_of_filter.
    by apply (key_inj_NoDup v_id (product_variants db)).
  - intros pid (u & -> & Hu)%list_elem_of_fmap. apply H3.
    apply list_elem_of_filter in Hu as [_ Hu]. by apply list_elem_of_fmap_2.
  - intros pid Hp. apply H4 in Hp.
    apply list_elem_of_fmap in Hp as (u & -> & Hu).
    destruct (decide (u = v)) as [->|Huv].
    + destruct (NoDup_two_other
                  (variants_of (v_product_id v) (product_variants db)) v)
        as (w & Hw & Hwv); [by apply NoDup_filter|done|].
      apply variants_of_elem in Hw as [<- Hw].
      apply list_elem_of_fmap_2. by apply list_elem_of_filter.
    + apply list_elem_of_fmap_2. by apply list_elem_of_filter.
Qed.

(** In a well-formed state the cascade of [DELETE FROM product] is always
    stopped by the trigger. *)
Lemma delete_product_admin db uid p :
  wf db -> is_admin db uid = true -> p ∈ product db ->
  exists db',
    delete_product uid (p_id p) db
    = (inl (raise_exception last_variant_message), db')
    /\ sku_sequence db' = sku_sequence db.
Proof.
  intros Hwf Ha Hp. unfold delete_product. tx_unfold.
  rewrite (can_modify_admin _ _ _ _ Ha), (delete_product_targets _ _ Hwf Hp).
  cbn [for_each]. unfold delete_product_row. tx_unfold.
  destruct (delete_variant_rows_blocked (p_id p)
              (variants_of (p_id p) (product_variants db))
              (set_product (filter (fun q => q <> p) (product db)) db))
    as (db' & E & Hs).
  - cbn. by apply wf_NoDup_variants.
  - done.
  - assert (1 <= length (variants_of (p_id p) (product_variants db)))%nat as Hn.
    { apply variants_of_nonempty, (wf_nonempty _ Hwf).
      by apply list_elem_of_fmap_2. }
    intros E. rewrite E in Hn. cbn in Hn. lia.
  - exists db'. cbn [product_variants set_product]. by rewrite E.
Qed.

Lemma delete_product_committed db uid id db' :
  wf db -> delete_product uid id db = (inr tt, db') -> db' = db.
Proof.
  intros Hwf. unfold delete_product. tx_unfold.
  destruct (can_modify db uid t_product DELETE) eqn:Hc; [|by intros [= <-]].
  destruct (filter_key_NoDup p_id (product db) id (wf_product_pkey _ Hwf))
    as [E|(p & E & Hp & Hk)]; rewrite E; cbn [for_each]; tx_unfold.
  - by intros [= <-].
  - unfold delete_product_row. tx_unfold.
    destruct (delete_variant_rows_blocked (p_id p)
                (variants_of (p_id p) (product_variants db))
                (set_product (filter (fun q => q <> p) (product db)) db))
      as (db1 & E1 & _).
    + cbn. by apply wf_NoDup_variants.
    + done.
    + assert (1 <= length (variants_of (p_id p) (product_variants db)))%nat as Hn.
      { apply variants_of_nonempty, (wf_nonempty _ Hwf).
        by apply list_elem_of_fmap_2. }
      intros E'. rewrite E' in Hn. cbn in Hn. lia.
    + cbn [product_variants set_product]. by rewrite E1.
Qed.

Lemma delete_variant_committed db uid id db' :
  wf db -> delete_variant uid id db = (inr tt, db') -> wf db'.
Proof.
  intros Hwf. unfold delete_variant. tx_unfold.
  destruct (can_modify db uid t_product_variants DELETE) eqn:Hc;
    [|by intros [= <-]].
  destruct (filter_key_NoDup v_id (product_variants db) id
              (wf_variant_pkey _ Hwf)) as [E|(v & E & Hv & Hk)];
    rewrite E; unfold delete_variant_rows; cbn [for_each]; tx_unfold.
  - by intros [= <-].
  - unfold delete_variant_row, prevent_last_variant_delete. tx_unfold.
    destruct (length _ <=? 1)%nat eqn:Hn; cbn; [done|].
    intros [= <-]. apply wf_delete_variant; [done..|].
    apply Nat.leb_gt in Hn. lia.
Qed.

(** ** Inserting *)

Lemma insert_variant_row_committed NEW db db' :
  insert_variant_row NEW db = (inr tt, db') ->
  db' = set_product_variants (product_variants db ++ [NEW]) db
  /\ (v_id NEW ∉ map v_id (product_variants db))
  /\ (v_sku NEW ∉ map v_sku (product_variants db))
  /\ (v_product_id NEW ∈ map p_id (product db)).
Proof.
  unfold insert_variant_row. intros H. tx_cases H.
  repeat match goal with
         | E : bool_decide _ = true |- _ => apply bool_decide_eq_true in E
         end.
  done.
Qed.

Lemma wf_insert_variant db NEW :
  wf db -> v_id NEW ∉ map v_id (product_variants db) ->
  v_product_id NEW ∈ map p_id (product db) ->
  wf (set_product_variants (product_variants db ++ [NEW]) db).
Proof.
  intros [H1 H2 H3 H4] Hid Hfk. split; cbn; rewrite ?map_app; cbn.
  - done.
  - apply NoDup_app. split; [done|]. split; [|apply NoDup_singleton].
    intros x Hx Hx'. apply list_elem_of_singleton in Hx'. by subst.
  - intros pid [Hp|Hp]%elem_of_app; [auto|].
    apply list_elem_of_singleton in Hp. by subst.
  - intros pid Hp. apply elem_of_app. left. auto.
Qed.

Lemma wf_insert_product db NEW v :
  wf db -> p_id NEW ∉ map p_id (product db) ->
  v_id v ∉ map v_id (product_variants db) -> v_product_id v = p_id NEW ->
  wf (set_product_variants (product_variants db ++ [v])
        (set_product (product db ++ [NEW]) db)).
Proof.
  intros [H1 H2 H3 H4] Hp Hv E. split; cbn; rewrite ?map_app; cbn.
  - apply NoDup_app. split; [done|]. split; [|apply NoDup_singleton].
    intros x Hx Hx'. apply list_elem_of_singleton in Hx'. by subst.
  - apply NoDup_app. split; [done|]. split; [|apply NoDup_singleton].
    intros x Hx Hx'. apply list_elem_of_singleton in Hx'. by subst.
  - intros pid [Hq|Hq]%elem_of_app; apply elem_of_app; [left; auto|right].
    by rewrite <- E.
  - intros pid [Hq|Hq]%elem_of_app; apply elem_of_app; [left; auto|right].
    by rewrite E.
Qed.

Lemma insert_product_committed uid row variant_id now db db' :
  insert_product uid row variant_id now db = (inr tt, db') ->
  let NEW := nullify_empty_category_name row in
  db' = set_product_variants
          (product_variants db
           ++ [default_variant NEW variant_id now (sku_sequence db)])
          (set_sku_sequence (sku_sequence db + 1)
             (set_product (product db ++ [NEW]) db))
  /\ (p_id row ∉ map p_id (product db))
  /\ (variant_id ∉ map v_id (product_variants db))
  /\ (sku_of (sku_sequence db) ∉ map v_sku (product_variants db)).
Proof.
  unfold insert_product, create_default_variant, generate_sku, nextval.
  intros H. tx_unfold.
  destruct (with_check_of db uid t_product INSERT); [|done].
  destruct (bool_decide_reflect
              (p_id (nullify_empty_category_name row) ∉ map p_id (product db)))
    as [Hp|]; [|done].
  cbn beta iota zeta in H. destruct (category_fkey db _); [|done].
  cbn [sku_sequence set_product] in H.
  destruct (sku_sequence db <=? bigint_max); [|done].
  cbn beta iota zeta in H.
  apply insert_variant_row_committed in H as (-> & Hv & Hs & _).
  cbn in *. rewrite p_id_nullify in Hp. done.
Qed.

Lemma insert_product_admin uid row variant_id now db :
  wf db -> is_admin db uid = true ->
  p_id row ∉ map p_id (product db) ->
  category_fkey db (nullify_empty_category_name row) = true ->
  variant_id ∉ map v_id (product_variants db) ->
  sku_sequence db <= bigint_max ->
  insert_product uid row variant_id now db =
  let NEW := nullify_empty_category_name row in
  if bool_decide (sku_of (sku_sequence db) ∉ map v_sku (product_variants db))
  then (inr tt,
        set_product_variants
          (product_variants db
           ++ [default_variant NEW variant_id now (sku_sequence db)])
          (set_sku_sequence (sku_sequence db + 1)
             (set_product (product db ++ [NEW]) db)))
  else (inl (unique_violation "product_variants_sku_key"),
        set_sku_sequence (sku_sequence db + 1)
          (set_product (product db ++ [NEW]) db)).
Proof.
  intros Hwf Ha Hp Hc Hv Hs.
  unfold insert_product, create_default_variant, generate_sku, nextval,
    insert_variant_row.
  tx_unfold. rewrite (with_check_admin _ _ _ _ Ha).
  rewrite (bool_decide_eq_true_2 (p_id _ ∉ _)) by (by rewrite p_id_nullify).
  rewrite Hc. cbn [sku_sequence set_product set_sku_sequence product_variants product].
  rewrite (proj2 (Z.leb_le _ _) Hs).
  rewrite (bool_decide_eq_true_2 (variant_id ∉ _)) by done.
  cbn [v_id v_sku v_product_id sku_sequence set_product set_sku_sequence
       product_variants product].
  case_bool_decide; [|done].
  rewrite (bool_decide_eq_true_2 (Forall _ _)).
  - cbn [product set_product_variants].
    rewrite bool_decide_eq_true_2; [done|].
    rewrite map_app. apply elem_of_app. right. left.
  - apply Forall_forall. intros v Hin [E _]. cbn in E.
    apply Hp. rewrite p_id_nullify in E. rewrite <- E.
    apply (wf_variant_fkey _ Hwf). by apply list_elem_of_fmap_2.
Qed.

(** ** The integrity of every reachable state *)

Lemma wf_init admins : wf (init admins).
Proof. split; cbn; try apply NoDup_nil_2; done. Qed.

Lemma wf_step uid st db : wf db -> wf (state_of (request uid st db)).
Proof.
  intros Hwf. unfold request, run.
  destruct (exec uid st db) as [[e|[]] db'] eqn:E; cbn [state_of].
  { by apply (wf_of_keys db). }
  destruct (touches_keys st) eqn:Ht.
  - destruct st; try discriminate Ht; cbn [exec] in E.
    + apply insert_product_committed in E as (-> & Hp & Hv & _).
      eapply (wf_of_keys
                (set_product_variants
                   (product_variants db
                    ++ [default_variant (nullify_empty_category_name row)
                          variant_id now (sku_sequence db)])
                   (set_product
                      (product db ++ [nullify_empty_category_name row]) db)));
        [done|].
      apply wf_insert_product; try done. by rewrite p_id_nullify.
    + by rewrite (delete_product_committed _ _ _ _ Hwf E).
    + unfold insert_variant in E. tx_unfold.
      destruct (with_check_of db uid t_product_variants INSERT); [|done].
      apply insert_variant_row_committed in E as (-> & Hv & _ & Hfk).
      by apply wf_insert_variant.
    + by eapply delete_variant_committed.
  - apply (wf_of_keys db); [|done]. by eapply exec_keys_stable.
Qed.

Lemma reachable_wf db : reachable db -> wf db.
Proof. induction 1; [apply wf_init|by apply wf_step]. Qed.

Lemma length_filter_remove {A} `{EqDecision A} (l : list A) (v : A) :
  NoDup l -> v ∈ l ->
  length (filter (fun u => u <> v) l) = (length l - 1)%nat.
Proof.
  induction l as [|a l IH]; [by intros _ ?%elem_of_nil|].
  rewrite NoDup_cons. intros [Ha Hl] Hv.
  destruct (decide (a = v)) as [->|Hav].
  - rewrite filter_cons_False by (intros H'; by apply H').
    rewrite filter_neq_id by done. cbn. lia.
  - rewrite filter_cons_True by done. cbn [length].
    apply elem_of_cons in Hv as [->|Hv]; [done|].
    rewrite IH by done. destruct l; [by apply elem_of_nil in Hv|cbn; lia].
Qed.

(** [DELETE FROM product] on a product of a reachable state, sent by an
    admin, is always rolled back by [trg_prevent_last_variant_delete]. *)
Lemma deleteProduct_always_blocked db uid p :
  reachable db -> is_admin db uid = true -> p ∈ product db ->
  deleteProduct uid (p_id p) db
  = RolledBack (raise_exception last_variant_message) db.
Proof.
  intros Hr Ha Hp. unfold deleteProduct, request, run. cbn [exec].
  destruct (delete_product_admin db uid p (reachable_wf _ Hr) Ha Hp)
    as (db' & -> & ->).
  by rewrite set_sku_sequence_same.
Qed.

(** ** The newest row of store_status *)

Lemma updated_at_le_refl a : UserDashboard.updated_at_le a a = true.
Proof. destruct a; cbn; [lia|done]. Qed.

Lemma updated_at_le_trans a b c :
  UserDashboard.updated_at_le a b = true ->
  UserDashboard.updated_at_le b c = true ->
  UserDashboard.updated_at_le a c = true.
Proof. destruct a, b, c; cbn; try done; lia. Qed.

Lemma updated_at_le_total a b :
  UserDashboard.updated_at_le a b = false ->
  UserDashboard.updated_at_le b a = true.
Proof. destruct a, b; cbn; try done; lia. Qed.

Lemma newest_spec rows :
  match UserDashboard.newest rows with
  | None => rows = []
  | Some m =>
      m ∈ rows
      /\ forall r, r ∈ rows ->
           UserDashboard.updated_at_le (s_updated_at r) (s_updated_at m) = true
  end.
Proof.
  induction rows as [|r rows IH]; [done|]. cbn [UserDashboard.newest].
  destruct (UserDashboard.newest rows) as [m|].
  - destruct IH as [Hm Hall].
    destruct (UserDashboard.updated_at_le (s_updated_at m) (s_updated_at r)) eqn:E.
    + split; [left|]. intros x [->|Hx]%elem_of_cons.
      * apply updated_at_le_refl.
      * eapply updated_at_le_trans; [by apply Hall|done].
    + split; [by right|]. intros x [->|Hx]%elem_of_cons.
      * by apply updated_at_le_total.
      * by apply Hall.
  - subst. split; [left|]. intros x [->|Hx]%elem_of_cons.
    + apply updated_at_le_refl.
    + by apply elem_of_nil in Hx.
Qed.

End PgFacts.

(** * The claims about the catalog store *)

Import Pg Integrity PgFacts.

(** C1.  Deleting a product that has variants does not go through: the
    cascade deletes the variants row by row, [trg_prevent_last_variant_delete]
    fires for each of them and raises at the last one, and the statement is
    rolled back with product and variants still in place.  Shown on a product
    with its default variant only and on one with two variants. *)
Theorem C1_deleteProduct_blocked_by_trigger :
  reachable Sample.db1
  /\ map p_id (product Sample.db1) = ["p1"]
  /\ map v_id (variants_of "p1" (product_variants Sample.db1)) = ["v1"]
  /\ deleteProduct Sample.admin "p1" Sample.db1
     = RolledBack
         (raise_exception "A product must have at least one variant") Sample.db1
  /\ map v_id (variants_of "p1" (product_variants Sample.db2)) = ["v1"; "v2"]
  /\ deleteProduct Sample.admin "p1" Sample.db2
     = RolledBack
         (raise_exception "A product must have at least one variant") Sample.db2.
Proof.
  split; [|repeat split; vm_compute; reflexivity].
  exact (reachable_step _ Sample.admin
           (InsertProduct (Sample.product_row "p1") "v1" 5)
           (reachable_init _)).
Qed.

(** C2.  In every reachable state, for an admin: deleting the sole remaining
    variant of a product fails with the trigger's exception (an
    InvariantViolation) and leaves the state as it was; deleting a variant of
    a product that has at least two succeeds, removes that variant and leaves
    the product with one variant less, hence at least one.  Every product of
    every reachable state has at least one variant. *)
Theorem C2_last_variant_guard :
  (forall db uid v,
     reachable db -> is_admin db uid = true -> v ∈ product_variants db ->
     let n := length (variants_of (v_product_id v) (product_variants db)) in
     (n = 1%nat ->
      deleteVariant uid (v_id v) db
      = RolledBack
          (raise_exception "A product must have at least one variant") db
      /\ kind_of (raise_exception "A product must have at least one variant")
         = InvariantViolation)
     /\ ((2 <= n)%nat ->
         exists db',
           deleteVariant uid (v_id v) db = Committed db'
           /\ (v ∉ product_variants db')
           /\ length (variants_of (v_product_id v) (product_variants db'))
              = (n - 1)%nat
           /\ (1 <= length (variants_of (v_product_id v) (product_variants db')))%nat))
  /\ (forall db p,
        reachable db -> p ∈ product db ->
        (1 <= length (variants_of (p_id p) (product_variants db)))%nat).
Proof.
  split.
  - intros db uid v Hr Ha Hv n. pose proof (reachable_wf _ Hr) as Hwf.
    unfold deleteVariant, request, run. cbn [exec].
    rewrite (delete_variant_admin _ _ _ Hwf Ha Hv). fold n. split.
    + intros ->. cbn. by rewrite set_sku_sequence_same.
    + intros Hn. rewrite (proj2 (Nat.leb_gt _ _)) by lia.
      eexists. split; [done|]. cbn [product_variants set_product_variants].
      assert (length (variants_of (v_product_id v)
                        (filter (fun u => u <> v) (product_variants db)))
              = (n - 1)%nat) as Hlen.
      { unfold variants_of. rewrite filter_swap.
        apply length_filter_remove.
        - apply NoDup_filter. by apply wf_NoDup_variants.
        - by apply variants_of_elem. }
      split; [|split; [done|lia]].
      intros [Hne _]%list_elem_of_filter. by apply Hne.
  - intros db p Hr Hp. apply variants_of_nonempty.
    apply (wf_nonempty _ (reachable_wf _ Hr)). by apply list_elem_of_fmap_2.
Qed.

Lemma C2_last_variant_guard_witness :
  reachable Sample.db1
  /\ is_admin Sample.db1 Sample.admin = true
  /\ deleteVariant Sample.admin "v1" Sample.db1
     = RolledBack
         (raise_exception "A product must have at least one variant") Sample.db1.
Proof.
  assert (reachable Sample.db1) as Hr.
  { exact (reachable_step _ Sample.admin
             (InsertProduct (Sample.product_row "p1") "v1" 5)
             (reachable_init _)). }
  split; [exact Hr|]. split; [reflexivity|].
  refine (proj1 (proj1 (proj1 C2_last_variant_guard Sample.db1 Sample.admin
                   (mkVariant "v1" "p1" "SF-0001" pcs "default" 0 0 5 None)
                   Hr eq_refl _) eq_refl)).
  apply list_elem_of_In. left. reflexivity.
Defined.




(** C4.  [generate_sku] returns "SF-" and the counter padded with zeros to
    four characters ("SF-0007" for 7) and the counter grows by one with every
    call, but [lpad] also cuts a longer text to four characters: for 10234 the
    result is "SF-1023", not "SF-10234", the very SKU of counter 1023. *)
Theorem C4_generate_sku_cuts_at_four :
  sku_of 7 = "SF-0007"
  /\ sku_of 9999 = "SF-9999"
  /\ sku_of 10234 = "SF-1023"
  /\ sku_of 10234 = sku_of 1023
  /\ generate_sku (set_sku_sequence 10234 (init []))
     = (inr "SF-1023", set_sku_sequence 10235 (init []))
  /\ (forall db,
        match nextval db with
        | (inr n, db') => n = sku_sequence db /\ sku_sequence db' = n + 1
        | (inl _, db') => db' = db
        end).
Proof.
  do 5 (split; [vm_compute; reflexivity|]).
  intros db. unfold nextval. by destruct (sku_sequence db <=? bigint_max).
Qed.

(** C9, as stated, fails: a caller who is not an admin deletes a product;
    row-level security hides every row from the delete, which then touches
    nothing and completes without an error instead of failing with
    NotAuthorized. *)
Lemma C9_visitor_delete_reports_no_error :
  is_admin Sample.db1 Sample.visitor = false
  /\ deleteProduct Sample.visitor "p1" Sample.db1 = Committed Sample.db1
  /\ ~ (exists e db, deleteProduct Sample.visitor "p1" Sample.db1 = RolledBack e db).
Proof.
  split; [reflexivity|]. split; [vm_compute; reflexivity|].
  intros (e & db & H). vm_compute in H. discriminate H.
Qed.

(** C9, amended.  For a caller who is not an admin, every insert, update or
    delete on product, product_variants, category or store_status leaves the
    state as it was: an insert fails with NotAuthorized (the new row violates
    the table's row-level security policy), an update or a delete matches no
    row and completes without error.  Every caller reads all rows of these
    four tables. *)
Theorem C9_visitor_changes_nothing :
  (forall db uid st,
     is_admin db uid = false -> mutates_rows st = true ->
     state_of (request uid st db) = db
     /\ (is_insert st = true ->
         exists e, request uid st db = RolledBack e db
                   /\ kind_of e = NotAuthorized)
     /\ (is_insert st = false -> request uid st db = Committed db))
  /\ (forall db uid,
        select_product uid db = product db
        /\ select_product_variants uid db = product_variants db
        /\ select_category uid db = category db
        /\ select_store_status uid db = store_status db).
Proof.
  split.
  - intros db uid st Ha Hm. unfold request, run.
    rewrite (visitor_exec _ _ _ Ha Hm).
    destruct (is_insert st); cbn [state_of]; rewrite ?set_sku_sequence_same.
    + split; [done|]. split; [|done]. intros _. by eexists.
    + done.
  - intros db uid.
    unfold select_product, select_product_variants, select_category,
      select_store_status.
    by rewrite !can_select_all.
Qed.

Lemma C9_visitor_changes_nothing_witness :
  is_admin Sample.db1 Sample.visitor = false
  /\ state_of (request Sample.visitor
                 (UpdateVariant "v1"
                    (mkVariantPatch None None None (Some 1) None None) 9)
                 Sample.db1)
     = Sample.db1.
Proof.
  split; [reflexivity|].
  exact (proj1 (proj1 C9_visitor_changes_nothing Sample.db1 Sample.visitor
                  (UpdateVariant "v1"
                     (mkVariantPatch None None None (Some 1) None None) 9)
                  eq_refl eq_refl)).
Defined.

(** C10.  The public dashboard shows the store as open when the query for the
    status fails and when store_status has no row (or the answer carries no
    data); otherwise it shows [is_open] of a row whose [updated_at] no other
    row exceeds, a null [updated_at] counting as the greatest, as
    [ORDER BY updated_at DESC] has it. *)
Theorem C10_store_status_open_by_default :
  (forall r msg,
     UserDashboard.error r = Some msg -> UserDashboard.fetchStoreStatus r = true)
  /\ (forall r,
        UserDashboard.error r = None ->
        UserDashboard.data r = None \/ UserDashboard.data r = Some [] ->
        UserDashboard.fetchStoreStatus r = true)
  /\ (forall uid db,
        store_status db = [] -> UserDashboard.effectiveStoreStatus uid db = true)
  /\ (forall uid db,
        store_status db <> [] ->
        exists row,
          row ∈ store_status db
          /\ (forall r, r ∈ store_status db ->
                UserDashboard.updated_at_le (s_updated_at r) (s_updated_at row)
                = true)
          /\ UserDashboard.effectiveStoreStatus uid db = s_is_open row).
Proof.
  split; [|split; [|split]].
  - intros r msg H. unfold UserDashboard.fetchStoreStatus. by rewrite H.
  - intros r H [E|E]; unfold UserDashboard.fetchStoreStatus; by rewrite H, E.
  - intros uid db E.
    unfold UserDashboard.effectiveStoreStatus, UserDashboard.query_store_status,
      select_store_status.
    rewrite can_select_all by done. by rewrite E.
  - intros uid db Hne.
    unfold UserDashboard.effectiveStoreStatus, UserDashboard.query_store_status,
      select_store_status.
    rewrite can_select_all by done.
    pose proof (newest_spec (store_status db)) as H.
    destruct (UserDashboard.newest (store_status db)) as [m|]; [|done].
    destruct H as [Hm Hall]. exists m. done.
Qed.

Lemma C10_store_status_open_by_default_witness :
  let rows := [mkStoreStatus "s1" true (Some 10) None;
               mkStoreStatus "s2" false (Some 20) None] in
  let db := set_store_status rows Sample.db0 in
  store_status db <> []
  /\ exists row,
       row ∈ rows
       /\ UserDashboard.effectiveStoreStatus Sample.visitor db = s_is_open row.
Proof.
  intros rows db.
  assert (store_status db <> []) as Hne by discriminate.
  split; [exact Hne|].
  destruct (proj2 (proj2 (proj2 C10_store_status_open_by_default))
              Sample.visitor db Hne) as (row & Hrow & _ & E).
  exists row. split; [exact Hrow|exact E].
Defined.

(** * Further properties of the resolver *)

(** ** [Array.prototype.sort] *)

Lemma insertSorted_perm {A} (cmp : A -> A -> Q) x l :
  Js.insertSorted cmp x l ≡ₚ x :: l.
Proof.
  induction l as [|y l IH]; [done|]. cbn [Js.insertSorted].
  destruct (Qle_bool (cmp x y) 0); [done|].
  rewrite IH. apply Permutation_swap.
Qed.

Lemma sort_perm {A} (cmp : A -> A -> Q) l : Js.sort cmp l ≡ₚ l.
Proof.
  induction l as [|x l IH]; [done|]. cbn [Js.sort].
  by rewrite insertSorted_perm, IH.
Qed.

Lemma sort_elem_of {A} (cmp : A -> A -> Q) l x : x ∈ Js.sort cmp l <-> x ∈ l.
Proof. by rewrite sort_perm. Qed.

Lemma insertSorted_ext {A} (cmp cmp' : A -> A -> Q) x l :
  (forall b, b ∈ l -> cmp x b = cmp' x b) ->
  Js.insertSorted cmp x l = Js.insertSorted cmp' x l.
Proof.
  induction l as [|y l IH]; [done|]. intros H. cbn [Js.insertSorted].
  rewrite (H y) by left. rewrite IH; [done|]. intros b Hb. apply H. by right.
Qed.

Lemma sort_ext {A} (cmp cmp' : A -> A -> Q) l :
  (forall a b, a ∈ l -> b ∈ l -> cmp a b = cmp' a b) ->
  Js.sort cmp l = Js.sort cmp' l.
Proof.
  induction l as [|x l IH]; [done|]. intros H. cbn [Js.sort].
  rewrite IH by (intros a b Ha Hb; apply H; by right).
  apply insertSorted_ext. intros b Hb%sort_elem_of. apply H; [left|by right].
Qed.

Section SortedBy.
Context {A : Type} (cmp : A -> A -> Q).
Hypothesis cmp_total : forall a b, (cmp a b <= 0)%Q \/ (cmp b a <= 0)%Q.
Hypothesis cmp_trans :
  forall a b c, (cmp a b <= 0)%Q -> (cmp b c <= 0)%Q -> (cmp a c <= 0)%Q.

Lemma insertSorted_sorted x l :
  StronglySorted (fun a b => (cmp a b <= 0)%Q) l ->
  StronglySorted (fun a b => (cmp a b <= 0)%Q) (Js.insertSorted cmp x l).
Proof.
  induction 1 as [|y l Hs IH Hy]; cbn [Js.insertSorted].
  - repeat constructor.
  - destruct (Qle_bool (cmp x y) 0) eqn:E.
    + apply Qle_bool_iff in E. constructor; [by constructor|].
      constructor; [done|].
      eapply Forall_impl; [exact Hy|]. intros z Hz. by eapply cmp_trans.
    + assert (cmp y x <= 0)%Q as Hyx.
      { destruct (cmp_total x y) as [H|H]; [|done].
        apply Qle_bool_iff in H. congruence. }
      constructor; [done|]. rewrite insertSorted_perm. by constructor.
Qed.

Lemma sort_sorted l :
  StronglySorted (fun a b => (cmp a b <= 0)%Q) (Js.sort cmp l).
Proof.
  induction l as [|x l IH]; cbn [Js.sort]; [constructor|].
  by apply insertSorted_sorted.
Qed.

Lemma sort_fixed l :
  StronglySorted (fun a b => (cmp a b <= 0)%Q) l -> Js.sort cmp l = l.
Proof.
  induction 1 as [|x l Hs IH Hx]; [done|]. cbn [Js.sort]. rewrite IH.
  destruct l as [|y l]; [done|]. cbn [Js.insertSorted].
  apply Forall_cons in Hx as [Hxy _].
  apply Qle_bool_iff in Hxy. by rewrite Hxy.
Qed.
End SortedBy.

Lemma StronglySorted_on {A} (R R' : A -> A -> Prop) l :
  (forall a b, a ∈ l -> b ∈ l -> R a b -> R' a b) ->
  StronglySorted R l -> StronglySorted R' l.
Proof.
  intros H Hs. induction Hs as [|x l Hs IH Hx]; constructor.
  - apply IH. intros a b Ha Hb. apply H; by right.
  - apply Forall_forall. intros y Hy. apply H; [left|by right|].
    by eapply Forall_forall in Hx.
Qed.

(** ** [sortVariants] *)

Lemma compareVariants_uniform pn l a b :
  uniform l -> a ∈ l -> b ∈ l ->
  compareVariants parseWeightInGrams pn a b
  = compareBy (if bool_decide (Exists is_weight l)
               then parseWeightInGrams else pn) a b.
Proof.
  intros Hl Ha Hb. by rewrite compareVariants_pair, (pairParser_uniform _ l).
Qed.

Lemma sortVariants_uniform pn l :
  uniform l ->
  sortVariants parseWeightInGrams pn l
  = Js.sort (compareBy (if bool_decide (Exists is_weight l)
                        then parseWeightInGrams else pn)) l.
Proof.
  intros Hl. unfold sortVariants. apply sort_ext.
  intros a b. by apply compareVariants_uniform.
Qed.

(** X1.  [sortVariants] only reorders: its result is a permutation of the
    list it is given, in each of the three files, whatever the types and
    values of the variants. *)
Theorem X1_sortVariants_permutation (l : list ProductVariant) :
  Index.sortVariants l ≡ₚ l
  /\ AdminDashboard.sortVariants l ≡ₚ l
  /\ ProductDetailDialog.sortVariants l ≡ₚ l.
Proof. repeat split; apply sort_perm. Qed.

(** X2.  On a list whose variants all have type weight, or of which none
    has, the result of [sortVariants] is in ascending order: the comparator
    puts every element before all the elements after it. *)
Theorem X2_sortVariants_sorted (parseNumericValue : string -> option Q) l :
  uniform l ->
  StronglySorted
    (fun a b => (compareVariants parseWeightInGrams parseNumericValue a b <= 0)%Q)
    (sortVariants parseWeightInGrams parseNumericValue l).
Proof.
  intros Hl. rewrite (sortVariants_uniform _ _ Hl).
  eapply StronglySorted_on; [|apply sort_sorted].
  - intros a b Ha%sort_elem_of Hb%sort_elem_of H.
    by rewrite (compareVariants_uniform _ l).
  - apply precedes_total.
  - apply precedes_trans.
Qed.

Lemma X2_sortVariants_sorted_witness :
  let a := Sample.variant "x" weight "250g" 0 in
  let b := Sample.variant "y" weight "1kg" 0 in
  uniform [b; a]
  /\ StronglySorted (fun a b => (Index.comparator a b <= 0)%Q)
       (Index.sortVariants [b; a]).
Proof.
  intros a b.
  assert (uniform [b; a]) as H by (left; repeat constructor).
  split; [exact H|].
  exact (X2_sortVariants_sorted Index.parseNumericValue [b; a] H).
Defined.

(** X3.  Sorting a list that [sortVariants] has sorted changes nothing, on a
    list whose variants all have type weight or of which none has: the
    order shown does not move when the page sorts again. *)
Theorem X3_sortVariants_idempotent (parseNumericValue : string -> option Q) l :
  uniform l ->
  sortVariants parseWeightInGrams parseNumericValue
    (sortVariants parseWeightInGrams parseNumericValue l)
  = sortVariants parseWeightInGrams parseNumericValue l.
Proof.
  intros Hl.
  assert (uniform (sortVariants parseWeightInGrams parseNumericValue l)) as Hl'.
  { unfold uniform, sortVariants. by rewrite !(sort_perm _ l). }
  assert (bool_decide
            (Exists is_weight (sortVariants parseWeightInGrams parseNumericValue l))
          = bool_decide (Exists is_weight l)) as E.
  { apply bool_decide_ext. unfold sortVariants. by rewrite (sort_perm _ l). }
  rewrite (sortVariants_uniform _ _ Hl'), E, (sortVariants_uniform _ _ Hl).
  apply sort_fixed, sort_sorted.
  - apply precedes_total.
  - apply precedes_trans.
Qed.

Lemma X3_sortVariants_idempotent_witness :
  let a := Sample.variant "x" pcs "12pcs" 0 in
  let b := Sample.variant "y" pcs "6pcs" 0 in
  uniform [a; b]
  /\ Index.sortVariants (Index.sortVariants [a; b]) = Index.sortVariants [a; b].
Proof.
  intros a b.
  assert (uniform [a; b]) as H.
  { right. repeat constructor; discriminate. }
  split; [exact H|].
  exact (X3_sortVariants_idempotent Index.parseNumericValue [a; b] H).
Defined.

(** ** The active variant *)

Lemma findById_Some i l v :
  findById i l = Some v -> v ∈ l /\ v_id v = i.
Proof.
  unfold findById. intros H. apply find_some in H as [Hin E].
  apply String.eqb_eq in E. split; [by apply list_elem_of_In|done].
Qed.

Lemma findById_None i l :
  findById i l = None -> forall v, v ∈ l -> v_id v <> i.
Proof.
  unfold findById. intros H v Hv E.
  pose proof (find_none _ _ H v (proj1 (list_elem_of_In _ _) Hv)) as F.
  cbn in F. apply String.eqb_neq in F. done.
Qed.

Lemma selectActive_spec cur sorted :
  (sorted = [] <-> selectActive cur sorted = None)
  /\ (forall v, selectActive cur sorted = Some v -> v ∈ sorted)
  /\ (forall i, cur = Some i -> i <> "" ->
        (exists v, v ∈ sorted /\ v_id v = i) ->
        exists v, selectActive cur sorted = Some v /\ v_id v = i)
  /\ (cur = None \/ cur = Some ""
      \/ (exists i, cur = Some i /\ forall v, v ∈ sorted -> v_id v <> i) ->
      selectActive cur sorted = head sorted).
Proof.
  unfold selectActive. split; [|split; [|split]].
  - split.
    + intros ->. destruct cur as [i|]; [|done].
      by destruct (String.eqb i "").
    + destruct cur as [i|]; [destruct (String.eqb i "")|];
        try (by destruct sorted).
      destruct (findById i sorted) eqn:E; [done|]. by destruct sorted.
  - intros v. destruct cur as [i|]; [destruct (String.eqb i "")|].
    + intros H. by apply head_Some_elem_of.
    + destruct (findById i sorted) eqn:E.
      * intros [= <-]. by apply findById_Some in E as [? _].
      * intros H. by apply head_Some_elem_of.
    + intros H. by apply head_Some_elem_of.
  - intros i -> Hi (v & Hv & E).
    rewrite (proj2 (String.eqb_neq i "")) by done.
    destruct (findById i sorted) as [u|] eqn:F.
    + exists u. split; [done|]. by apply findById_Some in F as [_ ?].
    + exfalso. by apply (findById_None _ _ F v).
  - intros [->|[->|(i & -> & H)]]; try done.
    destruct (String.eqb i ""); [done|].
    destruct (findById i sorted) as [u|] eqn:F; [|done].
    apply findById_Some in F as [Hu E]. by destruct (H u).
Qed.

(** X4.  [getVariantsForItem] of the catalog page returns the variants of the
    item reordered, and an active variant that is one of them.  There is no
    active variant only when the item has no variants.  A stored selection
    that names a variant of the item is the active variant; without a stored
    selection, or with one that names no variant of the item, the first of
    the sorted list is. *)
Theorem X4_getVariantsForItem_active
    (selectedVariants : gmap string string) (item : Product) :
  let '(sorted, active) := Index.getVariantsForItem selectedVariants item in
  sorted ≡ₚ pv_variants item
  /\ (pv_variants item = [] <-> active = None)
  /\ (forall v, active = Some v -> v ∈ pv_variants item)
  /\ (forall i, selectedVariants !! pv_id item = Some i -> i <> "" ->
        (exists v, v ∈ pv_variants item /\ v_id v = i) ->
        exists v, active = Some v /\ v_id v = i)
  /\ (selectedVariants !! pv_id item = None
      \/ (exists i, selectedVariants !! pv_id item = Some i
                    /\ forall v, v ∈ pv_variants item -> v_id v <> i) ->
      active = head sorted).
Proof.
  unfold Index.getVariantsForItem. cbn zeta.
  pose proof (selectActive_spec (selectedVariants !! pv_id item)
                (Index.sortVariants (pv_variants item))) as (H1 & H2 & H3 & H4).
  assert (Index.sortVariants (pv_variants item) ≡ₚ pv_variants item) as Hp
    by apply sort_perm.
  split; [done|]. split; [|split; [|split]].
  - rewrite <- H1. split; [by intros ->|].
    intros E. rewrite E in Hp. by apply Permutation_nil_l in Hp.
  - intros v Hv. rewrite <- Hp. by apply H2.
  - intros i Hi Hne (v & Hv & E). apply (H3 i Hi Hne).
    exists v. by rewrite Hp.
  - intros [H|(i & Hi & H)]; apply H4; [by left|].
    right. right. exists i. split; [done|]. intros v Hv. apply H. by rewrite <- Hp.
Qed.

Lemma X4_getVariantsForItem_active_witness :
  ({["p1" := "b"]} : gmap string string) !! pv_id Sample.priced = Some "b"
  /\ exists v, snd (Index.getVariantsForItem {["p1" := "b"]} Sample.priced) = Some v
               /\ v_id v = "b".
Proof.
  split; [reflexivity|].
  pose proof (X4_getVariantsForItem_active {["p1" := "b"]} Sample.priced) as H.
  destruct (Index.getVariantsForItem {["p1" := "b"]} Sample.priced)
    as [sorted active].
  destruct H as (_ & _ & _ & H & _).
  apply (H "b"); [reflexivity|discriminate|].
  exists Sample.rs6. split; [|reflexivity].
  apply list_elem_of_In. right. left. reflexivity.
Defined.

(** * The stored selection *)

Lemma reconcileItem_spec next changed item :
  let st' := IndexPage.reconcileItem (next, changed) item in
  st'.1 !! pv_id item
  = settled (Index.sortVariants (pv_variants item)) (next !! pv_id item)
  /\ (forall k, k <> pv_id item -> st'.1 !! k = next !! k)
  /\ (st'.2 = false -> changed = false /\ st'.1 = next).
Proof.
  unfold IndexPage.reconcileItem, settled. cbn zeta.
  destruct (Index.sortVariants (pv_variants item)) as [|first rest].
  - destruct (IndexPage.truthy (next !! pv_id item)); cbn.
    + split; [by rewrite lookup_delete_eq|]. split; [|done].
      intros k Hk. by rewrite lookup_delete_ne.
    + done.
  - destruct (next !! pv_id item) as [c|] eqn:E; cbn -[existsb].
    + destruct (negb (String.eqb c "")); cbn -[existsb].
      * destruct (existsb _ (first :: rest)); cbn.
        -- done.
        -- split; [by rewrite lookup_insert_eq|]. split; [|done].
           intros k Hk. by rewrite lookup_insert_ne.
      * split; [by rewrite lookup_insert_eq|]. split; [|done].
        intros k Hk. by rewrite lookup_insert_ne.
    + split; [by rewrite lookup_insert_eq|]. split; [|done].
      intros k Hk. by rewrite lookup_insert_ne.
Qed.

Lemma reconcile_fold items :
  forall st,
    NoDup (map pv_id items) ->
    let st' := foldl IndexPage.reconcileItem st items in
    (forall item, item ∈ items ->
       st'.1 !! pv_id item
       = settled (Index.sortVariants (pv_variants item)) (st.1 !! pv_id item))
    /\ (forall k, k ∉ map pv_id items -> st'.1 !! k = st.1 !! k)
    /\ (st'.2 = false -> st.2 = false /\ st'.1 = st.1).
Proof.
  induction items as [|item items IH]; intros [next changed] Hnd; cbn zeta.
  - cbn. split; [by intros ? ?%elem_of_nil|done].
  - cbn [map] in Hnd. apply NoDup_cons in Hnd as [Hid Hnd].
    cbn [foldl].
    pose proof (reconcileItem_spec next changed item) as (S1 & S2 & S3).
    cbn zeta in S1, S2, S3.
    destruct (IndexPage.reconcileItem (next, changed) item) as [next1 ch1].
    destruct (IH (next1, ch1) Hnd) as (I1 & I2 & I3).
    cbn [fst snd] in *. split; [|split].
    + intros it [->|Hin]%elem_of_cons.
      * by rewrite (I2 _ Hid).
      * rewrite (I1 _ Hin), S2; [done|].
        intros E. apply Hid. rewrite <- E. by apply list_elem_of_fmap_2.
    + intros k [Hk1 Hk2]%not_elem_of_cons. by rewrite (I2 _ Hk2), S2.
    + intros H. destruct (I3 H) as [-> ->]. by apply S3.
Qed.

Lemma dropUnknown_lookup (itemIds : gset string) prev k :
  (IndexPage.dropUnknown itemIds prev).1 !! k
  = if bool_decide (k ∈ itemIds) then prev !! k else None.
Proof.
  unfold IndexPage.dropUnknown. cbn [fst].
  case_bool_decide as Hk.
  - destruct (prev !! k) as [v|] eqn:E.
    + by apply map_lookup_filter_Some_2.
    + apply map_lookup_filter_None. by left.
  - apply map_lookup_filter_None. right. intros v _. done.
Qed.

Lemma dropUnknown_unchanged (itemIds : gset string) prev :
  (IndexPage.dropUnknown itemIds prev).2 = false ->
  (IndexPage.dropUnknown itemIds prev).1 = prev.
Proof.
  intros H. apply map_eq. intros k. rewrite dropUnknown_lookup.
  unfold IndexPage.dropUnknown in H. cbn [snd] in H.
  apply negb_false_iff, bool_decide_eq_true in H.
  case_bool_decide as Hk; [done|].
  destruct (prev !! k) as [v|] eqn:E; [|done].
  exfalso. apply Hk, H. by apply elem_of_dom.
Qed.

Lemma reconcile_lookup items prev :
  NoDup (map pv_id items) ->
  (forall item, item ∈ items ->
     IndexPage.reconcile items prev !! pv_id item
     = settled (Index.sortVariants (pv_variants item)) (prev !! pv_id item))
  /\ (forall k, k ∉ map pv_id items -> IndexPage.reconcile items prev !! k = None).
Proof.
  intros Hnd. unfold IndexPage.reconcile. cbn zeta.
  set (ids := list_to_set (map pv_id items) : gset string).
  pose proof (reconcile_fold items (IndexPage.dropUnknown ids prev) Hnd)
    as (F1 & F2 & F3). cbn zeta in F1, F2, F3.
  destruct (foldl IndexPage.reconcileItem (IndexPage.dropUnknown ids prev) items)
    as [next changed]. cbn [fst snd] in *.
  assert ((if changed then next else prev) = next) as ->.
  { destruct changed; [done|]. destruct (F3 eq_refl) as [H ->].
    symmetry. by apply dropUnknown_unchanged. }
  split.
  - intros item Hin. rewrite (F1 _ Hin), dropUnknown_lookup.
    rewrite bool_decide_eq_true_2; [done|].
    apply elem_of_list_to_set. by apply list_elem_of_fmap_2.
  - intros k Hk. rewrite (F2 _ Hk), dropUnknown_lookup.
    rewrite bool_decide_eq_false_2; [done|].
    unfold ids. by rewrite elem_of_list_to_set.
Qed.

Lemma existsb_id_true c (sorted : list ProductVariant) :
  existsb (fun variant => String.eqb (v_id variant) c) sorted = true
  <-> exists v, v ∈ sorted /\ v_id v = c.
Proof.
  rewrite existsb_exists. split; intros (v & Hv & E); exists v.
  - split; [by apply list_elem_of_In|by apply String.eqb_eq].
  - split; [by apply list_elem_of_In|by apply String.eqb_eq].
Qed.

Lemma settled_valid sorted x first rest :
  sorted = first :: rest ->
  exists v, v ∈ sorted /\ settled sorted x = Some (v_id v).
Proof.
  intros ->. unfold settled.
  destruct x as [c|]; [|exists first; split; [left|done]].
  destruct (IndexPage.truthy (Some c)); cbn -[existsb];
    [|exists first; split; [left|done]].
  destruct (existsb _ (first :: rest)) eqn:E;
    [|exists first; split; [left|done]].
  apply existsb_id_true in E as (v & Hv & <-). by exists v.
Qed.

Lemma settled_idem sorted x : settled sorted (settled sorted x) = settled sorted x.
Proof.
  destruct sorted as [|first rest].
  - cbn. destruct (IndexPage.truthy x) eqn:E; [done|]. by rewrite E.
  - destruct (settled_valid (first :: rest) x first rest eq_refl)
      as (v & Hv & E).
    rewrite E. unfold settled.
    destruct (IndexPage.truthy (Some (v_id v))) eqn:T; cbn -[existsb].
    + rewrite (proj2 (existsb_id_true (v_id v) (first :: rest))); [done|].
      by exists v.
    + (* the id is the empty string: it can only be the first variant's *)
      revert E. unfold settled. destruct x as [c|]; [|by intros [= <-]].
      destruct (IndexPage.truthy (Some c)) eqn:Tc; cbn -[existsb];
        [|by intros [= <-]].
      destruct (existsb _ (first :: rest)); [|by intros [= <-]].
      intros [= Hc]. exfalso. cbn in T, Tc. rewrite Hc in Tc. congruence.
Qed.

Lemma sortVariants_nonempty (item : Product) :
  pv_variants item <> [] ->
  exists first rest, Index.sortVariants (pv_variants item) = first :: rest.
Proof.
  intros H. destruct (Index.sortVariants (pv_variants item)) as [|f r] eqn:E.
  - exfalso. apply H. symmetry. apply Permutation_nil_l. rewrite <- E.
    apply sort_perm.
  - eauto.
Qed.

(** X5.  After the effect on [items] has run (product ids being distinct),
    every listed product that has variants has a stored selection, and it
    names one of its variants; products that are not listed have none. *)
Theorem X5_reconcile_valid (items : list Product) (prev : gmap string string) :
  NoDup (map pv_id items) ->
  (forall item, item ∈ items -> pv_variants item <> [] ->
     exists v, v ∈ pv_variants item
               /\ IndexPage.reconcile items prev !! pv_id item = Some (v_id v))
  /\ (forall k, k ∉ map pv_id items -> IndexPage.reconcile items prev !! k = None).
Proof.
  intros Hnd. destruct (reconcile_lookup items prev Hnd) as [H1 H2].
  split; [|done]. intros item Hin Hne.
  destruct (sortVariants_nonempty item Hne) as (first & rest & E).
  destruct (settled_valid _ (prev !! pv_id item) first rest E) as (v & Hv & Es).
  exists v. split; [by apply sort_elem_of in Hv|].
  rewrite <- Es. by apply H1.
Qed.

Lemma X5_reconcile_valid_witness :
  NoDup (map pv_id [Sample.priced])
  /\ IndexPage.reconcile [Sample.priced] {["p7" := "a"]} !! "p7" = None.
Proof.
  assert (NoDup (map pv_id [Sample.priced])) as H
    by (apply NoDup_singleton).
  split; [exact H|].
  apply (proj2 (X5_reconcile_valid [Sample.priced] {["p7" := "a"]} H)).
  intros Hin. apply list_elem_of_In in Hin. destruct Hin as [E|[]].
  discriminate E.
Defined.

(** X6.  A selection made with [handleVariantSelect] survives the effect as
    long as the selected id is the id of a variant of the product; a stored
    selection that names no variant of the product any more is replaced by
    the first variant in sorted order. *)
Theorem X6_reconcile_keeps_selection (items : list Product)
    (prev : gmap string string) (item : Product) :
  NoDup (map pv_id items) -> item ∈ items ->
  (forall v, v ∈ pv_variants item -> v_id v <> "" ->
     IndexPage.reconcile items
       (IndexPage.handleVariantSelect (pv_id item) (v_id v) prev) !! pv_id item
     = Some (v_id v))
  /\ (forall (i : string) first rest,
        prev !! pv_id item = Some i ->
        (forall v, v ∈ pv_variants item -> v_id v <> i) ->
        Index.sortVariants (pv_variants item) = first :: rest ->
        IndexPage.reconcile items prev !! pv_id item = Some (v_id first)).
Proof.
  intros Hnd Hin. split.
  - intros v Hv Hne.
    rewrite (proj1 (reconcile_lookup items _ Hnd) _ Hin).
    unfold IndexPage.handleVariantSelect. rewrite lookup_insert_eq.
    assert (v ∈ Index.sortVariants (pv_variants item)) as Hs
      by (by apply sort_elem_of).
    unfold settled.
    destruct (Index.sortVariants (pv_variants item)) as [|first rest];
      [by apply elem_of_nil in Hs|].
    cbn -[existsb]. rewrite (proj2 (String.eqb_neq _ _) Hne). cbn -[existsb].
    rewrite (proj2 (existsb_id_true (v_id v) (first :: rest))); [done|].
    by exists v.
  - intros i first rest Hi Hno Hs.
    rewrite (proj1 (reconcile_lookup items _ Hnd) _ Hin), Hi, Hs.
    unfold settled.
    destruct (IndexPage.truthy (Some i)); cbn -[existsb]; [|done].
    destruct (existsb _ (first :: rest)) eqn:E; [|done].
    apply existsb_id_true in E as (v & Hv & Ev).
    rewrite <- Hs in Hv. apply sort_elem_of in Hv. by destruct (Hno v).
Qed.

Lemma X6_reconcile_keeps_selection_witness :
  NoDup (map pv_id [Sample.priced])
  /\ IndexPage.reconcile [Sample.priced]
       (IndexPage.handleVariantSelect "p1" "b" ∅) !! "p1" = Some "b".
Proof.
  assert (NoDup (map pv_id [Sample.priced])) as H by (apply NoDup_singleton).
  split; [exact H|].
  assert (Sample.priced ∈ [Sample.priced]) as Hin
    by (apply list_elem_of_In; left; reflexivity).
  apply (proj1 (X6_reconcile_keeps_selection [Sample.priced] ∅ Sample.priced
                  H Hin) Sample.rs6).
  - apply list_elem_of_In. right. left. reflexivity.
  - discriminate.
Defined.

(** X7.  Running the effect a second time on the same items changes nothing
    (product ids being distinct). *)
Theorem X7_reconcile_idempotent (items : list Product) (prev : gmap string string) :
  NoDup (map pv_id items) ->
  IndexPage.reconcile items (IndexPage.reconcile items prev)
  = IndexPage.reconcile items prev.
Proof.
  intros Hnd. apply map_eq. intros k.
  destruct (decide (k ∈ map pv_id items)) as [Hk|Hk].
  - apply list_elem_of_fmap in Hk as (item & -> & Hin).
    etrans; [apply (proj1 (reconcile_lookup items _ Hnd) _ Hin)|].
    etrans; [|symmetry; apply (proj1 (reconcile_lookup items _ Hnd) _ Hin)].
    rewrite (proj1 (reconcile_lookup items prev Hnd) _ Hin).
    apply settled_idem.
  - etrans; [apply (proj2 (reconcile_lookup items _ Hnd) _ Hk)|].
    symmetry. apply (proj2 (reconcile_lookup items _ Hnd) _ Hk).
Qed.

Lemma X7_reconcile_idempotent_witness :
  NoDup (map pv_id [Sample.priced])
  /\ IndexPage.reconcile [Sample.priced]
       (IndexPage.reconcile [Sample.priced] {["p7" := "a"]})
     = IndexPage.reconcile [Sample.priced] {["p7" := "a"]}.
Proof.
  assert (NoDup (map pv_id [Sample.priced])) as H by (apply NoDup_singleton).
  split; [exact H|].
  exact (X7_reconcile_idempotent [Sample.priced] {["p7" := "a"]} H).
Defined.

(** X8.  Once the effect has run, the variant [getVariantsForItem] shows as
    active for a listed product with variants is the one the stored
    selection names. *)
Theorem X8_reconcile_agrees_with_active (items : list Product)
    (prev : gmap string string) (item : Product) :
  NoDup (map pv_id items) -> item ∈ items -> pv_variants item <> [] ->
  exists v,
    snd (Index.getVariantsForItem (IndexPage.reconcile items prev) item) = Some v
    /\ IndexPage.reconcile items prev !! pv_id item = Some (v_id v).
Proof.
  intros Hnd Hin Hne. unfold Index.getVariantsForItem. cbn [snd].
  rewrite (proj1 (reconcile_lookup items _ Hnd) _ Hin).
  destruct (sortVariants_nonempty item Hne) as (first & rest & E).
  rewrite E. unfold settled, selectActive.
  destruct (prev !! pv_id item) as [c|]; cbn -[existsb findById].
  - destruct (String.eqb c "") eqn:Ec; cbn -[existsb findById].
    + destruct (String.eqb (v_id first) "") eqn:Ef.
      * exists first. done.
      * destruct (findById (v_id first) (first :: rest)) as [u|] eqn:F.
        -- exists u. split; [done|]. apply findById_Some in F as [_ ->]. done.
        -- exists first. done.
    + destruct (existsb _ (first :: rest)) eqn:Ex.
      * rewrite Ec. apply existsb_id_true in Ex as (v & Hv & Ev).
        destruct (findById c (first :: rest)) as [u|] eqn:F.
        -- exists u. split; [done|]. apply findById_Some in F as [_ ->]. done.
        -- by destruct (findById_None _ _ F v).
      * destruct (String.eqb (v_id first) "") eqn:Ef.
        -- exists first. done.
        -- destruct (findById (v_id first) (first :: rest)) as [u|] eqn:F.
           ++ exists u. split; [done|]. apply findById_Some in F as [_ ->]. done.
           ++ exists first. done.
  - destruct (String.eqb (v_id first) "") eqn:Ef.
    + exists first. done.
    + destruct (findById (v_id first) (first :: rest)) as [u|] eqn:F.
      * exists u. split; [done|]. apply findById_Some in F as [_ ->]. done.
      * exists first. done.
Qed.

Lemma X8_reconcile_agrees_with_active_witness :
  NoDup (map pv_id [Sample.priced])
  /\ exists v,
       snd (Index.getVariantsForItem (IndexPage.reconcile [Sample.priced] ∅)
              Sample.priced) = Some v
       /\ IndexPage.reconcile [Sample.priced] ∅ !! "p1" = Some (v_id v).
Proof.
  assert (NoDup (map pv_id [Sample.priced])) as H by (apply NoDup_singleton).
  split; [exact H|].
  apply (X8_reconcile_agrees_with_active [Sample.priced] ∅ Sample.priced H).
  - apply list_elem_of_In. left. reflexivity.
  - discriminate.
Defined.

(** * Further properties of the catalog store *)

Module ConstraintFacts.
Import Pg Integrity PgFacts Constraints.

Lemma for_each_committed {A} (I : DB -> Prop) (f : A -> Tx unit) (l : list A) :
  (forall x db db', I db -> f x db = (inr tt, db') -> I db') ->
  forall db db', I db -> for_each f l db = (inr tt, db') -> I db'.
Proof.
  intros Hf. induction l as [|x l IH]; intros db db' HI; cbn [for_each].
  - unfold ret. by intros [= <-].
  - unfold bind. destruct (f x db) as [[e|[]] db1] eqn:E; [done|].
    intros H. eapply IH; [|exact H]. eauto.
Qed.

Lemma NoDup_map_filter {A B} (key : A -> B) (P : A -> Prop)
    `{!forall x, Decision (P x)} (l : list A) :
  NoDup (map key l) -> NoDup (map key (filter P l)).
Proof.
  induction l as [|a l IH]; [done|]. cbn [map]. rewrite NoDup_cons.
  intros [Ha Hl]. rewrite filter_cons. destruct (decide (P a)); [|auto].
  cbn [map]. apply NoDup_cons. split; [|auto].
  intros (b & E & Hb)%list_elem_of_fmap. apply Ha. rewrite E.
  apply list_elem_of_fmap_2. by apply list_elem_of_filter in Hb as [_ ?].
Qed.

Lemma NoDup_map_snoc {A B} (key : A -> B) (l : list A) (x : A) :
  NoDup (map key l) -> key x ∉ map key l -> NoDup (map key (l ++ [x])).
Proof.
  intros Hl Hx. rewrite map_app. apply NoDup_app. split; [done|].
  split; [|apply NoDup_singleton].
  intros y Hy Hy'. apply list_elem_of_singleton in Hy'. by subst.
Qed.

Lemma replace_absent {A} `{EqDecision A} (NEW OLD : A) (l : list A) :
  OLD ∉ l -> map (fun a => if bool_decide (a = OLD) then NEW else a) l = l.
Proof.
  induction l as [|a l IH]; [done|]. rewrite not_elem_of_cons.
  intros [Ha Hl]. cbn [map]. rewrite IH by done.
  by rewrite bool_decide_eq_false_2.
Qed.

Lemma replace_elem_of {A} `{EqDecision A} (NEW OLD : A) (l : list A) (x : A) :
  x ∈ map (fun a => if bool_decide (a = OLD) then NEW else a) l <->
  (x = NEW /\ OLD ∈ l) \/ (x ∈ l /\ x <> OLD).
Proof.
  rewrite list_elem_of_fmap. split.
  - intros (a & -> & Ha). case_bool_decide; subst; auto.
  - intros [[-> H]|[H Hne]].
    + exists OLD. by rewrite bool_decide_eq_true_2.
    + exists x. by rewrite bool_decide_eq_false_2.
Qed.

Lemma NoDup_map_replace {A B} `{EqDecision A} (key : A -> B)
    (NEW OLD : A) (l : list A) :
  NoDup (map key l) ->
  key NEW ∉ map key (filter (fun a => a <> OLD) l) ->
  NoDup (map key (map (fun a => if bool_decide (a = OLD) then NEW else a) l)).
Proof.
  induction l as [|a l IH]; [done|]. cbn [map]. rewrite NoDup_cons.
  intros [Ha Hl] Hnew. destruct (decide (a = OLD)) as [->|Hne].
  - rewrite bool_decide_eq_true_2 by done.
    assert (OLD ∉ l) as Hold.
    { intros H. apply Ha. by apply list_elem_of_fmap_2. }
    rewrite filter_cons_False in Hnew by (intros H; by apply H).
    rewrite filter_neq_id in Hnew by done.
    rewrite replace_absent by done. by apply NoDup_cons.
  - rewrite bool_decide_eq_false_2 by done.
    rewrite filter_cons_True in Hnew by done. cbn [map] in Hnew.
    apply not_elem_of_cons in Hnew as [Hn1 Hn2].
    apply NoDup_cons. split; [|by apply IH].
    intros (b & E & Hb)%list_elem_of_fmap.
    apply replace_elem_of in Hb as [[-> _]|[Hb _]]; [congruence|].
    apply Ha. rewrite E. by apply list_elem_of_fmap_2.
Qed.

Lemma holds_set_sku_sequence n db : holds db -> holds (set_sku_sequence n db).
Proof. by intros []. Qed.

Lemma category_nullified row : p_category (nullify_empty_category_name row) <> Some "".
Proof.
  unfold nullify_empty_category_name.
  destruct (p_category row) as [c|] eqn:E; [|congruence].
  destruct (String.eqb_spec c ""); [done|]. congruence.
Qed.

Lemma category_fkey_true db row c :
  category_fkey db row = true -> p_category row = Some c ->
  c ∈ map c_name (category db).
Proof.
  unfold category_fkey. intros H E. rewrite E in H.
  by apply bool_decide_eq_true in H.
Qed.

Lemma same_variant_key_iff v w :
  same_variant_key v w <-> variant_key v = variant_key w.
Proof.
  unfold same_variant_key, variant_key. split.
  - by intros (-> & -> & ->).
  - by intros [= -> -> ->].
Qed.

Lemma variant_key_fresh (NEW : ProductVariant) (vs : list ProductVariant) :
  Forall (fun v => ~ same_variant_key v NEW) vs ->
  variant_key NEW ∉ map variant_key vs.
Proof.
  rewrite Forall_forall. intros H (v & E & Hv)%list_elem_of_fmap.
  apply (H v Hv). by apply same_variant_key_iff.
Qed.

(** ** Every statement keeps the constraints *)

Lemma insert_variant_row_constraints NEW db db' :
  insert_variant_row NEW db = (inr tt, db') ->
  db' = set_product_variants (product_variants db ++ [NEW]) db
  /\ (v_sku NEW ∉ map v_sku (product_variants db))
  /\ (variant_key NEW ∉ map variant_key (product_variants db)).
Proof.
  unfold insert_variant_row. intros H. tx_cases H.
  repeat match goal with
         | E : bool_decide _ = true |- _ => apply bool_decide_eq_true in E
         end.
  split; [done|]. split; [done|]. by apply variant_key_fresh.
Qed.

Lemma variants_ok_snoc vs NEW :
  variants_ok vs -> v_sku NEW ∉ map v_sku vs ->
  variant_key NEW ∉ map variant_key vs -> variants_ok (vs ++ [NEW]).
Proof. intros [H1 H2] Hs Hk. split; by apply NoDup_map_snoc. Qed.

Lemma variants_ok_filter (P : ProductVariant -> Prop)
    `{!forall x, Decision (P x)} vs :
  variants_ok vs -> variants_ok (filter P vs).
Proof. intros [H1 H2]. split; by apply NoDup_map_filter. Qed.

Lemma products_ok_snoc cs ps NEW :
  products_ok cs ps ->
  p_category NEW <> Some "" ->
  (forall c, p_category NEW = Some c -> c ∈ map c_name cs) ->
  products_ok cs (ps ++ [NEW]).
Proof.
  intros H H1 H2 p [Hp|Hp]%elem_of_app; [by apply H|].
  apply list_elem_of_singleton in Hp. by subst.
Qed.

Lemma insert_product_constraints uid row variant_id now db db' :
  holds db -> insert_product uid row variant_id now db = (inr tt, db') ->
  holds db'.
Proof.
  intros [Hv Hc Hp Hs].
  unfold insert_product, create_default_variant, generate_sku, nextval.
  intros H. tx_unfold.
  destruct (with_check_of db uid t_product INSERT); [|done].
  destruct (bool_decide (p_id _ ∉ _)); [|done].
  cbn beta iota zeta in H.
  destruct (category_fkey db (nullify_empty_category_name row)) eqn:Hfk; [|done].
  cbn [sku_sequence set_product] in H.
  destruct (sku_sequence db <=? bigint_max); [|done].
  cbn beta iota zeta in H.
  apply insert_variant_row_constraints in H as (-> & Hsku & Hkey).
  cbn in Hsku, Hkey. split; cbn.
  - by apply variants_ok_snoc.
  - done.
  - apply products_ok_snoc; [done|apply category_nullified|].
    intros c. by apply category_fkey_true.
  - done.
Qed.

Lemma update_product_row_constraints uid patch now OLD db db' :
  holds db -> update_product_row uid patch now OLD db = (inr tt, db') ->
  holds db'.
Proof.
  intros [Hv Hc Hp Hs]. unfold update_product_row. intros H. tx_cases H.
  split; cbn; try done.
  intros p [[-> _]|[Hin _]]%replace_elem_of; [|by apply Hp].
  cbn. split; [apply category_nullified|].
  intros c Hcat. eapply category_fkey_true; [exact E0|done].
Qed.

Lemma update_variant_row_constraints uid patch now OLD db db' :
  holds db -> update_variant_row uid patch now OLD db = (inr tt, db') ->
  holds db'.
Proof.
  intros [[Hv1 Hv2] Hc Hp Hs]. unfold update_variant_row. intros H. tx_cases H.
  repeat match goal with
         | E : bool_decide _ = true |- _ => apply bool_decide_eq_true in E
         end.
  split; cbn; try done. split.
  - by apply NoDup_map_replace.
  - apply NoDup_map_replace; [done|]. by apply variant_key_fresh.
Qed.

Lemma delete_variant_row_constraints OLD db db' :
  holds db -> delete_variant_row OLD db = (inr tt, db') -> holds db'.
Proof.
  intros [Hv Hc Hp Hs]. unfold delete_variant_row, prevent_last_variant_delete.
  intros H. tx_cases H. split; cbn; try done. by apply variants_ok_filter.
Qed.

Lemma insert_category_constraints uid row db db' :
  holds db -> insert_category uid row db = (inr tt, db') -> holds db'.
Proof.
  intros [Hv [Hc1 Hc2] Hp Hs]. unfold insert_category. intros H. tx_cases H.
  repeat match goal with
         | E : bool_decide _ = true |- _ => apply bool_decide_eq_true in E
         end.
  split; cbn; try done.
  - split; by apply NoDup_map_snoc.
  - intros p Hin. destruct (Hp p Hin) as [H1 H2]. split; [done|].
    intros c Hcat. rewrite map_app. apply elem_of_app. left. by apply H2.
Qed.

Lemma update_category_row_constraints uid patch OLD db db' :
  holds db -> OLD ∈ category db ->
  update_category_row uid patch OLD db = (inr tt, db') -> holds db'.
Proof.
  intros [Hv [Hc1 Hc2] Hp Hs] Hold. unfold update_category_row.
  intros H. tx_cases H.
  apply bool_decide_eq_true in E0.
  split; cbn; try done.
  - split; [by rewrite (map_replace_key c_id)|by apply NoDup_map_replace].
  - intros p Hin. destruct (Hp p Hin) as [H1 H2]. split; [done|].
    intros c Hcat. specialize (H2 c Hcat).
    apply list_elem_of_fmap in H2 as (r & -> & Hr).
    destruct (decide (r = OLD)) as [->|Hne].
    + apply orb_true_iff in E1 as [E1|E1]; apply bool_decide_eq_true in E1.
      * rewrite <- E1. apply list_elem_of_fmap_2, replace_elem_of. by left.
      * exfalso. rewrite Forall_forall in E1. by apply (E1 p Hin).
    + apply list_elem_of_fmap_2, replace_elem_of. by right.
Qed.

Lemma delete_category_row_constraints now OLD db db' :
  holds db -> delete_category_row now OLD db = (inr tt, db') -> holds db'.
Proof.
  intros [Hv [Hc1 Hc2] Hp Hs]. unfold delete_category_row.
  intros H. tx_cases H. split; cbn; try done.
  - split; by apply NoDup_map_filter.
  - intros p' (p & -> & Hin)%list_elem_of_fmap.
    destruct (Hp p Hin) as [H1 H2]. case_bool_decide as Hcat; cbn.
    + done.
    + split; [done|]. intros c Hc. specialize (H2 c Hc).
      apply list_elem_of_fmap in H2 as (r & -> & Hr).
      apply list_elem_of_fmap_2, list_elem_of_filter. split; [|done].
      intros ->. by apply Hcat.
Qed.

Lemma update_store_status_row_constraints uid patch OLD db db' :
  holds db -> update_store_status_row uid patch OLD db = (inr tt, db') ->
  holds db'.
Proof.
  intros [Hv Hc Hp Hs]. unfold update_store_status_row. intros H. tx_cases H.
  split; cbn; try done. unfold statuses_ok. by rewrite (map_replace_key s_id).
Qed.

Lemma exec_constraints uid st db db' :
  wf db -> holds db -> exec uid st db = (inr tt, db') -> holds db'.
Proof.
  intros Hwf Hh. destruct st; cbn [exec].
  - by apply insert_product_constraints.
  - unfold update_product. intros H. tx_cases H; [|done].
    eapply (for_each_committed holds); [|done|exact H].
    intros x d d' Hd. by apply update_product_row_constraints.
  - intros H. by rewrite (delete_product_committed _ _ _ _ Hwf H).
  - unfold insert_variant. intros H. tx_unfold.
    destruct (with_check_of db uid t_product_variants INSERT); [|done].
    apply insert_variant_row_constraints in H as (-> & Hsku & Hkey).
    destruct Hh as [Hv Hc Hp Hs]. split; cbn; try done.
    by apply variants_ok_snoc.
  - unfold update_variant. intros H. tx_cases H; [|done].
    eapply (for_each_committed holds); [|done|exact H].
    intros x d d' Hd. by apply update_variant_row_constraints.
  - unfold delete_variant, delete_variant_rows. intros H. tx_cases H; [|done].
    eapply (for_each_committed holds); [|done|exact H].
    intros x d d' Hd. by apply delete_variant_row_constraints.
  - by apply insert_category_constraints.
  - unfold update_category. intros H. tx_cases H; [|done].
    revert H.
    generalize (filter (fun c => c_id c = id) (category db)).
    intros targets. revert db Hwf Hh E.
    induction targets as [|OLD targets IH]; intros db Hwf Hh E; cbn [for_each].
    + by intros [= <-].
    + unfold bind.
      destruct (update_category_row uid patch OLD db) as [[e|[]] d1] eqn:E1;
        [done|].
      intros H.
      destruct (decide (OLD ∈ category db)) as [Hin|Hnin].
      * eapply (for_each_committed holds); [| |exact H].
        -- intros x d d' Hd Hx.
           destruct (decide (x ∈ category d)) as [Hxin|Hxnin].
           ++ by eapply update_category_row_constraints.
           ++ revert Hx. unfold update_category_row. intros Hx. tx_cases Hx.
              destruct Hd as [Hv Hc Hp Hs]. split; cbn; try done.
              ** by rewrite replace_absent.
              ** by rewrite replace_absent.
        -- by eapply update_category_row_constraints.
      * eapply (for_each_committed holds); [| |exact H].
        -- intros x d d' Hd Hx.
           destruct (decide (x ∈ category d)) as [Hxin|Hxnin].
           ++ by eapply update_category_row_constraints.
           ++ revert Hx. unfold update_category_row. intros Hx. tx_cases Hx.
              destruct Hd as [Hv Hc Hp Hs]. split; cbn; try done.
              ** by rewrite replace_absent.
              ** by rewrite replace_absent.
        -- revert E1. unfold update_category_row. intros Hx. tx_cases Hx.
           destruct Hh as [Hv Hc Hp Hs]. split; cbn; try done.
           ++ by rewrite replace_absent.
           ++ by rewrite replace_absent.
  - unfold delete_category. intros H. tx_cases H; [|done].
    eapply (for_each_committed holds); [|done|exact H].
    intros x d d' Hd. by apply delete_category_row_constraints.
  - unfold insert_store_status. intros H. tx_cases H.
    apply bool_decide_eq_true in E0.
    destruct Hh as [Hv Hc Hp Hs]. split; cbn; try done.
    by apply NoDup_map_snoc.
  - unfold update_store_status. intros H. tx_cases H; [|done].
    eapply (for_each_committed holds); [|done|exact H].
    intros x d d' Hd. by apply update_store_status_row_constraints.
  - unfold delete_store_status. intros H. tx_cases H; [|done].
    destruct Hh as [Hv Hc Hp Hs]. split; cbn; try done.
    by apply NoDup_map_filter.
  - unfold generate_sku, nextval. intros H. tx_cases H.
    by apply holds_set_sku_sequence.
Qed.

Lemma holds_init admins : holds (init admins).
Proof.
  split; cbn.
  - split; apply NoDup_nil_2.
  - split; apply NoDup_nil_2.
  - by intros p ?%elem_of_nil.
  - apply NoDup_nil_2.
Qed.

Lemma holds_step uid st db :
  wf db -> holds db -> holds (state_of (request uid st db)).
Proof.
  intros Hwf Hh. unfold request, run.
  destruct (exec uid st db) as [[e|[]] db'] eqn:E; cbn [state_of].
  - by apply holds_set_sku_sequence.
  - by eapply exec_constraints.
Qed.

Lemma reachable_holds db : reachable db -> holds db.
Proof.
  induction 1 as [|db uid st Hr IH]; [apply holds_init|].
  apply holds_step; [by apply reachable_wf|done].
Qed.

End ConstraintFacts.

Import Constraints ConstraintFacts.

Lemma NoDup_map_inj {A B} (key : A -> B) (l : list A) (a b : A) :
  NoDup (map key l) -> a ∈ l -> b ∈ l -> key a = key b -> a = b.
Proof.
  induction l as [|c l IH]; [by intros _ ?%elem_of_nil|].
  cbn [map]. rewrite NoDup_cons.
  intros [Hc Hl]. rewrite !elem_of_cons. intros [->|Ha] [->|Hb] E; auto.
  - exfalso. apply Hc. rewrite E. by apply list_elem_of_fmap_2.
  - exfalso. apply Hc. rewrite <- E. by apply list_elem_of_fmap_2.
Qed.

Lemma reachable_db1 : reachable Sample.db1.
Proof.
  exact (reachable_step _ Sample.admin
           (InsertProduct (Sample.product_row "p1") "v1" 5)
           (reachable_init _)).
Qed.

Lemma reachable_db2 : reachable Sample.db2.
Proof.
  exact (reachable_step _ Sample.admin (InsertVariant Sample.extra) reachable_db1).
Qed.

(** X9.  In every reachable state no two variants carry the same SKU, and no
    two variants of one product have the same type and value. *)
Theorem X9_variants_unique db v w :
  reachable db -> v ∈ product_variants db -> w ∈ product_variants db ->
  (v_sku v = v_sku w -> v = w)
  /\ (v_product_id v = v_product_id w -> v_variant_type v = v_variant_type w ->
      v_variant_value v = v_variant_value w -> v = w).
Proof.
  intros Hr Hv Hw. destruct (holds_variants _ (reachable_holds _ Hr)) as [H1 H2].
  split.
  - by apply (NoDup_map_inj v_sku (product_variants db)).
  - intros E1 E2 E3. apply (NoDup_map_inj variant_key (product_variants db));
      try done. unfold variant_key. by rewrite E1, E2, E3.
Qed.

Lemma reachable_requests uid (l : list statement) db :
  reachable db ->
  reachable (foldl (fun d st => state_of (request uid st d)) db l).
Proof.
  revert db. induction l as [|st l IH]; intros db Hr; [done|].
  cbn [foldl]. by apply IH, reachable_step.
Qed.

Lemma reachable_sample_store : reachable SampleStore.db.
Proof. apply reachable_requests, reachable_db1. Qed.

Lemma X9_variants_unique_witness :
  let v1 := mkVariant "v1" "p1" "SF-0001" pcs "default" 0 0 5 None in
  product_variants Sample.db2 = [v1; Sample.extra]
  /\ v_sku v1 <> v_sku Sample.extra
  /\ variant_key v1 <> variant_key Sample.extra.
Proof.
  intros v1.
  assert (product_variants Sample.db2 = [v1; Sample.extra]) as E
    by (vm_compute; reflexivity).
  assert (v1 ∈ product_variants Sample.db2) as H1 by (rewrite E; left).
  assert (Sample.extra ∈ product_variants Sample.db2) as H2
    by (rewrite E; right; left).
  destruct (X9_variants_unique Sample.db2 v1 Sample.extra reachable_db2 H1 H2)
    as [Hsku Hkey].
  split; [exact E|]. split.
  - intros Es. discriminate (Hsku Es).
  - intros Ek.
    discriminate (Hkey (f_equal (fun k => k.1.1) Ek)
                       (f_equal (fun k => k.1.2) Ek)
                       (f_equal (fun k => k.2) Ek)).
Defined.

(** X10.  In every reachable state the category of a product is null or the
    name of an existing category, never the empty string, and category names
    are distinct. *)
Theorem X10_category_integrity db :
  reachable db ->
  (forall p, p ∈ product db ->
     p_category p <> Some ""
     /\ forall c, p_category p = Some c ->
          exists row, row ∈ category db /\ c_name row = c)
  /\ (forall a b, a ∈ category db -> b ∈ category db ->
        c_name a = c_name b -> a = b).
Proof.
  intros Hr. destruct (reachable_holds _ Hr) as [_ [_ Hn] Hp _]. split.
  - intros p Hin. destruct (Hp p Hin) as [H1 H2]. split; [done|].
    intros c Hc. specialize (H2 c Hc).
    apply list_elem_of_fmap in H2 as (row & -> & Hrow). by exists row.
  - intros a b. by apply NoDup_map_inj.
Qed.

Lemma X10_category_integrity_witness :
  category SampleStore.db = [SampleStore.sweets; SampleStore.namkeen]
  /\ map p_category (product SampleStore.db) = [None; Some "sweets"; None]
  /\ SampleStore.sev ∈ product SampleStore.db
  /\ (exists row, row ∈ category SampleStore.db /\ c_name row = "sweets")
  /\ Forall (fun p => p_category p <> Some "") (product SampleStore.db)
  /\ c_name SampleStore.sweets <> c_name SampleStore.namkeen.
Proof.
  destruct (X10_category_integrity SampleStore.db reachable_sample_store)
    as [Hprod Hnames].
  assert (category SampleStore.db = [SampleStore.sweets; SampleStore.namkeen])
    as Ec by (vm_compute; reflexivity).
  assert (SampleStore.barfi ∈ product SampleStore.db) as Hb
    by (apply list_elem_of_In; vm_compute; tauto).
  split; [exact Ec|]. split; [vm_compute; reflexivity|].
  split; [apply list_elem_of_In; vm_compute; tauto|].
  split; [exact (proj2 (Hprod _ Hb) "sweets" eq_refl)|].
  split; [apply Forall_forall; intros p Hp; exact (proj1 (Hprod p Hp))|].
  intros En.
  assert (SampleStore.sweets = SampleStore.namkeen) as E.
  { apply Hnames; [rewrite Ec; left|rewrite Ec; right; left|exact En]. }
  discriminate E.
Defined.

Lemma delete_category_targets db c :
  holds db -> c ∈ category db ->
  filter (fun r => c_id r = c_id c) (category db) = [c].
Proof.
  intros Hh Hc. destruct (holds_categories _ Hh) as [Hid _].
  destruct (filter_key_NoDup c_id (category db) (c_id c) Hid)
    as [E|(a & E & Ha & Hk)].
  - exfalso. eapply (filter_nil_not_elem_of _ _ c E); done.
  - by rewrite E, (key_inj_NoDup c_id _ a c Hid).
Qed.

(** X11.  Deleting a category, as an admin in a reachable state, succeeds
    and removes that category only.  No product and no variant is deleted:
    the products that named the category keep their id and have a null
    category and [last_updated] set to the time of the delete, every other
    product is left as it was, so that afterwards no product names the
    deleted category. *)
Theorem X11_deleteCategory_sets_null db uid c now :
  reachable db -> is_admin db uid = true -> c ∈ category db ->
  exists db',
    AdminActions.handleRemoveCategory uid (c_id c) now db = Committed db'
    /\ category db' = filter (fun r => r <> c) (category db)
    /\ (c_name c ∉ map c_name (category db'))
    /\ map p_id (product db') = map p_id (product db)
    /\ product_variants db' = product_variants db
    /\ (forall p, p ∈ product db -> p_category p <> Some (c_name c) ->
          p ∈ product db')
    /\ (forall p, p ∈ product db -> p_category p = Some (c_name c) ->
          mkProduct (p_id p) (p_name p) (p_description p) None
                    (p_is_visible p) (p_image_url p) now (p_updated_by p)
          ∈ product db')
    /\ (forall p', p' ∈ product db' -> p_category p' <> Some (c_name c)).
Proof.
  intros Hr Ha Hc. pose proof (reachable_holds _ Hr) as Hh.
  unfold AdminActions.handleRemoveCategory, request, run. cbn [exec].
  unfold delete_category. tx_unfold.
  rewrite (can_modify_admin _ _ _ _ Ha), (delete_category_targets _ _ Hh Hc).
  cbn [for_each]. unfold delete_category_row. tx_unfold.
  eexists. split; [done|]. cbn.
  split; [done|]. split; [|split; [|split; [done|split; [|split]]]].
  - intros (r & E & [Hne Hr']%list_elem_of_filter)%list_elem_of_fmap.
    apply Hne. symmetry.
    by apply (NoDup_map_inj c_name (category db) c r
                (proj2 (holds_categories _ Hh))).
  - clear. induction (product db) as [|p l IH]; [done|].
    cbn [map]. rewrite IH. f_equal. by case_bool_decide.
  - intros p Hp Hne. apply list_elem_of_fmap. exists p.
    by rewrite bool_decide_eq_false_2.
  - intros p Hp E. apply list_elem_of_fmap. exists p.
    by rewrite bool_decide_eq_true_2.
  - intros p' (p & -> & Hp)%list_elem_of_fmap. by case_bool_decide.
Qed.

Lemma X11_deleteCategory_sets_null_witness :
  p_category SampleStore.barfi = Some "sweets"
  /\ SampleStore.barfi ∈ product SampleStore.db
  /\ exists db',
       AdminActions.handleRemoveCategory Sample.admin "c1" 9 SampleStore.db
       = Committed db'
       /\ mkProduct "p3" "Barfi" None None true None 9 None ∈ product db'
       /\ SampleStore.sev ∈ product db'
       /\ category db' = [SampleStore.namkeen]
       /\ product_variants db' = product_variants SampleStore.db.
Proof.
  assert (SampleStore.barfi ∈ product SampleStore.db) as Hb
    by (apply list_elem_of_In; vm_compute; tauto).
  assert (SampleStore.sev ∈ product SampleStore.db) as Hs
    by (apply list_elem_of_In; vm_compute; tauto).
  assert (SampleStore.sweets ∈ category SampleStore.db) as Hc
    by (apply list_elem_of_In; vm_compute; tauto).
  split; [reflexivity|]. split; [exact Hb|].
  destruct (X11_deleteCategory_sets_null SampleStore.db Sample.admin
              SampleStore.sweets 9 reachable_sample_store eq_refl Hc)
    as (db' & E & Ecat & _ & _ & Evs & Hkeep & Hnull & _).
  exists db'. split; [exact E|].
  split; [exact (Hnull SampleStore.barfi Hb eq_refl)|].
  split; [apply (Hkeep SampleStore.sev Hs); discriminate|].
  split; [rewrite Ecat; vm_compute; reflexivity|exact Evs].
Defined.

(** ** The sequence *)

Lemma delete_variant_row_sequence OLD db r db' :
  delete_variant_row OLD db = (r, db') -> sku_sequence db' = sku_sequence db.
Proof.
  unfold delete_variant_row, prevent_last_variant_delete.
  intros H. by tx_cases H.
Qed.

Lemma for_each_sequence {A} (f : A -> Tx unit) l :
  (forall x db r db', f x db = (r, db') -> sku_sequence db' = sku_sequence db) ->
  forall db r db', for_each f l db = (r, db') ->
                   sku_sequence db' = sku_sequence db.
Proof.
  intros Hf db r db' H.
  eapply (for_each_inv (fun d => sku_sequence d = sku_sequence db)); [|done|exact H].
  intros x d r' d' Hd Hx. rewrite <- Hd. by eapply Hf.
Qed.

Lemma insert_variant_row_sequence NEW db r db' :
  insert_variant_row NEW db = (r, db') -> sku_sequence db' = sku_sequence db.
Proof. unfold insert_variant_row. intros H. by tx_cases H. Qed.

Lemma exec_sequence uid st db r db' :
  exec uid st db = (r, db') ->
  sku_sequence db <= sku_sequence db' <= sku_sequence db + 1.
Proof.
  destruct st; cbn [exec].
  - unfold insert_product, create_default_variant, generate_sku, nextval.
    intros H. tx_unfold.
    destruct (with_check_of db uid t_product INSERT);
      [|injection H as <- <-; lia].
    destruct (bool_decide (p_id _ ∉ _)); [|injection H as <- <-; lia].
    cbn beta iota zeta in H.
    destruct (category_fkey db _); [|injection H as <- <-; cbn; lia].
    cbn [sku_sequence set_product] in H.
    destruct (sku_sequence db <=? bigint_max);
      [|injection H as <- <-; cbn; lia].
    cbn beta iota zeta in H.
    apply insert_variant_row_sequence in H. cbn in H. lia.
  - unfold update_product. intros H. tx_cases H; [|lia].
    apply for_each_sequence in H; [lia|].
    intros x d r' d'. unfold update_product_row. intros Hx. by tx_cases Hx.
  - unfold delete_product. intros H. tx_cases H; [|lia].
    apply for_each_sequence in H; [lia|].
    intros x d r' d'. unfold delete_product_row. tx_unfold.
    intros Hx. apply for_each_sequence in Hx; [done|].
    apply delete_variant_row_sequence.
  - unfold insert_variant. intros H. tx_unfold.
    destruct (with_check_of db uid t_product_variants INSERT);
      [|injection H as <- <-; lia].
    apply insert_variant_row_sequence in H. lia.
  - unfold update_variant. intros H. tx_cases H; [|lia].
    apply for_each_sequence in H; [lia|].
    intros x d r' d'. unfold update_variant_row. intros Hx. by tx_cases Hx.
  - unfold delete_variant, delete_variant_rows. intros H. tx_cases H; [|lia].
    apply for_each_sequence in H; [lia|]. apply delete_variant_row_sequence.
  - unfold insert_category. intros H. tx_cases H; cbn; lia.
  - unfold update_category. intros H. tx_cases H; [|lia].
    apply for_each_sequence in H; [lia|].
    intros x d r' d'. unfold update_category_row. intros Hx. by tx_cases Hx.
  - unfold delete_category. intros H. tx_cases H; [|lia].
    apply for_each_sequence in H; [lia|].
    intros x d r' d'. unfold delete_category_row. intros Hx. by tx_cases Hx.
  - unfold insert_store_status. intros H. tx_cases H; cbn; lia.
  - unfold update_store_status. intros H. tx_cases H; [|lia].
    apply for_each_sequence in H; [lia|].
    intros x d r' d'. unfold update_store_status_row. intros Hx. by tx_cases Hx.
  - unfold delete_store_status. intros H. tx_cases H; cbn; lia.
  - unfold generate_sku, nextval. intros H. tx_cases H; cbn; lia.
Qed.

(** X12.  No request ever moves the SKU sequence backwards, committed or
    rolled back: a request leaves the counter where it was or one higher, and
    in every reachable state the counter is at least its start value 1.  A
    call of [generate_sku] through the API hands out the current value and
    leaves the next one. *)
Theorem X12_sequence_never_goes_back :
  (forall uid st db,
     sku_sequence db <= sku_sequence (state_of (request uid st db))
                     <= sku_sequence db + 1)
  /\ (forall db, reachable db -> 1 <= sku_sequence db)
  /\ (forall uid db,
        sku_sequence db <= bigint_max ->
        generateSku uid db = Committed (set_sku_sequence (sku_sequence db + 1) db)).
Proof.
  assert (forall uid st db,
            sku_sequence db <= sku_sequence (state_of (request uid st db))
                            <= sku_sequence db + 1) as Hstep.
  { intros uid st db. unfold request, run.
    destruct (exec uid st db) as [[e|[]] db'] eqn:E; cbn [state_of];
      apply exec_sequence in E; [by destruct db|done]. }
  split; [exact Hstep|]. split.
  - induction 1 as [admins|db uid st Hr IH]; [cbn; lia|].
    specialize (Hstep uid st db). lia.
  - intros uid db Hmax. unfold generateSku, request, run. cbn [exec].
    unfold generate_sku, nextval. tx_unfold.
    by rewrite (proj2 (Z.leb_le _ _) Hmax).
Qed.

Lemma X12_sequence_never_goes_back_witness :
  reachable Sample.db2 /\ 1 <= sku_sequence Sample.db2.
Proof.
  split; [exact reachable_db2|].
  exact (proj1 (proj2 X12_sequence_never_goes_back) Sample.db2 reachable_db2).
Defined.

(** ** The text of a SKU *)

Lemma sku_checked_all :
  forallb sku_checked (seq 0 (Z.to_nat 10000)) = true.
Proof. vm_compute. reflexivity. Qed.

Lemma sku_checked_at n :
  0 <= n <= 9999 -> sku_checked (Z.to_nat n) = true.
Proof.
  intros Hn. apply (proj1 (forallb_forall _ _) sku_checked_all).
  apply in_seq. lia.
Qed.

(** X13.  While the counter is at most 9999 a SKU is the text the form
    shows: seven characters, "SF-" and four digits that read as the counter;
    so two counters in that range never give the same SKU. *)
Theorem X13_sku_of_reads_back n m :
  0 <= n <= 9999 -> 0 <= m <= 9999 ->
  String.length (sku_of n) = 7%nat
  /\ String.substring 0 3 (sku_of n) = "SF-"
  /\ Js.digitsValue 0 (String.substring 3 4 (sku_of n)) = n
  /\ (sku_of n = sku_of m -> n = m).
Proof.
  intros Hn Hm.
  pose proof (sku_checked_at n Hn) as Cn.
  pose proof (sku_checked_at m Hm) as Cm.
  unfold sku_checked in Cn, Cm. rewrite !Z2Nat.id in Cn, Cm by lia.
  apply andb_true_iff in Cn as [[Ln Pn]%andb_true_iff Dn].
  apply andb_true_iff in Cm as [_ Dm].
  apply Nat.eqb_eq in Ln. apply String.eqb_eq in Pn.
  apply Z.eqb_eq in Dn. apply Z.eqb_eq in Dm.
  split; [exact Ln|]. split; [exact Pn|]. split; [exact Dn|].
  intros E. rewrite <- Dn, <- Dm. by rewrite E.
Qed.

Lemma X13_sku_of_reads_back_witness :
  Js.digitsValue 0 (String.substring 3 4 (sku_of 42)) = 42.
Proof.
  exact (proj1 (proj2 (proj2 (X13_sku_of_reads_back 42 7
                                ltac:(lia) ltac:(lia))))).
Defined.

(** ** Numbers typed into the dialogs *)

Lemma digit_char c :
  Js.isDigit c = true ->
  JsText.isWhiteSpace c = false /\ c <> "-"%char /\ c <> "+"%char.
Proof.
  destruct c as [[] [] [] [] [] [] [] []]; cbn; intros H;
    try discriminate H; repeat split; discriminate.
Qed.

Lemma parseInt_digit c t :
  Js.isDigit c = true ->
  JsText.parseInt (String c t)
  = Some (Js.digitsValue 0 (fst (Js.digitRun (String c t)))).
Proof.
  intros H. destruct (digit_char c H) as (Hw & Hm & Hp).
  unfold JsText.parseInt. cbn [JsText.trimStart]. rewrite Hw.
  assert ((match String c t with
           | String "-"%char t0 => (-1, t0)
           | String "+"%char t0 => (1, t0)
           | _ => (1, String c t)
           end) = (1, String c t)) as ->.
  { clear -Hm Hp.
    destruct c as [[] [] [] [] [] [] [] []]; try reflexivity; congruence. }
  cbn [Js.digitRun]. rewrite H. destruct (Js.digitRun t) as [d r].
  cbn [fst]. by rewrite Z.mul_1_l.
Qed.

Lemma digitRun_uint d :
  Js.digitRun (NilEmpty.string_of_uint d) = (NilEmpty.string_of_uint d, "").
Proof.
  induction d; cbn [NilEmpty.string_of_uint Js.digitRun]; [done|..];
    rewrite IHd; reflexivity.
Qed.

Lemma digitsValue_uint_acc d acc :
  Js.digitsValue (Z.pos acc) (NilEmpty.string_of_uint d)
  = Z.pos (Pos.of_uint_acc d acc).
Proof.
  revert acc.
  induction d; intros acc;
    cbn [NilEmpty.string_of_uint Js.digitsValue Pos.of_uint_acc]; [done|..];
    rewrite <- IHd; f_equal; unfold Js.digitValue;
    match goal with
    | |- context [Z.of_nat (nat_of_ascii ?c) - 48] =>
        let v := eval vm_compute in (Z.of_nat (nat_of_ascii c) - 48) in
        change (Z.of_nat (nat_of_ascii c) - 48) with v
    end; lia.
Qed.

Lemma digitsValue_uint d :
  Js.digitsValue 0 (NilEmpty.string_of_uint d) = Z.of_N (Pos.of_uint d).
Proof.
  induction d; cbn [NilEmpty.string_of_uint Js.digitsValue Pos.of_uint];
    [done|exact IHd|..];
    cbn [Z.of_N]; rewrite <- digitsValue_uint_acc; reflexivity.
Qed.

Lemma isDigit_head_uint d :
  d <> Decimal.Nil ->
  exists c t, NilEmpty.string_of_uint d = String c t /\ Js.isDigit c = true.
Proof. destruct d; [done|..]; intros _; eexists _, _; by split. Qed.

Lemma parseInt_pos p :
  JsText.parseInt (NilZero.string_of_uint (Pos.to_uint p)) = Some (Z.pos p).
Proof.
  pose proof (Unsigned.to_uint_nonnil p) as Hn.
  assert (NilZero.string_of_uint (Pos.to_uint p)
          = NilEmpty.string_of_uint (Pos.to_uint p)) as ->
    by (by destruct (Pos.to_uint p)).
  destruct (isDigit_head_uint _ Hn) as (c & t & E & Hc).
  rewrite E, (parseInt_digit c t Hc), <- E, digitRun_uint. cbn [fst].
  by rewrite digitsValue_uint, DecimalPos.Unsigned.of_to.
Qed.

Lemma parseInt_signed s n :
  JsText.parseInt s = Some n ->
  (forall c t, s = String c t -> Js.isDigit c = true) ->
  JsText.parseInt (String "-" s) = Some (- n).
Proof.
  destruct s as [|c t]; [done|]. intros H Hd.
  specialize (Hd c t eq_refl). rewrite (parseInt_digit c t Hd) in H.
  injection H as <-.
  unfold JsText.parseInt. cbn [JsText.trimStart].
  change (JsText.isWhiteSpace "-") with false. cbv iota.
  cbn [Js.digitRun]. rewrite Hd. destruct (Js.digitRun t) as [d r].
  unfold fst. f_equal; lia.
Qed.

Lemma parseInt_toString n : JsText.parseInt (JsText.toString n) = Some n.
Proof.
  unfold JsText.toString. destruct n as [|p|p]; cbn [Z.to_int NilZero.string_of_int].
  - reflexivity.
  - apply parseInt_pos.
  - change (Z.neg p) with (- Z.pos p).
    apply parseInt_signed; [apply parseInt_pos|].
    intros c t E. pose proof (Unsigned.to_uint_nonnil p) as Hn.
    assert (NilZero.string_of_uint (Pos.to_uint p)
            = NilEmpty.string_of_uint (Pos.to_uint p)) as E'
      by (by destruct (Pos.to_uint p)).
    destruct (isDigit_head_uint _ Hn) as (c' & t' & E2 & Hc).
    congruence.
Qed.

(** ** Updates of single rows *)

Lemma update_variant_targets_committed db uid v patch now :
  wf db -> holds db -> is_admin db uid = true -> v ∈ product_variants db ->
  vp_sku patch = None -> vp_variant_type patch = None ->
  vp_variant_value patch = None ->
  request uid (UpdateVariant (v_id v) patch now) db
  = Committed
      (set_product_variants
         (map (fun u => if bool_decide (u = v)
                        then update_last_updated now (apply_variant_patch patch v)
                        else u)
              (product_variants db)) db).
Proof.
  intros Hwf Hh Ha Hv Es Et Ev.
  unfold request, run. cbn [exec]. unfold update_variant. tx_unfold.
  rewrite (can_modify_admin _ _ _ _ Ha), (delete_variant_targets _ _ Hwf Hv).
  cbn [for_each]. unfold update_variant_row. tx_unfold.
  rewrite (with_check_admin _ _ _ _ Ha).
  destruct (holds_variants _ Hh) as [Hsku Hkey].
  pose proof (wf_NoDup_variants _ Hwf) as Hnd.
  cbn [update_last_updated apply_variant_patch v_sku].
  rewrite Es. cbn [default].
  rewrite bool_decide_eq_true_2; cycle 1.
  { intros (u & E & [Hne Hu]%list_elem_of_filter)%list_elem_of_fmap.
    apply Hne. symmetry. by apply (NoDup_map_inj v_sku _ v u Hsku). }
  rewrite bool_decide_eq_true_2; [done|].
  apply Forall_forall. intros u [Hne Hu]%list_elem_of_filter Hk.
  apply Hne. apply (NoDup_map_inj variant_key _ u v Hkey); [done..|].
  unfold variant_key. destruct Hk as (E1 & E2 & E3).
  cbn in E1, E2, E3. rewrite Et in E2. rewrite Ev in E3. cbn in E2, E3.
  congruence.
Qed.




Lemma reachable_db_owed : reachable SampleStore.db_owed.
Proof.
  exact (reachable_step _ Sample.admin
           (UpdateVariant "v2" (AdminActions.quantityPatch (-3) Sample.admin) 9)
           reachable_db2).
Qed.


(** ** The timers *)

Lemma msUntil_spec h m now :
  0 <= h < 24 -> 0 <= m < 60 ->
  let target := h * Schedule.msPerHour + m * Schedule.msPerMinute in
  let d := Schedule.msUntil h m now in
  (Schedule.timeOfDay now < target -> d = target - Schedule.timeOfDay now)
  /\ (target <= Schedule.timeOfDay now ->
      d = target - Schedule.timeOfDay now + Schedule.msPerDay).
Proof.
  intros Hh Hm. cbv zeta.
  unfold Schedule.msUntil, Schedule.getHours, Schedule.getMinutes,
    Schedule.setHours, Schedule.nextDate, Schedule.timeOfDay,
    Schedule.msPerDay, Schedule.msPerHour, Schedule.msPerMinute.
  assert ((now + 86400000) mod 86400000 = now mod 86400000) as Ed.
  { Z.div_mod_to_equations. lia. }
  rewrite Ed.
  assert (now mod 3600000 = (now mod 86400000) mod 3600000) as Em.
  { Z.div_mod_to_equations. lia. }
  rewrite Em.
  pose proof (Z.mod_pos_bound now 86400000 ltac:(lia)) as Hb.
  set (t := now mod 86400000) in *. clearbody t.
  split; intros Ht.
  - rewrite (proj2 (orb_true_iff _ _)); [lia|].
    destruct (Z.ltb_spec (t / 3600000) h) as [|Hge]; [by left|right].
    apply andb_true_iff. split.
    + apply Z.eqb_eq. Z.div_mod_to_equations. lia.
    + apply Z.ltb_lt. Z.div_mod_to_equations. lia.
  - rewrite (proj2 (orb_false_iff _ _)); [lia|]. split.
    + apply Z.ltb_ge. Z.div_mod_to_equations. lia.
    + apply andb_false_iff.
      destruct (Z.eqb_spec (t / 3600000) h) as [Eh|]; [right|by left].
      apply Z.ltb_ge. Z.div_mod_to_equations. lia.
Qed.

(** X16.  The delay of a timer is the time to the next 08:35 (opening) or
    21:35 (closing) of the browser's clock that is strictly ahead: it is more
    than 0 and at most 24 hours, and the timer fires at that time of day.  A
    dashboard loaded at 08:35:00.000 sharp waits a whole day. *)
Theorem X16_timers_fire_at_next_occurrence now :
  let '(msUntilOpen, msUntilClose) := Schedule.scheduleStoreUpdates now in
  (0 < msUntilOpen <= Schedule.msPerDay
   /\ Schedule.timeOfDay (now + msUntilOpen)
      = 8 * Schedule.msPerHour + 35 * Schedule.msPerMinute)
  /\ (0 < msUntilClose <= Schedule.msPerDay
      /\ Schedule.timeOfDay (now + msUntilClose)
         = 21 * Schedule.msPerHour + 35 * Schedule.msPerMinute)
  /\ (Schedule.timeOfDay now
      = 8 * Schedule.msPerHour + 35 * Schedule.msPerMinute ->
      msUntilOpen = Schedule.msPerDay).
Proof.
  unfold Schedule.scheduleStoreUpdates, Schedule.openHour,
    Schedule.openMinute, Schedule.closeHour, Schedule.closeMinute.
  pose proof (msUntil_spec 8 35 now ltac:(lia) ltac:(lia)) as [Ho1 Ho2].
  pose proof (msUntil_spec 21 35 now ltac:(lia) ltac:(lia)) as [Hc1 Hc2].
  cbv zeta in Ho1, Ho2, Hc1, Hc2.
  unfold Schedule.timeOfDay, Schedule.msPerDay, Schedule.msPerHour,
    Schedule.msPerMinute in *.
  pose proof (Z.mod_pos_bound now 86400000 ltac:(lia)) as Hb.
  pose proof (Z.div_mod now 86400000 ltac:(lia)) as Hdm.
  set (o := Schedule.msUntil 8 35 now) in *.
  set (c := Schedule.msUntil 21 35 now) in *.
  clearbody o c.
  assert (forall d target,
            0 <= target < 86400000 ->
            d = target - now mod 86400000
            \/ d = target - now mod 86400000 + 86400000 ->
            (now + d) mod 86400000 = target) as Hland.
  { intros d target Ht [->| ->].
    - replace (now + (target - now mod 86400000))
        with (target + now / 86400000 * 86400000) by lia.
      rewrite Z.mod_add by lia. apply Z.mod_small. lia.
    - replace (now + (target - now mod 86400000 + 86400000))
        with (target + (now / 86400000 + 1) * 86400000) by lia.
      rewrite Z.mod_add by lia. apply Z.mod_small. lia. }
  split; [|split].
  - split; [lia|]. apply Hland; lia.
  - split; [lia|]. apply Hland; lia.
  - lia.
Qed.

Lemma X16_timers_fire_at_next_occurrence_witness :
  fst (Schedule.scheduleStoreUpdates
         (8 * Schedule.msPerHour + 35 * Schedule.msPerMinute))
  = Schedule.msPerDay.
Proof.
  pose proof (X16_timers_fire_at_next_occurrence
                (8 * Schedule.msPerHour + 35 * Schedule.msPerMinute)) as H.
  destruct (Schedule.scheduleStoreUpdates
              (8 * Schedule.msPerHour + 35 * Schedule.msPerMinute)) as [o c].
  apply (proj2 (proj2 H)). reflexivity.
Defined.

(** X17.  Which timer fires first: from 08:35 up to 21:35 of the browser's
    clock the closing timer, at every other time the opening timer; the two
    never fire together, they are 13 or 11 hours apart. *)
Theorem X17_first_timer now :
  let '(msUntilOpen, msUntilClose) := Schedule.scheduleStoreUpdates now in
  let open := 8 * Schedule.msPerHour + 35 * Schedule.msPerMinute in
  let close := 21 * Schedule.msPerHour + 35 * Schedule.msPerMinute in
  (open <= Schedule.timeOfDay now < close ->
   msUntilOpen = msUntilClose + 11 * Schedule.msPerHour)
  /\ (~ open <= Schedule.timeOfDay now < close ->
      msUntilClose = msUntilOpen + 13 * Schedule.msPerHour).
Proof.
  unfold Schedule.scheduleStoreUpdates, Schedule.openHour,
    Schedule.openMinute, Schedule.closeHour, Schedule.closeMinute.
  pose proof (msUntil_spec 8 35 now ltac:(lia) ltac:(lia)) as [Ho1 Ho2].
  pose proof (msUntil_spec 21 35 now ltac:(lia) ltac:(lia)) as [Hc1 Hc2].
  cbv zeta in *.
  unfold Schedule.timeOfDay, Schedule.msPerDay, Schedule.msPerHour,
    Schedule.msPerMinute in *.
  pose proof (Z.mod_pos_bound now 86400000 ltac:(lia)) as Hb.
  split; lia.
Qed.

Lemma X17_first_timer_witness :
  fst (Schedule.scheduleStoreUpdates (10 * Schedule.msPerHour))
  = snd (Schedule.scheduleStoreUpdates (10 * Schedule.msPerHour))
    + 11 * Schedule.msPerHour.
Proof.
  pose proof (X17_first_timer (10 * Schedule.msPerHour)) as H.
  destruct (Schedule.scheduleStoreUpdates (10 * Schedule.msPerHour)) as [o c].
  cbv zeta in H. apply (proj1 H).
  change (Schedule.timeOfDay (10 * Schedule.msPerHour)) with 36000000.
  unfold Schedule.msPerHour, Schedule.msPerMinute. lia.
Defined.

(** ** The catalog of the public page *)

Lemma fetchItems_elem order_name order_value uid db item :
  (forall l, order_name l ≡ₚ l) ->
  item ∈ IndexItems.fetchItems order_name order_value uid db <->
  exists p, p ∈ product db /\ p_is_visible p = true
            /\ item = IndexItems.mkItem p
                        (order_value (variants_of (p_id p) (product_variants db))).
Proof.
  intros Hperm. unfold IndexItems.fetchItems, IndexItems.normalizedItems,
    select_product, select_product_variants.
  rewrite !can_select_all by done.
  rewrite list_elem_of_In, filter_In, <- list_elem_of_In, list_elem_of_fmap.
  split.
  - intros [(p & -> & Hp) Hv]. exists p. by rewrite <- (Hperm (product db)).
  - intros (p & Hp & Hv & ->). split; [|done].
    exists p. by rewrite (Hperm (product db)).
Qed.

(** X18.  What the public page lists, in a reachable state and whoever
    asks: exactly the visible products, each once, each with exactly its own
    variants; every listed product has a variant, so the resolver always
    gives it an active one, whatever the stored selection. *)
Theorem X18_fetchItems_lists_visible
    (order_name : list ProductRow -> list ProductRow)
    (order_value : list ProductVariant -> list ProductVariant)
    (uid : option uuid) (db : DB) :
  (forall l, order_name l ≡ₚ l) -> (forall l, order_value l ≡ₚ l) ->
  reachable db ->
  let items := IndexItems.fetchItems order_name order_value uid db in
  (forall p, p ∈ product db -> p_is_visible p = true ->
     exists item, item ∈ items /\ IndexItems.item_row item = p)
  /\ (forall item, item ∈ items ->
        IndexItems.item_row item ∈ product db
        /\ p_is_visible (IndexItems.item_row item) = true
        /\ (forall v, v ∈ IndexItems.item_variants item <->
              v ∈ product_variants db
              /\ v_product_id v = p_id (IndexItems.item_row item))
        /\ IndexItems.item_variants item <> []
        /\ forall selectedVariants,
             exists v,
               snd (Index.getVariantsForItem selectedVariants
                      (IndexItems.view item)) = Some v
               /\ v ∈ IndexItems.item_variants item)
  /\ NoDup (map (fun item => p_id (IndexItems.item_row item)) items).
Proof.
  intros Hn Hv Hr items. pose proof (reachable_wf _ Hr) as Hwf.
  split; [|split].
  - intros p Hp Hvis.
    exists (IndexItems.mkItem p
              (order_value (variants_of (p_id p) (product_variants db)))).
    split; [|reflexivity].
    apply fetchItems_elem; [done|]. by exists p.
  - intros item (p & Hp & Hvis & ->)%fetchItems_elem; [|done].
    cbn [IndexItems.item_row IndexItems.item_variants].
    assert (order_value (variants_of (p_id p) (product_variants db)) <> [])
      as Hne.
    { intros E.
      assert (1 <= length (variants_of (p_id p) (product_variants db)))%nat
        as Hlen.
      { apply variants_of_nonempty, (wf_nonempty _ Hwf).
        by apply list_elem_of_fmap_2. }
      rewrite <- (Hv (variants_of (p_id p) (product_variants db))), E in Hlen.
      cbn in Hlen. lia. }
    split; [done|]. split; [done|]. split; [|split; [done|]].
    + intros v. rewrite (Hv _), variants_of_elem. tauto.
    + intros sel. unfold Index.getVariantsForItem. cbn [snd].
      cbn [IndexItems.view pv_variants pv_id IndexItems.item_row
             IndexItems.item_variants].
      set (vs := order_value _) in *.
      destruct (selectActive (sel !! p_id p) (Index.sortVariants vs))
        as [v|] eqn:E.
      * exists v. split; [done|].
        apply (proj1 (proj2 (selectActive_spec _ _))) in E.
        by apply sort_elem_of in E.
      * apply (proj1 (selectActive_spec _ _)) in E.
        exfalso. apply Hne. apply Permutation_nil_r. rewrite <- E.
        symmetry. apply sort_perm.
  - unfold items, IndexItems.fetchItems, IndexItems.normalizedItems,
      select_product.
    rewrite can_select_all by done.
    pose proof (wf_product_pkey _ Hwf) as Hnd.
    rewrite <- (Hn (product db)) in Hnd.
    induction (order_name (product db)) as [|p l IH]; [constructor|].
    cbn [map] in Hnd. apply NoDup_cons in Hnd as [Hp Hl].
    cbn [map List.filter IndexItems.item_row].
    destruct (p_is_visible p); [|by apply IH].
    cbn [map IndexItems.item_row]. apply NoDup_cons. split; [|by apply IH].
    intros (item & E & Hin)%list_elem_of_fmap. apply Hp.
    apply list_elem_of_In, filter_In in Hin as [Hin _].
    apply list_elem_of_In, list_elem_of_fmap in Hin as (q & -> & Hq).
    cbn in E. rewrite E. by apply list_elem_of_fmap_2.
Qed.

Lemma X18_fetchItems_lists_visible_witness :
  NoDup (map (fun item => p_id (IndexItems.item_row item))
             (IndexItems.fetchItems (fun l => l) (fun l => l)
                Sample.visitor Sample.db2)).
Proof.
  exact (proj2 (proj2 (X18_fetchItems_lists_visible
                         (fun l => l) (fun l => l) Sample.visitor Sample.db2
                         (fun l => reflexivity l) (fun l => reflexivity l)
                         reachable_db2))).
Defined.

Lemma nullify_same row :
  p_category row <> Some "" -> nullify_empty_category_name row = row.
Proof.
  unfold nullify_empty_category_name. intros H.
  destruct (p_category row) as [c|] eqn:E; [|done].
  destruct (String.eqb_spec c ""); [congruence|done].
Qed.

Lemma update_product_committed db uid p patch now :
  wf db -> holds db -> is_admin db uid = true -> p ∈ product db ->
  pp_category patch = None ->
  request uid (UpdateProduct (p_id p) patch now) db
  = Committed
      (set_product
         (map (fun r => if bool_decide (r = p)
                        then update_product_last_updated now
                               (apply_product_patch patch p)
                        else r)
              (product db)) db).
Proof.
  intros Hwf Hh Ha Hp Ec.
  destruct (holds_products _ Hh p Hp) as [Hne Hfk].
  assert (p_category (apply_product_patch patch p) = p_category p) as Ecat
    by (cbn; by rewrite Ec).
  unfold request, run. cbn [exec]. unfold update_product. tx_unfold.
  rewrite (can_modify_admin _ _ _ _ Ha), (delete_product_targets _ _ Hwf Hp).
  cbn [for_each]. unfold update_product_row. tx_unfold.
  rewrite (with_check_admin _ _ _ _ Ha).
  rewrite (nullify_same (apply_product_patch patch p)) by (by rewrite Ecat).
  assert (category_fkey db (update_product_last_updated now
                              (apply_product_patch patch p)) = true) as ->.
  { unfold category_fkey. cbn [update_product_last_updated p_category].
    rewrite Ecat. destruct (p_category p) as [c|] eqn:E; [|done].
    apply bool_decide_eq_true. by apply Hfk. }
  reflexivity.
Qed.



Lemma for_each_ext {A} (f g : A -> Tx unit) (l : list A) :
  (forall x db, f x db = g x db) ->
  forall db, for_each f l db = for_each g l db.
Proof.
  intros H. induction l as [|x l IH]; intros db; [done|].
  cbn [for_each]. unfold bind. rewrite H.
  destruct (g x db) as [[e|[]] db1]; [done|apply IH].
Qed.

Lemma stamp_ignores_client patch t now OLD :
  update_product_last_updated now
    (nullify_empty_category_name (apply_product_patch patch OLD))
  = update_product_last_updated now
      (nullify_empty_category_name
         (apply_product_patch
            (mkProductPatch (pp_name patch) (pp_description patch)
               (pp_category patch) (pp_is_visible patch) (pp_image_url patch)
               t (pp_updated_by patch)) OLD)).
Proof.
  unfold nullify_empty_category_name, apply_product_patch.
  cbn [p_category pp_category].
  destruct (default (p_category OLD) (pp_category patch)) as [c|]; [|done].
  by destruct (String.eqb c "").
Qed.

(** X20.  [last_updated] of a product is the time of the database, not of
    the browser: whatever [last_updated] an update carries, and whether it
    carries one, the outcome is the same; and an update by an admin in a
    reachable state that is committed leaves the product with [last_updated]
    equal to the time of the statement. *)
Theorem X20_last_updated_is_database_time db uid id patch t now :
  request uid (UpdateProduct id patch now) db
  = request uid
      (UpdateProduct id
         (mkProductPatch (pp_name patch) (pp_description patch)
            (pp_category patch) (pp_is_visible patch) (pp_image_url patch)
            t (pp_updated_by patch)) now) db
  /\ (reachable db -> is_admin db uid = true ->
      forall db', request uid (UpdateProduct id patch now) db = Committed db' ->
      forall r, r ∈ product db' -> p_id r = id -> p_last_updated r = now).
Proof.
  split.
  - unfold request, run. cbn [exec]. unfold update_product. tx_unfold.
    destruct (can_modify db uid t_product UPDATE); [|done].
    rewrite (for_each_ext (update_product_row uid patch now)
               (update_product_row uid
                  (mkProductPatch (pp_name patch) (pp_description patch)
                     (pp_category patch) (pp_is_visible patch)
                     (pp_image_url patch) t (pp_updated_by patch)) now));
      [done|].
    intros OLD d. unfold update_product_row.
    by rewrite <- (stamp_ignores_client patch t now OLD).
  - intros Hr Ha db' E r Hin Eid. pose proof (reachable_wf _ Hr) as Hwf.
    unfold request, run in E. cbn [exec] in E. unfold update_product in E.
    tx_unfold. rewrite (can_modify_admin _ _ _ _ Ha) in E.
    destruct (filter_key_NoDup p_id (product db) id (wf_product_pkey _ Hwf))
      as [En|(p & Ep & Hp & Hk)].
    + rewrite En in E. cbn [for_each] in E. tx_unfold. injection E as <-.
      exfalso. eapply (filter_nil_not_elem_of _ _ r En); done.
    + rewrite Ep in E. cbn [for_each] in E. unfold update_product_row in E.
      tx_unfold. rewrite (with_check_admin _ _ _ _ Ha) in E.
      cbn beta iota zeta in E.
      destruct (category_fkey db _); [|done].
      injection E as <-. cbn [product set_product] in Hin.
      apply replace_elem_of in Hin as [[-> _]|[Hin Hne]]; [done|].
      exfalso. apply Hne.
      apply (NoDup_map_inj p_id (product db) r p (wf_product_pkey _ Hwf));
        [done..|congruence].
Qed.

Lemma X20_last_updated_is_database_time_witness :
  Forall (fun r => p_id r = "p1" -> p_last_updated r = 9)
         (product
            (state_of
               (request Sample.admin
                  (UpdateProduct "p1" (AdminActions.visibilityPatch false None) 9)
                  Sample.db2))).
Proof.
  assert (exists db',
            request Sample.admin
              (UpdateProduct "p1" (AdminActions.visibilityPatch false None) 9)
              Sample.db2 = Committed db') as [db' E]
    by (eexists; vm_compute; reflexivity).
  rewrite E. cbn [state_of]. apply Forall_forall. intros r Hin Hid.
  exact (proj2 (X20_last_updated_is_database_time Sample.db2 Sample.admin
                  "p1" (AdminActions.visibilityPatch false None) (Some 0) 9)
               reachable_db2 eq_refl db' E r Hin Hid).
Defined.

(** ** The search box *)

Lemma prefix_spec a s :
  String.prefix a s = true <-> exists post, s = a +:+ post.
Proof.
  revert s. induction a as [|c a IH]; intros s.
  - split; [intros _; exists s; reflexivity|intros _; by destruct s].
  - destruct s as [|d s]; [split; [discriminate|intros [? [=]]]|].
    change (String.prefix (String c a) (String d s))
      with (if Ascii.ascii_dec c d then String.prefix a s else false).
    destruct (Ascii.ascii_dec c d) as [->|Hne].
    + rewrite IH. split; intros [post E]; exists post.
      * change (String d s = String d (a +:+ post)). by rewrite E.
      * change (String d s = String d (a +:+ post)) in E. congruence.
    + split; [discriminate|]. intros [post E].
      change (String d s = String c (a +:+ post)) in E. congruence.
Qed.

Lemma includes_spec s sub :
  Js.includes s sub = true <-> exists pre post, s = pre +:+ sub +:+ post.
Proof.
  induction s as [|c s IH]; cbn [Js.includes]; rewrite orb_true_iff.
  - rewrite prefix_spec. split.
    + intros [[post E]|]; [|done]. by exists "", post.
    + intros (pre & post & E). left. exists post.
      destruct pre; [exact E|discriminate E].
  - rewrite prefix_spec, IH. split.
    + intros [[post E]|(pre & post & E)].
      * by exists "", post.
      * exists (String c pre), post.
        change (String c s = String c (pre +:+ sub +:+ post)). by rewrite E.
    + intros (pre & post & E). destruct pre as [|d pre].
      * left. by exists post.
      * right. exists pre, post.
        change (String c s = String d (pre +:+ sub +:+ post)) in E.
        congruence.
Qed.

Lemma append_assoc (a b c : string) : (a +:+ b) +:+ c = a +:+ (b +:+ c).
Proof.
  induction a as [|x a IH]; [reflexivity|].
  change (String x ((a +:+ b) +:+ c) = String x (a +:+ b +:+ c)).
  by rewrite IH.
Qed.

Lemma includes_trans s b a :
  Js.includes s b = true -> Js.includes b a = true -> Js.includes s a = true.
Proof.
  rewrite !includes_spec.
  intros (p1 & q1 & ->) (p2 & q2 & ->).
  exists (p1 +:+ p2), (q2 +:+ q1). by rewrite !append_assoc.
Qed.

Lemma blank_trimStart s : blank s <-> JsText.trimStart s = "".
Proof.
  unfold blank, JsText.trim. split; [|by intros ->].
  assert (forall t, (t = "" \/ exists c t', t = String c t'
                                      /\ JsText.isWhiteSpace c = false) ->
                    JsText.trimEnd t = "" -> t = "") as H.
  { intros t [->|(c & t' & -> & Hc)]; [done|].
    cbn [JsText.trimEnd]. rewrite Hc. by destruct (JsText.trimEnd t'). }
  apply H. induction s as [|c s IH]; [by left|].
  cbn [JsText.trimStart]. destruct (JsText.isWhiteSpace c) eqn:Ec; [done|].
  right. by exists c, s.
Qed.

Lemma trimStart_app a b :
  JsText.trimStart (a +:+ b) = "" <->
  JsText.trimStart a = "" /\ JsText.trimStart b = "".
Proof.
  induction a as [|c a IH].
  - change ("" +:+ b) with b. cbn. tauto.
  - change (String c a +:+ b) with (String c (a +:+ b)).
    cbn [JsText.trimStart].
    destruct (JsText.isWhiteSpace c); [done|].
    split; [discriminate|by intros [? _]].
Qed.

Lemma isWhiteSpace_lower c :
  JsText.isWhiteSpace (Js.toLowerChar c) = JsText.isWhiteSpace c.
Proof. by destruct c as [[] [] [] [] [] [] [] []]. Qed.

Lemma trimStart_lower s :
  JsText.trimStart (Js.toLowerCase s) = "" <-> JsText.trimStart s = "".
Proof.
  induction s as [|c s IH]; [done|]. cbn. rewrite isWhiteSpace_lower.
  by destruct (JsText.isWhiteSpace c).
Qed.

Lemma filteredItems_elem q items item :
  item ∈ IndexItems.filteredItems q items ->
  item ∈ items.
Proof.
  unfold IndexItems.filteredItems.
  destruct (String.eqb (JsText.trim q) ""); [done|].
  rewrite !list_elem_of_In, filter_In. tauto.
Qed.

Lemma textMatches_mono q1 q2 x :
  Js.includes q2 q1 = true ->
  IndexItems.textMatches q2 x = true -> IndexItems.textMatches q1 x = true.
Proof.
  intros Hq. destruct x as [s|]; [|done]. cbn.
  rewrite !andb_true_iff. intros [? H]. split; [done|].
  by apply (includes_trans _ q2).
Qed.

(** X21.  The search box only ever narrows the list, and typing more never
    brings an item back: what a query keeps is part of the items, in their
    order, a blank query keeps them all, and when a query occurs inside a
    second one (whatever the case of the letters) every item the second one
    keeps is kept by the first. *)
Theorem X21_search_narrows (q1 q2 : string) (items : list IndexItems.Item) :
  sublist (IndexItems.filteredItems q2 items) items
  /\ (blank q2 -> IndexItems.filteredItems q2 items = items)
  /\ (Js.includes (Js.toLowerCase q2) (Js.toLowerCase q1) = true ->
      forall item, item ∈ IndexItems.filteredItems q2 items ->
                   item ∈ IndexItems.filteredItems q1 items).
Proof.
  split; [|split].
  - unfold IndexItems.filteredItems.
    destruct (String.eqb (JsText.trim q2) ""); [done|].
    induction items as [|i l IH]; [done|]. cbn [List.filter].
    destruct (_ || _); by constructor.
  - unfold blank, IndexItems.filteredItems. by intros ->.
  - intros Hq item Hin.
    unfold IndexItems.filteredItems at 1.
    destruct (String.eqb_spec (JsText.trim q1) "") as [_|Hb1];
      [by eapply filteredItems_elem|].
    assert (JsText.trim q2 <> "") as Hb2.
    { intros Hb2. apply Hb1. apply blank_trimStart, trimStart_lower.
      apply blank_trimStart, trimStart_lower in Hb2.
      apply includes_spec in Hq as (pre & post & E). rewrite E in Hb2.
      apply trimStart_app in Hb2 as [_ Hb2].
      by apply trimStart_app in Hb2 as [Hb2 _]. }
    unfold IndexItems.filteredItems in Hin.
    destruct (String.eqb_spec (JsText.trim q2) ""); [done|].
    cbv zeta in *. rewrite list_elem_of_In, filter_In in *.
    destruct Hin as [Hin Hm]. split; [done|].
    apply orb_true_iff in Hm as [Hm|Hm]; apply orb_true_iff; [left|right].
    + unfold IndexItems.matchesItem in *.
      rewrite !orb_true_iff in *.
      destruct Hm as [[Hm|Hm]|Hm];
        [apply (fun H => includes_trans _ _ _ H Hq) in Hm
        |apply (textMatches_mono _ _ _ Hq) in Hm..]; tauto.
    + apply existsb_exists in Hm as (v & Hv & Hm).
      apply existsb_exists. exists v. split; [done|].
      unfold IndexItems.matchesVariant in *. cbv zeta in *.
      rewrite !orb_true_iff in *.
      destruct Hm as [[[[Hm|Hm]|Hm]|Hm]|Hm];
        apply (fun H => includes_trans _ _ _ H Hq) in Hm; tauto.
Qed.

Lemma X21_search_narrows_witness :
  let item := IndexItems.mkItem (Sample.product_row "p1") [Sample.extra] in
  Forall (fun i => i ∈ IndexItems.filteredItems "gul" [item])
         (IndexItems.filteredItems "Gulab J" [item]).
Proof.
  intros item. apply Forall_forall.
  exact (proj2 (proj2 (X21_search_narrows "gul" "Gulab J" [item])) eq_refl).
Defined.

(** ** The store status, from the admin's switch to the public page *)

Lemma newest_map (f : StoreStatus -> StoreStatus) rows :
  (forall r, s_updated_at (f r) = s_updated_at r) ->
  UserDashboard.newest (map f rows) = option_map f (UserDashboard.newest rows).
Proof.
  intros Hf. induction rows as [|r rows IH]; [done|].
  cbn [map UserDashboard.newest]. rewrite IH.
  destruct (UserDashboard.newest rows) as [m|]; [|done].
  cbn [option_map]. rewrite !Hf.
  by destruct (UserDashboard.updated_at_le _ _).
Qed.

Lemma update_store_status_committed db uid row patch :
  holds db -> is_admin db uid = true -> row ∈ store_status db ->
  request uid (UpdateStoreStatus (s_id row) patch) db
  = Committed
      (set_store_status
         (map (fun r => if bool_decide (r = row)
                        then apply_store_status_patch patch row else r)
              (store_status db)) db).
Proof.
  intros Hh Ha Hrow. unfold request, run. cbn [exec].
  unfold update_store_status. tx_unfold.
  rewrite (can_modify_admin _ _ _ _ Ha).
  pose proof (holds_statuses _ Hh) as Hnd. unfold statuses_ok in Hnd.
  assert (filter (fun r => s_id r = s_id row) (store_status db) = [row]) as ->.
  { destruct (filter_key_NoDup s_id (store_status db) (s_id row) Hnd)
      as [E|(a & E & Ha' & Hk)].
    - exfalso. eapply (filter_nil_not_elem_of _ _ row E); done.
    - by rewrite E, (key_inj_NoDup s_id _ a row Hnd). }
  cbn [for_each]. unfold update_store_status_row. tx_unfold.
  by rewrite (with_check_admin _ _ _ _ Ha).
Qed.

Lemma public_status_after_update db viewer row b profile :
  UserDashboard.newest (store_status db) = Some row ->
  UserDashboard.effectiveStoreStatus viewer
    (set_store_status
       (map (fun r => if bool_decide (r = row)
                      then apply_store_status_patch
                             (mkStoreStatusPatch (Some b) (Some profile)) row
                      else r)
            (store_status db)) db) = b.
Proof.
  intros Hn. unfold UserDashboard.effectiveStoreStatus,
    UserDashboard.query_store_status, select_store_status.
  rewrite can_select_all by done. cbn [store_status set_store_status].
  rewrite newest_map;
    [|intros r; cbn beta; case_bool_decide; [subst; reflexivity|reflexivity]].
  rewrite Hn. cbn [option_map]. by rewrite bool_decide_eq_true_2.
Qed.

Lemma updated_at_le_antisym a b :
  UserDashboard.updated_at_le a b = true ->
  UserDashboard.updated_at_le b a = true -> a = b.
Proof. destruct a, b; cbn; try done. intros. f_equal. lia. Qed.

(** When no two rows carry the same time, the row that comes first is
    determined: it is the one [newest] gives. *)
Lemma may_come_first_newest rows m :
  NoDup (map s_updated_at rows) -> may_come_first rows m ->
  UserDashboard.newest rows = Some m.
Proof.
  intros Hnd [Hm Hall]. pose proof (newest_spec rows) as Hn.
  destruct (UserDashboard.newest rows) as [m'|].
  - destruct Hn as [Hm' Hall']. f_equal.
    apply (NoDup_map_inj s_updated_at rows m' m Hnd Hm' Hm).
    apply updated_at_le_antisym; [by apply Hall|by apply Hall'].
  - subst. by apply elem_of_nil in Hm.
Qed.

Lemma first_after_update db viewer row b profile m :
  NoDup (map s_updated_at (store_status db)) ->
  UserDashboard.newest (store_status db) = Some row ->
  may_come_first
    (select_store_status viewer
       (set_store_status
          (map (fun r => if bool_decide (r = row)
                         then apply_store_status_patch
                                (mkStoreStatusPatch (Some b) (Some profile)) row
                         else r)
               (store_status db)) db)) m ->
  s_is_open m = b.
Proof.
  intros Hnd Hn. unfold select_store_status.
  rewrite can_select_all by done. cbn [store_status set_store_status].
  intros Hm. apply may_come_first_newest in Hm.
  - rewrite newest_map in Hm;
      [|intros r; cbn beta; case_bool_decide; [subst; reflexivity|reflexivity]].
    rewrite Hn in Hm. cbn [option_map] in Hm.
    rewrite bool_decide_eq_true_2 in Hm by done.
    injection Hm as <-. reflexivity.
  - rewrite map_map.
    erewrite map_ext; [exact Hnd|].
    intros r. cbn beta. case_bool_decide; [subst; reflexivity|reflexivity].
Qed.



(** X23.  The switch in the hands of a caller who is not an admin never
    changes the store.  With a status row loaded, the update touches no row
    and reports no error, so the dashboard shows the state that was asked
    for although nothing was stored; with no row loaded, the insert is
    refused and the dashboard goes back to the state before. *)
Theorem X23_switch_without_rights db uid profile id new_id now nextState s :
  is_admin db uid = false ->
  (AdminStore.storeStatusId s = Some id -> id <> "" ->
   AdminStore.handleStoreStatusToggle uid profile new_id now nextState s db
   = (AdminStore.mkView (Some id) (Some nextState), db))
  /\ (AdminStore.storeStatusId s = None ->
      AdminStore.handleStoreStatusToggle uid profile new_id now nextState s db
      = (AdminStore.mkView None (Some (default false (AdminStore.storeStatus s))),
         db)).
Proof.
  intros Ha. unfold AdminStore.handleStoreStatusToggle. split.
  - intros -> Hid. cbn [IndexPage.truthy].
    rewrite (proj2 (String.eqb_neq _ _) Hid). cbn [negb].
    unfold request, run.
    by rewrite (visitor_exec db uid
                  (UpdateStoreStatus id
                     (mkStoreStatusPatch (Some nextState) (Some profile)))
                  Ha eq_refl).
  - intros ->. unfold AdminStore.insertStatus, request, run.
    rewrite (visitor_exec db uid
               (InsertStoreStatus
                  (mkStoreStatus new_id nextState (Some now) profile))
               Ha eq_refl).
    cbn [is_insert]. by rewrite set_sku_sequence_same.
Qed.

Lemma X23_switch_without_rights_witness :
  SampleStore.closed ∈ store_status SampleStore.db
  /\ AdminStore.handleStoreStatusToggle Sample.visitor Sample.visitor "s3" 12
       true (AdminStore.mkView (Some "s2") (Some false)) SampleStore.db
     = (AdminStore.mkView (Some "s2") (Some true), SampleStore.db)
  /\ UserDashboard.effectiveStoreStatus Sample.visitor SampleStore.db = false.
Proof.
  split; [apply list_elem_of_In; vm_compute; tauto|].
  split; [|vm_compute; reflexivity].
  apply (proj1 (X23_switch_without_rights SampleStore.db Sample.visitor
                  Sample.visitor "s2" "s3" 12 true
                  (AdminStore.mkView (Some "s2") (Some false)) eq_refl));
    [reflexivity|discriminate].
Defined.

(** ** The texts the forms store *)

Lemma toLowerChar_idem c : Js.toLowerChar (Js.toLowerChar c) = Js.toLowerChar c.
Proof. by destruct c as [[] [] [] [] [] [] [] []]. Qed.

Lemma toLowerChar_upper c :
  Js.toLowerChar (JsText.toUpperChar (Js.toLowerChar c)) = Js.toLowerChar c.
Proof. by destruct c as [[] [] [] [] [] [] [] []]. Qed.

Lemma toUpperChar_other c :
  ProductForm.isLowerLetter c = false -> JsText.toUpperChar c = c.
Proof.
  unfold ProductForm.isLowerLetter, JsText.toUpperChar. by intros ->.
Qed.

Lemma toLowerCase_idem s : Js.toLowerCase (Js.toLowerCase s) = Js.toLowerCase s.
Proof.
  induction s as [|c s IH]; [done|]. cbn. by rewrite toLowerChar_idem, IH.
Qed.

Lemma toLowerCase_nil s : Js.toLowerCase s = "" -> s = "".
Proof. by destruct s. Qed.

Lemma replaceInitials_lower b s :
  Js.toLowerCase (ProductForm.replaceInitials b (Js.toLowerCase s))
  = Js.toLowerCase s.
Proof.
  revert b. induction s as [|c s IH]; intros b; [done|].
  cbn [Js.toLowerCase ProductForm.replaceInitials]. rewrite IH. f_equal.
  destruct (b && ProductForm.isLowerLetter (Js.toLowerChar c));
    [apply toLowerChar_upper|apply toLowerChar_idem].
Qed.

Lemma replaceInitials_length b s :
  String.length (ProductForm.replaceInitials b s) = String.length s.
Proof.
  revert b. induction s as [|c s IH]; intros b; [done|].
  cbn [ProductForm.replaceInitials String.length]. by rewrite IH.
Qed.

Lemma toLowerCase_length s : String.length (Js.toLowerCase s) = String.length s.
Proof. induction s as [|c s IH]; [done|]. cbn. by rewrite IH. Qed.

Lemma split_cons s : exists w ws, InventoryForm.split s = w :: ws.
Proof.
  induction s as [|c s (w & ws & E)]; [by eexists _, _|].
  cbn [InventoryForm.split]. rewrite E.
  destruct (Ascii.eqb c " "); by eexists _, _.
Qed.

Lemma join_cons_char c w ws :
  InventoryForm.join (String c w :: ws)
  = String c (InventoryForm.join (w :: ws)).
Proof. by destruct ws. Qed.

Lemma join_nil_cons w ws :
  InventoryForm.join ("" :: w :: ws) = String " " (InventoryForm.join (w :: ws)).
Proof. reflexivity. Qed.

Lemma split_join_scan s :
  (forall c, In c (list_ascii_of_string s) ->
             ProductForm.isBoundary c = true -> c = " "%char) ->
  match InventoryForm.split s with
  | w :: ws =>
      InventoryForm.join (InventoryForm.capitalize w
                          :: map InventoryForm.capitalize ws)
      = ProductForm.replaceInitials true s
      /\ InventoryForm.join (w :: map InventoryForm.capitalize ws)
         = ProductForm.replaceInitials false s
  | [] => False
  end.
Proof.
  induction s as [|c s IH]; intros H; [done|].
  assert (forall c', In c' (list_ascii_of_string s) ->
                     ProductForm.isBoundary c' = true -> c' = " "%char) as Hs
    by (intros c' Hin; apply H; by right).
  specialize (IH Hs). cbn [InventoryForm.split].
  destruct (InventoryForm.split s) as [|w ws]; [done|].
  destruct IH as [IH1 IH2].
  cbn [ProductForm.replaceInitials andb].
  destruct (Ascii.eqb_spec c " ") as [->|Hne].
  - change (ProductForm.isBoundary " ") with true.
    change (ProductForm.isLowerLetter " ") with false. cbv iota.
    cbn [InventoryForm.capitalize map].
    by rewrite join_nil_cons, IH1.
  - assert (ProductForm.isBoundary c = false) as ->.
    { destruct (ProductForm.isBoundary c) eqn:E; [|done].
      exfalso. apply Hne. apply H; [by left|done]. }
    cbn [InventoryForm.capitalize]. rewrite !join_cons_char, IH2.
    split; [|done]. f_equal.
    destruct (ProductForm.isLowerLetter c) eqn:E; [done|].
    by apply toUpperChar_other.
Qed.

Lemma isBoundary_lower c :
  ProductForm.isBoundary (Js.toLowerChar c) = ProductForm.isBoundary c.
Proof. by destruct c as [[] [] [] [] [] [] [] []]. Qed.

Lemma In_lower c s :
  In c (list_ascii_of_string (Js.toLowerCase s)) ->
  exists d, In d (list_ascii_of_string s) /\ c = Js.toLowerChar d.
Proof.
  induction s as [|x s IH]; [done|]. cbn. intros [<-|H].
  - exists x. auto.
  - destruct (IH H) as (d & Hd & ->). exists d. auto.
Qed.

Lemma toLowerChar_ascii c :
  (nat_of_ascii c < 128)%nat -> (nat_of_ascii (Js.toLowerChar c) < 128)%nat.
Proof.
  intros H. apply Nat.ltb_lt in H. apply Nat.ltb_lt. revert H.
  destruct c as [[] [] [] [] [] [] [] []]; vm_compute; done.
Qed.

Lemma toUpperChar_ascii c :
  (nat_of_ascii c < 128)%nat -> (nat_of_ascii (JsText.toUpperChar c) < 128)%nat.
Proof.
  intros H. apply Nat.ltb_lt in H. apply Nat.ltb_lt. revert H.
  destruct c as [[] [] [] [] [] [] [] []]; vm_compute; done.
Qed.

Lemma toLowerCase_ascii s : ascii_text s -> ascii_text (Js.toLowerCase s).
Proof.
  unfold ascii_text. induction s as [|c s IH]; [done|].
  cbn [list_ascii_of_string Js.toLowerCase]. intros [Hc Hs]%Forall_cons.
  apply Forall_cons. split; [by apply toLowerChar_ascii|by apply IH].
Qed.

Lemma replaceInitials_ascii b s :
  ascii_text s -> ascii_text (ProductForm.replaceInitials b s).
Proof.
  unfold ascii_text. revert b. induction s as [|c s IH]; intros b; [done|].
  cbn [list_ascii_of_string ProductForm.replaceInitials].
  intros [Hc Hs]%Forall_cons. apply Forall_cons. split; [|by apply IH].
  destruct (b && ProductForm.isLowerLetter c); [by apply toUpperChar_ascii|done].
Qed.

(** X24.  The name a product is stored under, for a name typed in ASCII
    characters, on which the folding of letters is that of JavaScript.
    [toTitleCase] of the product form gives an ASCII text again and changes
    the case of letters and nothing else (the length and the lower-case text
    stay), and a name that went through it once comes out the same the next
    time the product is saved.  The older form of [InventoryForm] gives the
    same name whenever the only characters of the name that start a word for
    the product form are spaces; they part on a hyphen, after which only the
    product form capitalizes. *)
Theorem X24_toTitleCase_changes_case_only (str : string) :
  ascii_text str ->
  ascii_text (ProductForm.toTitleCase str)
  /\ String.length (ProductForm.toTitleCase str) = String.length str
  /\ Js.toLowerCase (ProductForm.toTitleCase str) = Js.toLowerCase str
  /\ ProductForm.toTitleCase (ProductForm.toTitleCase str)
     = ProductForm.toTitleCase str
  /\ ((forall c, In c (list_ascii_of_string str) ->
                 ProductForm.isBoundary c = true -> c = " "%char) ->
      InventoryForm.toTitleCase str = ProductForm.toTitleCase str)
  /\ ProductForm.toTitleCase "kaju-katli" = "Kaju-Katli"
  /\ InventoryForm.toTitleCase "kaju-katli" = "Kaju-katli".
Proof.
  intros Hascii.
  unfold ProductForm.toTitleCase, InventoryForm.toTitleCase.
  split; [by apply replaceInitials_ascii, toLowerCase_ascii|].
  split; [by rewrite replaceInitials_length, toLowerCase_length|].
  split; [apply replaceInitials_lower|].
  split; [by rewrite replaceInitials_lower|].
  split; [|split; reflexivity].
  intros H.
  pose proof (split_join_scan (Js.toLowerCase str)) as Hs.
  destruct (InventoryForm.split (Js.toLowerCase str)) as [|w ws]; cbn [map].
  - exfalso. apply Hs. intros c (d & Hd & ->)%In_lower Hb.
    rewrite isBoundary_lower in Hb. by rewrite (H d Hd Hb).
  - apply Hs. intros c (d & Hd & ->)%In_lower Hb.
    rewrite isBoundary_lower in Hb. by rewrite (H d Hd Hb).
Qed.

Lemma X24_toTitleCase_changes_case_only_witness :
  ascii_text "gulab JAMUN"
  /\ ascii_text (ProductForm.toTitleCase "gulab JAMUN")
  /\ InventoryForm.toTitleCase "gulab JAMUN" = ProductForm.toTitleCase "gulab JAMUN"
  /\ ProductForm.toTitleCase "gulab JAMUN" = "Gulab Jamun".
Proof.
  assert (ascii_text "gulab JAMUN") as Ha.
  { unfold ascii_text. apply (bool_decide_unpack _). vm_compute. exact I. }
  pose proof (X24_toTitleCase_changes_case_only "gulab JAMUN" Ha)
    as (H1 & _ & _ & _ & H5 & _).
  split; [exact Ha|]. split; [exact H1|]. split; [|reflexivity].
  apply H5. intros c Hin Hb. cbn in Hin.
  repeat (destruct Hin as [<-|Hin]; [try reflexivity; discriminate Hb|]).
  destruct Hin.
Defined.

Lemma trimStart_lower_eq s :
  JsText.trimStart (Js.toLowerCase s) = Js.toLowerCase (JsText.trimStart s).
Proof.
  induction s as [|c s IH]; [done|]. cbn. rewrite isWhiteSpace_lower.
  by destruct (JsText.isWhiteSpace c).
Qed.

Lemma trimEnd_lower_eq s :
  JsText.trimEnd (Js.toLowerCase s) = Js.toLowerCase (JsText.trimEnd s).
Proof.
  induction s as [|c s IH]; [done|].
  cbn [Js.toLowerCase JsText.trimEnd]. rewrite IH, isWhiteSpace_lower.
  destruct (JsText.trimEnd s); cbn [Js.toLowerCase]; [|done].
  by destruct (JsText.isWhiteSpace c).
Qed.

Lemma trim_lower s : JsText.trim (Js.toLowerCase s) = Js.toLowerCase (JsText.trim s).
Proof. unfold JsText.trim. by rewrite trimStart_lower_eq, trimEnd_lower_eq. Qed.

Lemma trimEnd_idem s : JsText.trimEnd (JsText.trimEnd s) = JsText.trimEnd s.
Proof.
  induction s as [|c s IH]; [done|]. cbn [JsText.trimEnd].
  destruct (JsText.trimEnd s) as [|d u] eqn:E.
  - destruct (JsText.isWhiteSpace c) eqn:Ec; [done|].
    cbn [JsText.trimEnd]. by rewrite Ec.
  - cbn [JsText.trimEnd] in *. rewrite IH. done.
Qed.

Lemma trimStart_head s :
  JsText.trimStart s = ""
  \/ exists c t, JsText.trimStart s = String c t /\ JsText.isWhiteSpace c = false.
Proof.
  induction s as [|c s IH]; [by left|]. cbn [JsText.trimStart].
  destruct (JsText.isWhiteSpace c) eqn:Ec; [done|]. right. by exists c, s.
Qed.

Lemma trim_idem s : JsText.trim (JsText.trim s) = JsText.trim s.
Proof.
  unfold JsText.trim.
  assert (JsText.trimStart (JsText.trimEnd (JsText.trimStart s))
          = JsText.trimEnd (JsText.trimStart s)) as ->; [|apply trimEnd_idem].
  destruct (trimStart_head s) as [->|(c & t & -> & Hc)]; [done|].
  cbn [JsText.trimEnd]. rewrite Hc.
  destruct (JsText.trimEnd t); cbn [JsText.trimStart]; by rewrite Hc.
Qed.

Lemma categoryOf_normal category c :
  ProductForm.categoryOf category = Some c ->
  c <> "" /\ JsText.trim c = c /\ Js.toLowerCase c = c.
Proof.
  unfold ProductForm.categoryOf, ProductForm.trimmedOrNull. cbv zeta.
  destruct category as [s|]; [|done].
  destruct (String.eqb_spec (JsText.trim s) "") as [|Hne]; [done|].
  cbn [option_map]. intros [= <-].
  split; [by intros ?%toLowerCase_nil|].
  by rewrite trim_lower, trim_idem, toLowerCase_idem.
Qed.

(** X25.  The category a product is filed under.  What the product form
    sends as [category] is null or a text that is not empty, has no white
    space at either end and no capital letter.  The category form stores a
    name in lower case but does not trim it: a name typed there without
    white space at its ends is the text the product form sends for it,
    whatever the case, but a name stored with white space at an end is one the
    product form never sends. *)
Theorem X25_category_texts (category : option string) (name : string) :
  ProductForm.categoryOf category <> Some ""
  /\ (forall c, ProductForm.categoryOf category = Some c ->
        JsText.trim c = c /\ Js.toLowerCase c = c)
  /\ (name <> "" -> JsText.trim name = name ->
      ProductForm.categoryOf (Some name) = Some (CategoryForm.nameOf name))
  /\ (JsText.trim (CategoryForm.nameOf name) <> CategoryForm.nameOf name ->
      ProductForm.categoryOf category <> Some (CategoryForm.nameOf name)).
Proof.
  pose proof (categoryOf_normal category) as H.
  split; [intros E; by destruct (H _ E)|].
  split; [intros c E; by destruct (H _ E) as (_ & ? & ?)|].
  split.
  - intros Hne Ht. unfold ProductForm.categoryOf, ProductForm.trimmedOrNull.
    rewrite Ht. by rewrite (proj2 (String.eqb_neq _ _) Hne).
  - intros Hn E. by destruct (H _ E) as (_ & ? & _).
Qed.

Lemma X25_category_texts_witness :
  ProductForm.categoryOf (Some "Sweets") = Some (CategoryForm.nameOf "Sweets")
  /\ ProductForm.categoryOf (Some " sweets ") <> Some (CategoryForm.nameOf "Sweets ").
Proof.
  split.
  - apply (proj1 (proj2 (proj2 (X25_category_texts None "Sweets"))));
      [discriminate|reflexivity].
  - apply (proj2 (proj2 (proj2 (X25_category_texts (Some " sweets ") "Sweets ")))).
    vm_compute. discriminate.
Defined.

(** ** Saving a new product *)

Lemma generate_sku_ok db :
  sku_sequence db <= bigint_max ->
  generate_sku db
  = (inr (sku_of (sku_sequence db)), set_sku_sequence (sku_sequence db + 1) db).
Proof.
  intros H. unfold generate_sku, nextval. tx_unfold.
  by rewrite (proj2 (Z.leb_le _ _) H).
Qed.

Lemma generate_sku_state uid db :
  snd (generate_sku db) = state_of (request uid RpcGenerateSku db).
Proof.
  unfold request, run. cbn [exec]. unfold generate_sku, nextval. tx_unfold.
  destruct (sku_sequence db <=? bigint_max); cbn; [done|].
  by rewrite set_sku_sequence_same.
Qed.

Lemma NoDup_app_fresh {A B} (f : A -> B) (l : list A) (x : A) (r : list A) :
  NoDup (map f (l ++ x :: r)) -> f x ∉ map f l.
Proof.
  rewrite map_app. intros (_ & H & _)%NoDup_app Hin.
  apply (H _ Hin). cbn. left.
Qed.

Lemma insert_variant_admin db uid NEW :
  is_admin db uid = true ->
  v_id NEW ∉ map v_id (product_variants db) ->
  v_sku NEW ∉ map v_sku (product_variants db) ->
  variant_key NEW ∉ map variant_key (product_variants db) ->
  v_product_id NEW ∈ map p_id (product db) ->
  request uid (InsertVariant NEW) db
  = Committed (set_product_variants (product_variants db ++ [NEW]) db).
Proof.
  intros Ha Hid Hsku Hkey Hfk. unfold request, run. cbn [exec].
  unfold insert_variant, insert_variant_row. tx_unfold.
  rewrite (with_check_admin _ _ _ _ Ha).
  rewrite (bool_decide_eq_true_2 (v_id NEW ∉ _)) by done.
  rewrite (bool_decide_eq_true_2 (v_sku NEW ∉ _)) by done.
  rewrite (bool_decide_eq_true_2 (Forall _ _)); cycle 1.
  { apply Forall_forall. intros v Hv Hk. apply Hkey.
    apply same_variant_key_iff in Hk. rewrite <- Hk.
    by apply list_elem_of_fmap_2. }
  cbn [product set_product_variants].
  by rewrite bool_decide_eq_true_2.
Qed.

Lemma insertMore_done uid profile draws pid more :
  forall k db,
    is_admin db uid = true -> pid ∈ map p_id (product db) ->
    sku_sequence db + Z.of_nat (length more) <= bigint_max + 1 ->
    let rows := ProductForm.moreRows profile draws pid k (sku_sequence db) more in
    NoDup (map v_id (product_variants db ++ rows)) ->
    NoDup (map v_sku (product_variants db ++ rows)) ->
    NoDup (map variant_key (product_variants db ++ rows)) ->
    ProductForm.insertMore uid profile draws pid k more db
    = ProductForm.Done
        (set_product_variants (product_variants db ++ rows)
           (set_sku_sequence (sku_sequence db + Z.of_nat (length more)) db)).
Proof.
  induction more as [|variant more IH]; intros k db Ha Hp Hs rows H1 H2 H3.
  - cbn. unfold rows. cbn. rewrite app_nil_r, Z.add_0_r. by destruct db.
  - cbn [ProductForm.insertMore].
    rewrite generate_sku_ok by (cbn [length] in Hs; lia).
    unfold rows in *. cbn [ProductForm.moreRows] in *.
    set (NEW := ProductForm.variantRow profile draws pid k
                  (sku_of (sku_sequence db)) variant) in *.
    set (db1 := set_sku_sequence (sku_sequence db + 1) db).
    rewrite (insert_variant_admin db1 uid NEW Ha
               (NoDup_app_fresh v_id _ _ _ H1)
               (NoDup_app_fresh v_sku _ _ _ H2)
               (NoDup_app_fresh variant_key _ _ _ H3) Hp).
    cbn [product_variants db1 set_sku_sequence].
    rewrite IH; cbn [product_variants set_product_variants set_sku_sequence
                       sku_sequence product is_admin admin_users db1];
      rewrite <- ?app_assoc; try done.
    all: first [ cbn [length] in Hs; lia
               | unfold set_product_variants, set_sku_sequence; cbn;
                 do 2 f_equal; lia ].
Qed.

Lemma filter_all {A} (P : A -> Prop) `{!forall x, Decision (P x)} (l : list A) :
  (forall x, x ∈ l -> P x) -> filter P l = l.
Proof.
  induction l as [|a l IH]; [done|]. intros Hall.
  rewrite filter_cons_True by (apply Hall; left).
  rewrite IH; [done|]. intros x Hx. apply Hall. by right.
Qed.

Lemma moreRows_product profile draws pid more :
  forall k n v, v ∈ ProductForm.moreRows profile draws pid k n more ->
                v_product_id v = pid.
Proof.
  induction more as [|i more IH]; intros k n v; [by intros ?%elem_of_nil|].
  cbn [ProductForm.moreRows]. intros [->|Hv]%elem_of_cons; [done|].
  by apply (IH _ _ _ Hv).
Qed.

Lemma variants_of_fresh db pid :
  wf db -> pid ∉ map p_id (product db) ->
  variants_of pid (product_variants db) = [].
Proof.
  intros Hwf Hp. destruct (variants_of pid (product_variants db)) as [|v l] eqn:E;
    [done|].
  exfalso. apply Hp, (wf_variant_fkey _ Hwf).
  assert (v ∈ variants_of pid (product_variants db)) as [<- Hv]%variants_of_elem
    by (rewrite E; left).
  by apply list_elem_of_fmap_2.
Qed.

Lemma update_variant_admin db uid v patch now :
  wf db -> holds db -> is_admin db uid = true -> v ∈ product_variants db ->
  vp_sku patch = None ->
  (forall u, u ∈ product_variants db -> u <> v ->
     ~ same_variant_key u (update_last_updated now (apply_variant_patch patch v))) ->
  request uid (UpdateVariant (v_id v) patch now) db
  = Committed
      (set_product_variants
         (map (fun u => if bool_decide (u = v)
                        then update_last_updated now (apply_variant_patch patch v)
                        else u)
              (product_variants db)) db).
Proof.
  intros Hwf Hh Ha Hv Es Hkey.
  unfold request, run. cbn [exec]. unfold update_variant. tx_unfold.
  rewrite (can_modify_admin _ _ _ _ Ha), (delete_variant_targets _ _ Hwf Hv).
  cbn [for_each]. unfold update_variant_row. tx_unfold.
  rewrite (with_check_admin _ _ _ _ Ha).
  destruct (holds_variants _ Hh) as [Hsku _].
  rewrite (bool_decide_eq_true_2 (_ ∉ _)); cycle 1.
  { cbn [update_last_updated apply_variant_patch v_sku]. rewrite Es.
    cbn [default].
    intros (u & E & [Hne Hu]%list_elem_of_filter)%list_elem_of_fmap.
    apply Hne. symmetry. by apply (NoDup_map_inj v_sku _ v u Hsku). }
  rewrite bool_decide_eq_true_2; [done|].
  apply Forall_forall. intros u [Hne Hu]%list_elem_of_filter. by apply Hkey.
Qed.

Lemma moreRows_keys profile draws pid more :
  forall k n,
    map variant_key (ProductForm.moreRows profile draws pid k n more)
    = map (fun i => (pid, ProductForm.in_variant_type i,
                     ProductForm.in_variant_value i)) more.
Proof.
  induction more as [|i more IH]; intros k n; [done|].
  cbn [ProductForm.moreRows map]. by rewrite IH.
Qed.

Lemma moreRows_length profile draws pid more :
  forall k n, length (ProductForm.moreRows profile draws pid k n more)
              = length more.
Proof.
  induction more as [|i more IH]; intros k n; [done|].
  cbn [ProductForm.moreRows length]. by rewrite IH.
Qed.

Lemma productData_nullify profile data draws :
  nullify_empty_category_name (ProductForm.productData profile data draws)
  = ProductForm.productData profile data draws.
Proof.
  apply nullify_same. cbn [ProductForm.productData p_category].
  intros E. by destruct (categoryOf_normal _ _ E).
Qed.



Lemma variant_request_product uid st db :
  target_table st = t_product_variants ->
  product (state_of (request uid st db)) = product db.
Proof.
  intros Ht. unfold request, run.
  destruct (exec uid st db) as [[e|[]] db'] eqn:E; cbn [state_of]; [done|].
  destruct st; try discriminate Ht; cbn [exec] in E.
  - unfold insert_variant, insert_variant_row in E. by tx_cases E.
  - unfold update_variant in E. tx_cases E; [|done].
    eapply (for_each_inv (fun d => product d = product db)); [|done|exact E].
    intros x d r d' Hd Hx. rewrite <- Hd. unfold update_variant_row in Hx.
    by tx_cases Hx.
  - unfold delete_variant, delete_variant_rows in E. tx_cases E; [|done].
    eapply (for_each_inv (fun d => product d = product db)); [|done|exact E].
    intros x d r d' Hd Hx. rewrite <- Hd.
    unfold delete_variant_row, prevent_last_variant_delete in Hx.
    by tx_cases Hx.
  - unfold generate_sku, nextval in E. by tx_cases E.
Qed.

Lemma insertMore_state uid profile draws pid more :
  forall k db,
    reachable db ->
    reachable (ProductForm.state_after
                 (ProductForm.insertMore uid profile draws pid k more db))
    /\ product (ProductForm.state_after
                  (ProductForm.insertMore uid profile draws pid k more db))
       = product db.
Proof.
  induction more as [|variant more IH]; intros k db Hr; [done|].
  cbn [ProductForm.insertMore].
  pose proof (generate_sku_state uid db) as Eg.
  pose proof (reachable_step db uid RpcGenerateSku Hr) as Hr1.
  pose proof (variant_request_product uid RpcGenerateSku db eq_refl) as Hp1.
  rewrite <- Eg in Hr1, Hp1.
  destruct (generate_sku db) as [[e|skuData] db1]; cbn [snd] in *; [done|].
  set (st := InsertVariant _).
  pose proof (reachable_step db1 uid st Hr1) as Hr2.
  pose proof (variant_request_product uid st db1 eq_refl) as Hp2.
  destruct (request uid st db1) as [db2|e db2]; cbn [state_of] in *.
  - destruct (IH (S k) db2 Hr2) as [H1 H2]. split; [done|]. congruence.
  - cbn. split; [done|congruence].
Qed.

(** X27.  Saving a new product is not one transaction.  Whoever saves
    whatever form in a reachable state, the state the form leaves is
    reachable again, so every invariant of the store holds in it, and the
    table of products is as before or has the one new row; when saving
    succeeded it has the new row.  But a save that failed may have stored the
    product all the same: with the same type and value in two variants of
    the form, the toast says 'Error' and the product is there, with the first
    variant only. *)
Theorem X27_onSubmit_not_atomic :
  (forall db uid profile draws data,
     reachable db ->
     let r := ProductForm.onSubmit uid profile draws data db in
     let row := ProductForm.productData profile data draws in
     reachable (ProductForm.state_after r)
     /\ (product (ProductForm.state_after r) = product db
         \/ product (ProductForm.state_after r) = (product db ++ [row])%list)
     /\ (forall db', r = ProductForm.Done db' ->
                     product db' = (product db ++ [row])%list))
  /\ (exists f db',
        ProductForm.onSubmit Sample.admin Sample.admin SampleForm.draws
          SampleForm.twice Sample.db1 = ProductForm.Failed f db'
        /\ f = ProductForm.Rejected (unique_violation "unique_variant_per_product")
        /\ map p_id (product db') = ["p1"; "p2"]
        /\ map v_variant_value (variants_of "p2" (product_variants db'))
           = ["250g"]).
Proof.
  split.
  - intros db uid profile draws data Hr r row. unfold r, ProductForm.onSubmit.
    fold row.
    set (st1 := InsertProduct _ _ _).
    pose proof (reachable_step db uid st1 Hr) as Hr1.
    assert (forall db1, request uid st1 db = Committed db1 ->
                        product db1 = (product db ++ [row])%list) as Hp1.
    { unfold request, run, st1. cbn [exec]. intros db1 E.
      destruct (insert_product uid row _ _ db) as [[e|[]] d] eqn:E1; [done|].
      injection E as <-.
      apply insert_product_committed in E1 as (-> & _). cbn.
      unfold row. by rewrite productData_nullify. }
    assert (forall e db1, request uid st1 db = RolledBack e db1 ->
                          product db1 = product db) as Hp1'.
    { unfold request, run. intros e db1 E.
      destruct (exec uid st1 db) as [[e'|[]] d]; [|done].
      by injection E as <- <-. }
    destruct (request uid st1 db) as [db1|e db1]; cbn [state_of] in Hr1;
      [|cbn; split; [done|split; [left; eauto|done]]].
    specialize (Hp1 db1 eq_refl).
    destruct (ProductForm.single _) as [autoVariant|];
      [|cbn; split; [done|split; [by right|done]]].
    set (st2 := UpdateVariant _ _ _).
    pose proof (reachable_step db1 uid st2 Hr1) as Hr2.
    pose proof (variant_request_product uid st2 db1 eq_refl) as Hp2.
    destruct (request uid st2 db1) as [db2|e db2]; cbn [state_of] in Hr2, Hp2;
      [|cbn; split; [done|split; [right; congruence|done]]].
    destruct (insertMore_state uid profile draws (p_id row) (ProductForm.fd_more data)
                0 db2 Hr2) as [H1 H2].
    split; [done|]. split; [right; congruence|].
    intros db' E. rewrite E in H2. cbn in H2. congruence.
  - eexists _, _. split; [vm_compute; reflexivity|].
    split; [reflexivity|]. split; reflexivity.
Qed.

Lemma X27_onSubmit_not_atomic_witness :
  reachable (ProductForm.state_after
               (ProductForm.onSubmit Sample.admin Sample.admin SampleForm.draws
                  SampleForm.twice Sample.db1)).
Proof.
  exact (proj1 (proj1 X27_onSubmit_not_atomic Sample.db1 Sample.admin
                  Sample.admin SampleForm.draws SampleForm.twice
                  reachable_db1)).
Defined.

(** X28.  A product cannot be filed under a category that does not exist:
    when the category typed into the product form, trimmed and in lower
    case, is not the name of a category, the insert of the product breaks
    the foreign key; the form stops at its first request and no product and
    no variant is stored. *)
Theorem X28_unknown_category_rejected db uid profile draws data c :
  is_admin db uid = true ->
  ProductForm.new_product_id draws ∉ map p_id (product db) ->
  ProductForm.categoryOf (ProductForm.fd_category data) = Some c ->
  c ∉ map c_name (category db) ->
  exists db',
    ProductForm.onSubmit uid profile draws data db
    = ProductForm.Failed
        (ProductForm.Rejected (foreign_key_violation "product_category_fkey")) db'
    /\ product db' = product db
    /\ product_variants db' = product_variants db
    /\ category db' = category db.
Proof.
  intros Ha Hp Hc Hn. unfold ProductForm.onSubmit, request, run. cbn [exec].
  unfold insert_product. tx_unfold.
  rewrite (with_check_admin _ _ _ _ Ha), productData_nullify.
  rewrite bool_decide_eq_true_2 by done. cbn beta iota zeta.
  assert (category_fkey db (ProductForm.productData profile data draws) = false)
    as ->.
  { unfold category_fkey. cbn [ProductForm.productData p_category].
    rewrite Hc. by apply bool_decide_eq_false. }
  cbn beta iota zeta. eexists. split; [reflexivity|]. done.
Qed.

Lemma X28_unknown_category_rejected_witness :
  exists db',
    ProductForm.onSubmit Sample.admin Sample.admin SampleForm.draws
      (ProductForm.mkProductFormData "barfi" None (Some " Sweets ") true None
         (ProductForm.mkVariantInput weight "250g" 120 5) [])
      Sample.db1
    = ProductForm.Failed
        (ProductForm.Rejected (foreign_key_violation "product_category_fkey")) db'
    /\ product db' = product Sample.db1.
Proof.
  assert ("p2" ∉ map p_id (product Sample.db1)) as Hp
    by (apply (bool_decide_unpack _); vm_compute; exact I).
  destruct (X28_unknown_category_rejected Sample.db1 Sample.admin Sample.admin
              SampleForm.draws
              (ProductForm.mkProductFormData "barfi" None (Some " Sweets ")
                 true None (ProductForm.mkVariantInput weight "250g" 120 5) [])
              "sweets" eq_refl Hp eq_refl
              ltac:(apply (bool_decide_unpack _); vm_compute; exact I))
    as (db' & E & Hprod & _).
  exists db'. split; [exact E|exact Hprod].
Defined.

(** * Weights in grams and kilograms *)

Lemma toString_digits n :
  0 <= n ->
  exists d, JsText.toString n = NilEmpty.string_of_uint d
            /\ d <> Decimal.Nil
            /\ Js.digitsValue 0 (NilEmpty.string_of_uint d) = n.
Proof.
  intros Hn. unfold JsText.toString. destruct n as [|p|p]; [| |lia].
  - by exists (Decimal.D0 Decimal.Nil).
  - exists (Pos.to_uint p). cbn [Z.to_int NilZero.string_of_int].
    pose proof (Unsigned.to_uint_nonnil p) as Hnil.
    split; [by destruct (Pos.to_uint p)|]. split; [done|].
    by rewrite digitsValue_uint, DecimalPos.Unsigned.of_to.
Qed.

Lemma toLowerCase_uint d :
  Js.toLowerCase (NilEmpty.string_of_uint d) = NilEmpty.string_of_uint d.
Proof.
  induction d; cbn [NilEmpty.string_of_uint Js.toLowerCase]; [done|..];
    rewrite IHd; reflexivity.
Qed.

Lemma toLowerCase_app a b :
  Js.toLowerCase (a +:+ b) = Js.toLowerCase a +:+ Js.toLowerCase b.
Proof.
  induction a as [|c a IH]; [reflexivity|].
  change (String c a +:+ b) with (String c (a +:+ b)).
  cbn [Js.toLowerCase]. by rewrite IH.
Qed.

Lemma digitRun_uint_app d c rest :
  Js.isDigit c = false ->
  Js.digitRun (NilEmpty.string_of_uint d +:+ String c rest)
  = (NilEmpty.string_of_uint d, String c rest).
Proof.
  intros Hc.
  induction d; cbn [NilEmpty.string_of_uint];
    [change ("" +:+ String c rest) with (String c rest);
     cbn [Js.digitRun]; by rewrite Hc|..];
    match goal with
    | |- context [String ?x ?s +:+ ?r] =>
        change (String x s +:+ r) with (String x (s +:+ r))
    end;
    cbn [Js.digitRun]; rewrite IHd; reflexivity.
Qed.

Lemma append_nil_r (s : string) : s +:+ "" = s.
Proof.
  induction s as [|c s IH]; [reflexivity|].
  change (String c s +:+ "") with (String c (s +:+ "")). by rewrite IH.
Qed.

Lemma matchDecimal_uint d c rest :
  d <> Decimal.Nil -> Js.isDigit c = false -> Js.isDot c = false ->
  Js.matchDecimal (NilEmpty.string_of_uint d +:+ String c rest)
  = Some (NilEmpty.string_of_uint d).
Proof.
  intros Hd Hc Hdot.
  assert (Js.decimalAt (NilEmpty.string_of_uint d +:+ String c rest)
          = Some (NilEmpty.string_of_uint d)) as E.
  { unfold Js.decimalAt. rewrite (digitRun_uint_app d c rest Hc).
    destruct (isDigit_head_uint d Hd) as (x & t & -> & _). by rewrite Hdot. }
  destruct (NilEmpty.string_of_uint d +:+ String c rest);
    cbn [Js.matchDecimal]; by rewrite E.
Qed.

Lemma parseFloat_uint d :
  d <> Decimal.Nil ->
  Js.parseFloat (NilEmpty.string_of_uint d)
  = Js.Num (inject_Z (Js.digitsValue 0 (NilEmpty.string_of_uint d))).
Proof.
  intros Hd. unfold Js.parseFloat. rewrite digitRun_uint.
  destruct (isDigit_head_uint d Hd) as (x & t & E & _). rewrite E.
  rewrite append_nil_r. cbn [String.length Z.of_nat].
  change (Z.to_pos (10 ^ 0)) with 1%positive.
  f_equal. apply Qcanon.Qred_identity. cbn [Qnum Qden]. apply Z.gcd_1_r.
Qed.

Lemma includes_suffix a b : Js.includes (a +:+ b) b = true.
Proof. apply includes_spec. exists a, "". by rewrite append_nil_r. Qed.

Lemma includes_kg_uint_g d :
  Js.includes (NilEmpty.string_of_uint d +:+ "g") "kg" = false.
Proof.
  induction d; cbn [NilEmpty.string_of_uint]; [reflexivity|..];
    match goal with
    | |- context [String ?x ?s +:+ ?r] =>
        change (String x s +:+ r) with (String x (s +:+ r))
    end;
    cbn [Js.includes]; rewrite IHd;
    by destruct (NilEmpty.string_of_uint d +:+ "g").
Qed.

Lemma Qred_inject_mult (z k : Z) :
  Qred (inject_Z z * inject_Z k) = inject_Z (z * k).
Proof.
  unfold inject_Z, Qmult. cbn [Qnum Qden Pos.mul].
  apply Qcanon.Qred_identity. cbn [Qnum Qden]. apply Z.gcd_1_r.
Qed.

Lemma parseWeightInGrams_g n :
  0 <= n -> parseWeightInGrams (JsText.toString n +:+ "g") = Some (inject_Z n).
Proof.
  intros Hn. destruct (toString_digits n Hn) as (d & -> & Hd & Ev).
  unfold parseWeightInGrams. cbv zeta.
  rewrite toLowerCase_app, toLowerCase_uint.
  change (Js.toLowerCase "g") with "g".
  rewrite (matchDecimal_uint d "g" "" Hd eq_refl eq_refl).
  rewrite (parseFloat_uint d Hd), Ev.
  by rewrite includes_kg_uint_g, includes_suffix.
Qed.

Lemma parseWeightInGrams_kg n :
  0 <= n ->
  parseWeightInGrams (JsText.toString n +:+ "kg") = Some (inject_Z (n * 1000)).
Proof.
  intros Hn. destruct (toString_digits n Hn) as (d & -> & Hd & Ev).
  unfold parseWeightInGrams. cbv zeta.
  rewrite toLowerCase_app, toLowerCase_uint.
  change (Js.toLowerCase "kg") with "kg".
  rewrite (matchDecimal_uint d "k" "g" Hd eq_refl eq_refl).
  rewrite (parseFloat_uint d Hd), Ev, includes_suffix.
  f_equal. apply (Qred_inject_mult n 1000).
Qed.

(** X29.  Weights are ordered by mass across the two units.  For whole
    amounts n and m with n and 1000 m below 2^53, the range in which a
    JavaScript number holds every whole number exactly, the weight
    normalizer reads "<n>g" as n and "<m>kg" as 1000 m, and a pair of
    variants of which one has type weight, one given in grams and one in
    kilograms, is ordered by mass whenever the masses differ: the
    comparator puts the one in grams first exactly when n is less than
    1000 m. *)
Theorem X29_weights_order_by_mass
    (parseNumericValue : string -> option Q) (a b : ProductVariant) (n m : Z) :
  0 <= n < 2 ^ 53 -> 0 <= 1000 * m < 2 ^ 53 ->
  is_weight a \/ is_weight b ->
  v_variant_value a = JsText.toString n +:+ "g" ->
  v_variant_value b = JsText.toString m +:+ "kg" ->
  parseWeightInGrams (v_variant_value a) = Some (inject_Z n)
  /\ parseWeightInGrams (v_variant_value b) = Some (inject_Z (m * 1000))
  /\ (n <> 1000 * m ->
      ((compareVariants parseWeightInGrams parseNumericValue a b < 0)%Q
       <-> n < 1000 * m)
      /\ ((compareVariants parseWeightInGrams parseNumericValue b a < 0)%Q
          <-> 1000 * m < n)).
Proof.
  intros [Hn Hn'] [Hm Hm'] Hw Ea Eb.
  assert (0 <= m) as Hm0 by lia.
  pose proof (parseWeightInGrams_g n Hn) as Pa.
  pose proof (parseWeightInGrams_kg m Hm0) as Pb.
  rewrite <- Ea in Pa. rewrite <- Eb in Pb.
  split; [exact Pa|]. split; [exact Pb|]. intros Hne.
  unfold compareVariants, compareVariantsWith. cbv zeta.
  rewrite !VariantType_eqb_weight.
  assert (bool_decide (is_weight a) || bool_decide (is_weight b) = true) as ->.
  { destruct Hw; [rewrite (bool_decide_eq_true_2 (is_weight a)) by done
                 |rewrite (bool_decide_eq_true_2 (is_weight b)) by done];
      by rewrite ?orb_true_r. }
  assert (bool_decide (is_weight b) || bool_decide (is_weight a) = true) as ->.
  { destruct Hw; [rewrite (bool_decide_eq_true_2 (is_weight a)) by done
                 |rewrite (bool_decide_eq_true_2 (is_weight b)) by done];
      by rewrite ?orb_true_r. }
  rewrite Pa, Pb.
  assert (Qeq_bool (inject_Z n) (inject_Z (m * 1000)) = false) as E1.
  { apply Qeq_bool_false. unfold Qeq, inject_Z. cbn [Qnum Qden]. lia. }
  assert (Qeq_bool (inject_Z (m * 1000)) (inject_Z n) = false) as E2.
  { apply Qeq_bool_false. unfold Qeq, inject_Z. cbn [Qnum Qden]. lia. }
  rewrite E1, E2. cbn [negb].
  unfold Qlt, Qminus, Qplus, Qopp, inject_Z. cbn [Qnum Qden].
  split; lia.
Qed.

Lemma X29_weights_order_by_mass_witness :
  (compareVariants parseWeightInGrams Index.parseNumericValue
     (Sample.variant "a" weight "500g" 0) (Sample.variant "b" weight "2kg" 0)
   < 0)%Q.
Proof.
  apply (proj2 (proj2 (X29_weights_order_by_mass Index.parseNumericValue
                         (Sample.variant "a" weight "500g" 0)
                         (Sample.variant "b" weight "2kg" 0) 500 2
                         ltac:(lia) ltac:(lia) (or_introl eq_refl)
                         eq_refl eq_refl)) ltac:(lia)).
  lia.
Defined.
